(** * YAudio: the audio playback module of the Y-Board v3 (src/src/yaudio.cpp)

    A shallow embedding of the module's static variables and functions, and
    the properties of the ring buffer, the note parser, the tone renderer and
    the session controller.

    Modelling conventions.
    - [int] variables are [Z]; the indices and counters of the module stay far
      from the 32-bit limits, and C's [%] on them is [Z.rem].
    - [float] and [double] quantities (frequencies, durations, amplitudes)
      are rationals [Q] that every operation rounds to the precision of its
      C++ type: [f32] rounds to the 24 significant bits of [float], [f64] to
      the 53 bits of [double], to nearest, ties to even; an operation on a
      [float] and a [double] is done in [double], and a [double] stored in a
      [float] is rounded once more.  The exponent range is not modelled: no
      overflow to infinity, no subnormal numbers, no NaN; the properties
      whose values could leave the range state the bounds that keep them
      inside.  No divisor is 0 where the module runs: the tempo stays
      within 40..240, a duration fraction divides only within 1..2000, and
      the sample count divides only inside the loop it bounds.  The
      conversion of such a value to an integer type truncates toward zero
      ([Qtrunc]); in C++ it is defined only when the result fits the type.
    - [std::string] is [string]; [s[i]] at [i = s.size()] is the NUL character.
    - The functions of the C and C++ libraries whose result the module cannot
      compute itself ([std::stof], [sin], [pow(2, 1.0/12)]) and the content of
      the SD card are the fields of a [platform] record the model is
      parameterised by.
    - The calls to the I2S driver are collected in a trace of [i2s_call]s;
      [Serial] output is omitted. *)

From Stdlib Require Import ZArith QArith Qpower Qfield Qabs Qround.
From Stdlib Require Import String Ascii List Bool Lia Lqa Strings.Byte.
Import ListNotations.

Local Open Scope Z_scope.

(* ------------------------------------------------------------------------ *)
(** ** Configuration constants *)

Definition SAMPLE_RATE : Z := 16000.
Definition BYTES_PER_SAMPLE : Z := 16 / 8.
Definition MAX_NOTES_IN_BUFFER : nat := 4000.
Definition FRAME_SIZE : Z := 1024.
Definition AUDIO_BUF_NUM_FRAMES : Z := 100.
Definition WAVE_FRAMES_TO_BUFFER : Z := 5.

(** Number of samples of [audio_buf]. *)
Definition AUDIO_BUF_LEN : Z := FRAME_SIZE * AUDIO_BUF_NUM_FRAMES.

(* ------------------------------------------------------------------------ *)
(** ** Results of fallible code *)

(** The exceptions [std::stoi] and [std::stof] raise. *)
Inductive exn : Type :=
| invalid_argument
| out_of_range.

(** A call of a library function returns a value or raises. *)
Inductive result (A : Type) : Type :=
| Value (a : A)
| Raise (e : exn).

Arguments Value {A} a.
Arguments Raise {A} e.

(** A function of the module returns, or is left by an exception nobody
    catches.  [OutOfFuel] is the answer of a loop of the model whose
    iteration bound was too small; the bounds used below are shown to be
    large enough. *)
Inductive outcome (A : Type) : Type :=
| Ok (a : A)
| Throw (e : exn)
| OutOfFuel.

Arguments Ok {A} a.
Arguments Throw {A} e.
Arguments OutOfFuel {A}.

(* ------------------------------------------------------------------------ *)
(** ** Characters and strings *)

Definition char_code (c : ascii) : Z := Z.of_N (N_of_ascii c).

Definition isspace (c : ascii) : bool :=
  let n := char_code c in (n =? 32) || ((9 <=? n) && (n <=? 13)).

Definition isdigit (c : ascii) : bool :=
  let n := char_code c in (48 <=? n) && (n <=? 57).

Definition is_char (c d : ascii) : bool := Ascii.eqb c d.

(** [s[i]]; NUL at and past the end. *)
Fixpoint char_at (s : string) (i : nat) : ascii :=
  match s, i with
  | EmptyString, _ => zero
  | String c _, O => c
  | String _ r, S j => char_at r j
  end.

(** [s.erase(0, n)] and [s.substr(n)] for [n <= s.size()]. *)
Fixpoint str_drop (n : nat) (s : string) : string :=
  match n, s with
  | O, _ => s
  | S _, EmptyString => EmptyString
  | S m, String _ r => str_drop m r
  end.

(** [s.pop_back()]. *)
Fixpoint pop_back (s : string) : string :=
  match s with
  | EmptyString => EmptyString
  | String c EmptyString => EmptyString
  | String c r => String c (pop_back r)
  end.

Fixpoint skip_space (s : string) : string :=
  match s with
  | String c r => if isspace c then skip_space r else s
  | EmptyString => s
  end.

(** The decimal digits at the head of [s], most significant first. *)
Fixpoint leading_digits (s : string) : list Z :=
  match s with
  | String c r => if isdigit c then (char_code c - 48) :: leading_digits r else []
  | EmptyString => []
  end.

Definition decimal_value (ds : list Z) : Z :=
  fold_left (fun acc d => 10 * acc + d) ds 0.

Definition INT_MIN : Z := - 2 ^ 31.
Definition INT_MAX : Z := 2 ^ 31 - 1.

(** [std::stoi(s, &pos)]: white space, an optional sign, decimal digits.
    No digit raises [invalid_argument], a value that does not fit an [int]
    raises [out_of_range]; [pos] is the number of characters read. *)
Definition stoi (s : string) : result (Z * nat) :=
  let s1 := skip_space s in
  let nspace := (String.length s - String.length s1)%nat in
  let '(neg, s2, nsign) :=
    match s1 with
    | String c r =>
        if is_char c "-" then (true, r, 1%nat)
        else if is_char c "+" then (false, r, 1%nat)
        else (false, s1, 0%nat)
    | EmptyString => (false, s1, 0%nat)
    end in
  let ds := leading_digits s2 in
  match ds with
  | [] => Raise invalid_argument
  | _ :: _ =>
      let v := if neg then - decimal_value ds else decimal_value ds in
      if (v <? INT_MIN) || (INT_MAX <? v) then Raise out_of_range
      else Value (v, (nspace + nsign + List.length ds)%nat)
  end.

(* ------------------------------------------------------------------------ *)
(** ** Rational helpers *)

(** Conversion of a floating value to an integer type: truncation. *)
Definition Qtrunc (q : Q) : Z := Z.quot (Qnum q) (Zpos (Qden q)).

Definition Qltb (a b : Q) : bool := negb (Qle_bool b a).

Definition Z2Q (z : Z) : Q := inject_Z z.

(** Conversion to [int16_t], with the wrap-around of the target. *)
Definition to_int16 (z : Z) : Z := (z + 32768) mod 65536 - 32768.

(* ------------------------------------------------------------------------ *)
(** ** Floating-point rounding *)

(** [floor (log2 q)] for a positive [q]. *)
Definition Qlog2 (q : Q) : Z :=
  let e := Z.log2 (Qnum q) - Z.log2 (Zpos (Qden q)) in
  if Qle_bool (2 ^ e) q then e else e - 1.

(** The integer nearest to [q], the even one of two that are as near. *)
Definition rne (q : Q) : Z :=
  let f := Qfloor q in
  match (q - inject_Z f ?= 1 # 2)%Q with
  | Lt => f
  | Gt => f + 1
  | Eq => if Z.even f then f else f + 1
  end.

(** The exponent of the last of the [prec] significant bits of [q]. *)
Definition fexp (prec : Z) (q : Q) : Z := Qlog2 (Qabs q) - prec + 1.

(** [q] rounded to [prec] significant bits, to nearest, ties to even; the
    result is a fraction in lowest terms. *)
Definition fround (prec : Z) (q : Q) : Q :=
  if Qeq_bool q 0 then 0%Q
  else
    let e := fexp prec q in
    Qred (inject_Z (rne (q * 2 ^ (- e))) * 2 ^ e).

(** The value a [float] holds, and the value a [double] holds. *)
Definition f32 : Q -> Q := fround 24.
Definition f64 : Q -> Q := fround 53.

(* ------------------------------------------------------------------------ *)
(** ** The file object of the FS library *)

Record File : Type := mkFile {
  f_open : bool;          (* the handle refers to an open file *)
  f_data : list byte;     (* content of the file *)
  f_pos : nat             (* read position *)
}.

Definition invalid_file : File := mkFile false [] 0.

Definition file_remaining (f : File) : list byte :=
  if f_open f then skipn (f_pos f) (f_data f) else [].

(** [file.available()]. *)
Definition file_available (f : File) : bool :=
  match file_remaining f with [] => false | _ :: _ => true end.

(** [file.read(buf, n)]: the bytes read, their count as the caller sees it
    (-1 on an invalid handle) and the file afterwards. *)
Definition file_read (n : nat) (f : File) : Z * list byte * File :=
  if f_open f then
    let bs := firstn n (file_remaining f) in
    (Z.of_nat (List.length bs), bs,
     mkFile true (f_data f) (f_pos f + List.length bs))
  else (-1, [], f).

(** [file.close()]. *)
Definition file_close (f : File) : File := mkFile false [] 0.

(* ------------------------------------------------------------------------ *)
(** ** What the module takes from its platform *)

Record platform : Type := mkPlatform {
  stof : string -> result (Q * nat);   (* std::stof(s, &pos) *)
  sin : Q -> Q;                         (* sin of <math.h> *)
  semitone : Q;                         (* pow(2, 1.0 / 12) *)
  sd_card : string -> option (list byte) (* the files SD.open finds *)
}.

(** [SD.open(filename)]. *)
Definition SD_open (P : platform) (filename : string) : File :=
  match sd_card P filename with
  | Some d => mkFile true d 0
  | None => invalid_file
  end.

(* ------------------------------------------------------------------------ *)
(** ** The static variables of the module *)

Record state : Type := mkState {
  audio_buf_num_populated_frames : Z;
  audio_buf : Z -> Z;
  audio_buf_frame_idx_to_send : Z;
  audio_buf_empty_idx : Z;
  i2s_running : bool;
  notes_running : bool;
  wave_running : bool;
  notes : string;
  beats_per_minute : Z;
  octave : Z;
  volume_notes : Z;
  next_note_parsed : bool;
  next_note_freq : Q;
  next_note_duration_s : Q;
  file : File;
  volume_wave : Z
}.

(** Assignment to one variable. *)
Definition set_audio_buf_num_populated_frames (v : Z) (s : state) : state :=
  mkState v (audio_buf s) (audio_buf_frame_idx_to_send s)
    (audio_buf_empty_idx s) (i2s_running s) (notes_running s)
    (wave_running s) (notes s) (beats_per_minute s) (octave s)
    (volume_notes s) (next_note_parsed s) (next_note_freq s)
    (next_note_duration_s s) (file s) (volume_wave s).

Definition set_audio_buf (v : Z -> Z) (s : state) : state :=
  mkState (audio_buf_num_populated_frames s) v
    (audio_buf_frame_idx_to_send s) (audio_buf_empty_idx s) (i2s_running s)
    (notes_running s) (wave_running s) (notes s) (beats_per_minute s)
    (octave s) (volume_notes s) (next_note_parsed s) (next_note_freq s)
    (next_note_duration_s s) (file s) (volume_wave s).

Definition set_audio_buf_frame_idx_to_send (v : Z) (s : state) : state :=
  mkState (audio_buf_num_populated_frames s) (audio_buf s) v
    (audio_buf_empty_idx s) (i2s_running s) (notes_running s)
    (wave_running s) (notes s) (beats_per_minute s) (octave s)
    (volume_notes s) (next_note_parsed s) (next_note_freq s)
    (next_note_duration_s s) (file s) (volume_wave s).

Definition set_audio_buf_empty_idx (v : Z) (s : state) : state :=
  mkState (audio_buf_num_populated_frames s) (audio_buf s)
    (audio_buf_frame_idx_to_send s) v (i2s_running s) (notes_running s)
    (wave_running s) (notes s) (beats_per_minute s) (octave s)
    (volume_notes s) (next_note_parsed s) (next_note_freq s)
    (next_note_duration_s s) (file s) (volume_wave s).

Definition set_i2s_running (v : bool) (s : state) : state :=
  mkState (audio_buf_num_populated_frames s) (audio_buf s)
    (audio_buf_frame_idx_to_send s) (audio_buf_empty_idx s) v
    (notes_running s) (wave_running s) (notes s) (beats_per_minute s)
    (octave s) (volume_notes s) (next_note_parsed s) (next_note_freq s)
    (next_note_duration_s s) (file s) (volume_wave s).

Definition set_notes_running (v : bool) (s : state) : state :=
  mkState (audio_buf_num_populated_frames s) (audio_buf s)
    (audio_buf_frame_idx_to_send s) (audio_buf_empty_idx s) (i2s_running s) v
    (wave_running s) (notes s) (beats_per_minute s) (octave s)
    (volume_notes s) (next_note_parsed s) (next_note_freq s)
    (next_note_duration_s s) (file s) (volume_wave s).

Definition set_wave_running (v : bool) (s : state) : state :=
  mkState (audio_buf_num_populated_frames s) (audio_buf s)
    (audio_buf_frame_idx_to_send s) (audio_buf_empty_idx s) (i2s_running s)
    (notes_running s) v (notes s) (beats_per_minute s) (octave s)
    (volume_notes s) (next_note_parsed s) (next_note_freq s)
    (next_note_duration_s s) (file s) (volume_wave s).

Definition set_notes (v : string) (s : state) : state :=
  mkState (audio_buf_num_populated_frames s) (audio_buf s)
    (audio_buf_frame_idx_to_send s) (audio_buf_empty_idx s) (i2s_running s)
    (notes_running s) (wave_running s) v (beats_per_minute s) (octave s)
    (volume_notes s) (next_note_parsed s) (next_note_freq s)
    (next_note_duration_s s) (file s) (volume_wave s).

Definition set_beats_per_minute (v : Z) (s : state) : state :=
  mkState (audio_buf_num_populated_frames s) (audio_buf s)
    (audio_buf_frame_idx_to_send s) (audio_buf_empty_idx s) (i2s_running s)
    (notes_running s) (wave_running s) (notes s) v (octave s)
    (volume_notes s) (next_note_parsed s) (next_note_freq s)
    (next_note_duration_s s) (file s) (volume_wave s).

Definition set_octave (v : Z) (s : state) : state :=
  mkState (audio_buf_num_populated_frames s) (audio_buf s)
    (audio_buf_frame_idx_to_send s) (audio_buf_empty_idx s) (i2s_running s)
    (notes_running s) (wave_running s) (notes s) (beats_per_minute s) v
    (volume_notes s) (next_note_parsed s) (next_note_freq s)
    (next_note_duration_s s) (file s) (volume_wave s).

Definition set_volume_notes (v : Z) (s : state) : state :=
  mkState (audio_buf_num_populated_frames s) (audio_buf s)
    (audio_buf_frame_idx_to_send s) (audio_buf_empty_idx s) (i2s_running s)
    (notes_running s) (wave_running s) (notes s) (beats_per_minute s)
    (octave s) v (next_note_parsed s) (next_note_freq s)
    (next_note_duration_s s) (file s) (volume_wave s).

Definition set_next_note_parsed (v : bool) (s : state) : state :=
  mkState (audio_buf_num_populated_frames s) (audio_buf s)
    (audio_buf_frame_idx_to_send s) (audio_buf_empty_idx s) (i2s_running s)
    (notes_running s) (wave_running s) (notes s) (beats_per_minute s)
    (octave s) (volume_notes s) v (next_note_freq s) (next_note_duration_s s)
    (file s) (volume_wave s).

Definition set_next_note_freq (v : Q) (s : state) : state :=
  mkState (audio_buf_num_populated_frames s) (audio_buf s)
    (audio_buf_frame_idx_to_send s) (audio_buf_empty_idx s) (i2s_running s)
    (notes_running s) (wave_running s) (notes s) (beats_per_minute s)
    (octave s) (volume_notes s) (next_note_parsed s) v
    (next_note_duration_s s) (file s) (volume_wave s).

Definition set_next_note_duration_s (v : Q) (s : state) : state :=
  mkState (audio_buf_num_populated_frames s) (audio_buf s)
    (audio_buf_frame_idx_to_send s) (audio_buf_empty_idx s) (i2s_running s)
    (notes_running s) (wave_running s) (notes s) (beats_per_minute s)
    (octave s) (volume_notes s) (next_note_parsed s) (next_note_freq s) v
    (file s) (volume_wave s).

Definition set_file (v : File) (s : state) : state :=
  mkState (audio_buf_num_populated_frames s) (audio_buf s)
    (audio_buf_frame_idx_to_send s) (audio_buf_empty_idx s) (i2s_running s)
    (notes_running s) (wave_running s) (notes s) (beats_per_minute s)
    (octave s) (volume_notes s) (next_note_parsed s) (next_note_freq s)
    (next_note_duration_s s) v (volume_wave s).

Definition set_volume_wave (v : Z) (s : state) : state :=
  mkState (audio_buf_num_populated_frames s) (audio_buf s)
    (audio_buf_frame_idx_to_send s) (audio_buf_empty_idx s) (i2s_running s)
    (notes_running s) (wave_running s) (notes s) (beats_per_minute s)
    (octave s) (volume_notes s) (next_note_parsed s) (next_note_freq s)
    (next_note_duration_s s) (file s) v.

(* ------------------------------------------------------------------------ *)
(** ** The I2S driver and the monad of the module's functions *)

(** The driver calls the module makes; [I2sWrite] carries the samples of the
    frame handed to [i2s_write]. *)
Inductive i2s_call : Type :=
| I2sStart
| I2sStop
| I2sZeroDmaBuffer
| I2sWrite (frame : list Z).

(** A function of the module reads and writes the static variables, calls
    the driver and may be left by an exception. *)
Definition M (A : Type) : Type := state -> outcome (A * state * list i2s_call).

Definition ret {A} (a : A) : M A := fun s => Ok (a, s, []).

Definition bind {A B} (m : M A) (f : A -> M B) : M B :=
  fun s =>
    match m s with
    | Ok (a, s1, o1) =>
        match f a s1 with
        | Ok (b, s2, o2) => Ok (b, s2, o1 ++ o2)
        | Throw e => Throw e
        | OutOfFuel => OutOfFuel
        end
    | Throw e => Throw e
    | OutOfFuel => OutOfFuel
    end.

Definition gets {A} (f : state -> A) : M A := fun s => Ok (f s, s, []).
Definition modify (f : state -> state) : M unit := fun s => Ok (tt, f s, []).
Definition call (c : i2s_call) : M unit := fun s => Ok (tt, s, [c]).
Definition when (b : bool) (m : M unit) : M unit := if b then m else ret tt.

(** A computation on the variables alone that may raise. *)
Definition lift (f : state -> outcome state) : M unit :=
  fun s =>
    match f s with
    | Ok s1 => Ok (tt, s1, [])
    | Throw e => Throw e
    | OutOfFuel => OutOfFuel
    end.

Declare Scope yaudio_scope.
Delimit Scope yaudio_scope with M.
Notation "x <- m ;; k" := (bind m (fun x => k))
  (at level 61, m at next level, right associativity) : yaudio_scope.
Notation "m ;; k" := (bind m (fun _ => k))
  (at level 61, right associativity) : yaudio_scope.

(* ------------------------------------------------------------------------ *)
(** ** Writing samples to the ring buffer *)

Definition buf_set (buf : Z -> Z) (i v : Z) : Z -> Z :=
  fun j => if j =? i then v else buf j.

(** The tail of the body of the two sample loops: store [val] at the write
    cursor with its lowest bit flipped, advance the cursor, and count a frame
    when the cursor reaches a frame boundary. *)
Definition put_sample (val : Z) (s : state) : state :=
  let idx := Z.lxor (audio_buf_empty_idx s) 1 in
  let s := set_audio_buf (buf_set (audio_buf s) idx val) s in
  let s := set_audio_buf_empty_idx
             (Z.rem (audio_buf_empty_idx s + 1) AUDIO_BUF_LEN) s in
  if Z.rem (audio_buf_empty_idx s) FRAME_SIZE =? 0
  then set_audio_buf_num_populated_frames
         (audio_buf_num_populated_frames s + 1) s
  else s.

(** [for (int i = i0; ...; i++) body], run [n] times. *)
Fixpoint for_loop (n : nat) (i : Z) (body : Z -> state -> state)
    (s : state) : state :=
  match n with
  | O => s
  | S m => for_loop m (i + 1) body (body i s)
  end.

(** [int num_samples = duration_s * SAMPLE_RATE], the product of a
    [float] and an [int] being a [float].  A product that does not fit an
    [int] has no defined conversion in C++; the definition then keeps its
    integer part, and the properties that name the sample count of a note
    hold it within the range of [int]. *)
Definition samples_of (duration_s : Q) : Z :=
  Qtrunc (f32 (duration_s * Z2Q SAMPLE_RATE)).

Definition generate_silence (duration_s : Q) (s : state) : state :=
  let num_samples := samples_of duration_s in
  for_loop (Z.to_nat num_samples) 0 (fun _ => put_sample 0) s.

(** [const float FADE_IN_FRAC = 0.02], and likewise [FADE_OUT_FRAC]: the
    [double] literal, stored in a [float]. *)
Definition FADE_IN_FRAC : Q := f32 (f64 (2 # 100)).
Definition FADE_OUT_FRAC : Q := f32 (f64 (2 # 100)).

Section Platform.

Variable P : platform.

(** The argument of [sin] at index [i]:
    [2 * 3.14 * frequency * i / SAMPLE_RATE], from left to right in
    [double]. *)
Definition sine_phase (frequency : Q) (i : Z) : Q :=
  f64 (f64 (f64 (f64 (2 * f64 (314 # 100)) * frequency) * Z2Q i)
       / Z2Q SAMPLE_RATE).

(** [_amp] at index [i]: [frac] and the two fade ratios are [float]s, the
    products with the [double] [amplitude] are [double]s. *)
Definition sine_envelope (amplitude : Q) (num_samples i : Z) : Q :=
  let frac := f32 (f64 (Z2Q i / Z2Q num_samples)) in
  if Qltb frac FADE_IN_FRAC then
    f64 (amplitude * f32 (frac / FADE_IN_FRAC))
  else if Qltb (f32 (1 - FADE_OUT_FRAC)) frac then
    f64 (amplitude
         * f32 (1 - f32 (f32 (frac - f32 (1 - FADE_OUT_FRAC))
                         / FADE_OUT_FRAC)))
  else amplitude.

(** The sample [generate_sine_wave] computes at index [i]. *)
Definition sine_sample (frequency amplitude : Q) (num_samples i : Z) : Z :=
  to_int16
    (Qtrunc (f64 (sine_envelope amplitude num_samples i
                  * sin P (sine_phase frequency i)))).

Definition generate_sine_wave (duration_s frequency amplitude : Q)
    (s : state) : state :=
  let num_samples := samples_of duration_s in
  for_loop (Z.to_nat num_samples) 0
    (fun i => put_sample (sine_sample frequency amplitude num_samples i)) s.

End Platform.

(* ------------------------------------------------------------------------ *)
(** ** The output task *)

(** The samples of frame [k] of the buffer. *)
Definition frame_at (buf : Z -> Z) (k : Z) : list Z :=
  map (fun j => buf (k * FRAME_SIZE + Z.of_nat j))
      (seq 0 (Z.to_nat FRAME_SIZE)).

(** What [I2Sout] does for one [I2S_EVENT_TX_DONE] of the event queue. *)
Definition I2Sout_TXdone : M unit :=
  (n <- gets audio_buf_num_populated_frames ;;
   when (n >=? 0)
     (buf <- gets audio_buf ;;
      k <- gets audio_buf_frame_idx_to_send ;;
      call (I2sWrite (frame_at buf k)) ;;
      modify (fun s => set_audio_buf_frame_idx_to_send
                         (Z.rem (audio_buf_frame_idx_to_send s + 1)
                                AUDIO_BUF_NUM_FRAMES) s) ;;
      modify (fun s => set_audio_buf_num_populated_frames
                         (audio_buf_num_populated_frames s - 1) s)))%M.

(* ------------------------------------------------------------------------ *)
(** ** Defaults and reset *)

Definition set_note_defaults (s : state) : state :=
  let s := set_beats_per_minute 120 s in
  let s := set_octave 5 s in
  set_volume_notes 5 s.

Definition reset_audio_buf (s : state) : state :=
  let s := set_audio_buf_num_populated_frames 0 s in
  let s := set_audio_buf_frame_idx_to_send 0 s in
  let s := set_audio_buf_empty_idx 0 s in
  let s := set_next_note_parsed false s in
  set_notes "" s.

(* ------------------------------------------------------------------------ *)
(** ** Rendering the parsed note *)

(** [int amplitude] of [write_next_note_to_audio_buf]. *)
Definition note_amplitude (volume : Z) (freq : Q) : Z :=
  (* in double *)
  let amplitude := Qtrunc (f64 (16000 * f64 (Z2Q volume / 10))) in
  if Qltb freq 800 then amplitude * 2
  else if Qltb freq 1100 then
    (* linear scaling of volume for frequencies between 800 and 1100,
       in float *)
    Qtrunc (f32 (f32 (f32 (Z2Q amplitude) * f32 (freq - 800)) / 300))
  else amplitude.

Definition avail_space (s : state) : Z :=
  (AUDIO_BUF_NUM_FRAMES - audio_buf_num_populated_frames s - 1) * FRAME_SIZE.

Section Render.

Variable P : platform.

Definition write_next_note_to_audio_buf (s : state) : state :=
  let note_samples := samples_of (next_note_duration_s s) in
  if avail_space s >? note_samples then
    let amplitude := note_amplitude (volume_notes s) (next_note_freq s) in
    let s :=
      if Qeq_bool (next_note_freq s) 0
      then generate_silence (next_note_duration_s s) s
      else generate_sine_wave P (next_note_duration_s s) (next_note_freq s)
             (Z2Q amplitude) s in
    set_next_note_parsed false s
  else s.

End Render.

(* ------------------------------------------------------------------------ *)
(** ** The note parser *)

Definition is_note_letter (c : ascii) : bool :=
  let n := char_code c in
  ((65 <=? n) && (n <=? 71)) || ((97 <=? n) && (n <=? 103))
  || is_char c "R" || is_char c "r" || is_char c "z".

(** A [double] literal stored in a [float] variable. *)
Definition float_literal (q : Q) : Q := f32 (f64 q).

(** [60.0 / beats_per_minute], a [double], stored in
    [next_note_duration_s]. *)
Definition quarter_note (bpm : Z) : Q := f32 (f64 (60 / Z2Q bpm)).

(** The [switch] on the note letter. *)
Definition note_letter_switch (c : ascii) (s : state) : state :=
  if is_char c "A" || is_char c "a" then
    set_next_note_freq (float_literal 440) s
  else if is_char c "B" || is_char c "b" then
    set_next_note_freq (float_literal (49388 # 100)) s
  else if is_char c "C" || is_char c "c" then
    set_next_note_freq (float_literal (52325 # 100)) s
  else if is_char c "D" || is_char c "d" then
    set_next_note_freq (float_literal (58733 # 100)) s
  else if is_char c "E" || is_char c "e" then
    set_next_note_freq (float_literal (65925 # 100)) s
  else if is_char c "F" || is_char c "f" then
    set_next_note_freq (float_literal (69846 # 100)) s
  else if is_char c "G" || is_char c "g" then
    set_next_note_freq (float_literal (78399 # 100)) s
  else if is_char c "z" then
    set_next_note_freq 0 (set_next_note_duration_s (float_literal (2 # 10)) s)
  else if is_char c "R" || is_char c "r" then set_next_note_freq 0 s
  else s.

(** How one round of the token loop ends: [continue] or [break]. *)
Inductive flow : Type :=
| Continue (s : state)
| Break (s : state).

Definition erase (n : nat) (s : state) : state :=
  set_notes (str_drop n (notes s)) s.

Section Parser.

Variable P : platform.

(** The loop over the modifiers that follow a note letter. *)
Fixpoint note_modifiers (fuel : nat) (dot_duration : Q) (s : state)
    : outcome state :=
  match fuel with
  | O => OutOfFuel
  | S fuel' =>
      let c := char_at (notes s) 0 in
      (* Duration *)
      if isdigit c then
        match stoi (notes s) with
        | Value (frac_duration, pos) =>
            let s := erase pos s in
            let s :=
              if (frac_duration >=? 1) && (frac_duration <=? 2000)
              then set_next_note_duration_s
                     (f32 (f64 (next_note_duration_s s
                                * f64 (4 / Z2Q frac_duration)))) s
              else s in
            note_modifiers fuel' dot_duration s
        | Raise e => Throw e
        end
      (* Dot *)
      else if is_char c "." then
        let dot_duration := f32 (dot_duration / 2) in
        let s := set_next_note_duration_s
                   (f32 (next_note_duration_s s + dot_duration)) s in
        note_modifiers fuel' dot_duration (erase 1 s)
      (* Octave *)
      else if is_char c ">" then
        note_modifiers fuel' dot_duration
          (erase 1 (set_next_note_freq (f32 (next_note_freq s * 2)) s))
      else if is_char c "<" then
        note_modifiers fuel' dot_duration
          (erase 1 (set_next_note_freq (f32 (next_note_freq s / 2)) s))
      (* Sharp/flat *)
      else if is_char c "#" || is_char c "+" || is_char c "-" then
        let s :=
          if is_char c "#" || is_char c "+"
          then set_next_note_freq
                 (f32 (f64 (next_note_freq s * semitone P))) s
          else set_next_note_freq
                 (f32 (f64 (next_note_freq s / semitone P))) s in
        note_modifiers fuel' dot_duration (erase 1 s)
      else Ok s
  end.

(** One round of [while (notes.length())], entered with [notes] not empty. *)
Definition parse_token (s : state) : outcome flow :=
  let c := char_at (notes s) 0 in
  if isspace c then Ok (Continue (erase 1 s))
  (* Octave *)
  else if is_char c "O" || is_char c "o" then
    let new_octave := char_code (char_at (notes s) 1) - 48 in
    let s := if (new_octave >=? 4) && (new_octave <=? 7)
             then set_octave new_octave s else s in
    Ok (Continue (erase 2 s))
  (* Tempo *)
  else if is_char c "T" || is_char c "t" then
    let s := erase 1 s in
    match stoi (notes s) with
    | Value (new_tempo, pos) =>
        let s := erase pos s in
        Ok (Continue (if (new_tempo >=? 40) && (new_tempo <=? 240)
                      then set_beats_per_minute new_tempo s else s))
    | Raise e => Throw e
    end
  (* Reset *)
  else if is_char c "!" then Ok (Continue (erase 1 (set_note_defaults s)))
  (* Volume *)
  else if is_char c "V" || is_char c "v" then
    let s := erase 1 s in
    match stoi (notes s) with
    | Value (new_volume, pos) =>
        let s := erase pos s in
        Ok (Continue (if (new_volume >=? 1) && (new_volume <=? 10)
                      then set_volume_notes new_volume s else s))
    | Raise e => Throw e
    end
  else
    (* Quarter note duration in seconds *)
    let s := set_next_note_duration_s (quarter_note (beats_per_minute s)) s in
    if is_note_letter c then
      let s := note_letter_switch c s in
      (* Adjust frequency for octave: [pow(2, octave - 4)] is the power of
         2 itself, a [double]; the product is a [double] *)
      let s := set_next_note_freq
                 (f32 (f64 (next_note_freq s * Qpower 2 (octave s - 4)))) s in
      let s := erase 1 s in
      let dot_duration := next_note_duration_s s in
      match note_modifiers (S (String.length (notes s))) dot_duration s with
      | Ok s => Ok (Break s)
      | Throw e => Throw e
      | OutOfFuel => OutOfFuel
      end
    (* X<>M<> format *)
    else if is_char c "X" || is_char c "x" then
      let s := erase 1 s in
      match stof P (notes s) with
      | Value (freq, x_pos) =>
          let s := set_next_note_freq freq s in
          let s := erase x_pos s in
          let s :=
            if negb (Qle_bool 20 (next_note_freq s)
                     && Qle_bool (next_note_freq s) 20000)
            then set_next_note_freq 0 s else s in
          let c := char_at (notes s) 0 in
          if is_char c "M" || is_char c "m" then
            let s := erase 1 s in
            match stof P (notes s) with
            | Value (ms, m_pos) =>
                let s := set_next_note_duration_s (f32 (f64 (ms / 1000))) s in
                Ok (Break (erase m_pos s))
            | Raise e => Throw e
            end
          else Ok (Break s)
      | Raise e => Throw e
      end
    else
      (* syntax error *)
      Ok (Break (set_notes "" s)).

Fixpoint parse_tokens (fuel : nat) (s : state) : outcome state :=
  match fuel with
  | O => OutOfFuel
  | S fuel' =>
      match notes s with
      | EmptyString => Ok s
      | String _ _ =>
          match parse_token s with
          | Ok (Continue s1) => parse_tokens fuel' s1
          | Ok (Break s1) => Ok s1
          | Throw e => Throw e
          | OutOfFuel => OutOfFuel
          end
      end
  end.

Definition parse_next_note (s : state) : outcome state :=
  match parse_tokens (S (String.length (notes s))) s with
  | Ok s1 => Ok (set_next_note_parsed true s1)
  | Throw e => Throw e
  | OutOfFuel => OutOfFuel
  end.

End Parser.

(* ------------------------------------------------------------------------ *)
(** ** The session controller *)

Definition start_i2s : M unit :=
  (r <- gets i2s_running ;;
   when (negb r) (call I2sStart ;; modify (set_i2s_running true)))%M.

Definition stop : M unit :=
  (r <- gets i2s_running ;;
   when r (call I2sStop ;; modify (set_i2s_running false)) ;;
   w <- gets wave_running ;;
   when w (modify (fun s => set_file (file_close (file s)) s) ;;
           modify (set_wave_running false)) ;;
   n <- gets notes_running ;;
   when n (modify (set_notes_running false) ;; modify (set_notes "")) ;;
   call I2sZeroDmaBuffer ;;
   modify reset_audio_buf)%M.

Definition last_char (s : string) : ascii :=
  char_at s (String.length s - 1).

Definition add_notes (new_notes : string) : M bool :=
  (* If WAVE is running, then stop it and reset the audio buffer. *)
  (w <- gets wave_running ;;
   when w stop ;;
   pending <- gets notes ;;
   if (MAX_NOTES_IN_BUFFER <? String.length pending
                              + String.length new_notes)%nat
   then ret false
   else
     (* Removing ending z *)
     when ((0 <? String.length pending)%nat && is_char (last_char pending) "z")
          (modify (fun s => set_notes (pop_back (notes s)) s)) ;;
     modify (fun s => set_notes (notes s ++ (new_notes ++ "z")) s) ;;
     modify (set_notes_running true) ;;
     r <- gets i2s_running ;;
     when (negb r) start_i2s ;;
     ret true)%M.

Definition byte_val (b : byte) : Z := Z.of_N (Byte.to_N b).

(** A sample of the buffer after one of its two bytes is overwritten
    (little-endian storage). *)
Definition set_byte_of_sample (old : Z) (high : bool) (b : Z) : Z :=
  let u := old mod 65536 in
  to_int16 (if high then u mod 256 + 256 * b else (u / 256) * 256 + b).

(** [file.read] into the buffer at sample [base] stores the bytes it reads,
    byte [k] into sample [base + k / 2]. *)
Fixpoint store_bytes (bs : list byte) (k base : Z) (buf : Z -> Z) : Z -> Z :=
  match bs with
  | [] => buf
  | b :: r =>
      let i := base + k / 2 in
      store_bytes r (k + 1) base
        (buf_set buf i (set_byte_of_sample (buf i) (Z.odd k) (byte_val b)))
  end.

(** [x * volume_wave / 10.0], assigned to an [int16_t]: the product is an
    [int], the quotient a [double]. *)
Definition scale_sample (x volume : Z) : Z :=
  to_int16 (Qtrunc (f64 (Z2Q (x * volume) / 10))).

(** Body of the loop that swaps even and odd samples and applies volume;
    round [j] has [i = 2 * j]. *)
Definition swap_pair (j : Z) (s : state) : state :=
  let i := 2 * j in
  let e := audio_buf_empty_idx s in
  let temp := audio_buf s (e + i) in
  let s := set_audio_buf
             (buf_set (audio_buf s) (e + i)
                (scale_sample (audio_buf s (e + i + 1)) (volume_wave s))) s in
  set_audio_buf
    (buf_set (audio_buf s) (e + i + 1) (scale_sample temp (volume_wave s))) s.

(** The wave branch of [loop], when the file has bytes and fewer than
    [WAVE_FRAMES_TO_BUFFER] frames are buffered. *)
Definition read_wave_frame (s : state) : state :=
  let bytes_to_read := FRAME_SIZE * BYTES_PER_SAMPLE in
  let '(bytes_read, bs, f) := file_read (Z.to_nat bytes_to_read) (file s) in
  let s := set_file f s in
  let s := set_audio_buf
             (store_bytes bs 0 (audio_buf_empty_idx s) (audio_buf s)) s in
  if bytes_read =? bytes_to_read then
    let s := for_loop (Z.to_nat (FRAME_SIZE / 2)) 0 swap_pair s in
    let s := set_audio_buf_empty_idx
               (Z.rem (audio_buf_empty_idx s + FRAME_SIZE) AUDIO_BUF_LEN) s in
    set_audio_buf_num_populated_frames
      (audio_buf_num_populated_frames s + 1) s
  else s.

Definition set_wave_volume (new_volume : Z) (s : state) : state :=
  let v := new_volume mod 256 in
  set_volume_wave (if v >? 10 then 10 else v) s.

Definition is_playing (s : state) : bool := i2s_running s.

Definition is_empty (s : string) : bool :=
  match s with EmptyString => true | String _ _ => false end.

(** Little-endian integer at offset [i] of a byte sequence. *)
Definition le16 (bs : list byte) (i : nat) : Z :=
  byte_val (nth i bs x00) + 256 * byte_val (nth (i + 1) bs x00).

Definition le32 (bs : list byte) (i : nat) : Z :=
  le16 bs i + 65536 * le16 bs (i + 2).

Section Session.

Variable P : platform.

Definition loop : M unit :=
  (nr <- gets notes_running ;;
   if nr then
     (* Parse the next note *)
     pending <- gets notes ;;
     parsed <- gets next_note_parsed ;;
     when (negb (is_empty pending) && negb parsed)
          (lift (parse_next_note P)) ;;
     (* Play the next note *)
     parsed <- gets next_note_parsed ;;
     when parsed (modify (write_next_note_to_audio_buf P)) ;;
     (* Check if we should stop playing *)
     pending <- gets notes ;;
     parsed <- gets next_note_parsed ;;
     n <- gets audio_buf_num_populated_frames ;;
     r <- gets i2s_running ;;
     when (is_empty pending && negb parsed && (n =? 0) && r) stop
   else
     wr <- gets wave_running ;;
     when wr
       (f <- gets file ;;
        n <- gets audio_buf_num_populated_frames ;;
        if file_available f && (n <? WAVE_FRAMES_TO_BUFFER)
        then modify read_wave_frame
        else when (n <=? 0) stop))%M.

Definition play_sound_file (filename : string) : M bool :=
  (* Whether notes or wave is running, stop it *)
  (stop ;;
   (* Read the WAVE file header *)
   modify (set_file (SD_open P filename)) ;;
   f <- gets file ;;
   let '(bytes_read, header, f1) := file_read 44 f in
   modify (set_file f1) ;;
   if negb (bytes_read =? 44) then
     modify (fun s => set_file (file_close (file s)) s) ;; ret false
   else
     let num_channels := le16 header 22 in
     if negb (num_channels =? 1) then
       modify (fun s => set_file (file_close (file s)) s) ;; ret false
     else
       let sample_rate := le32 header 24 in
       if negb (sample_rate =? SAMPLE_RATE) then
         modify (fun s => set_file (file_close (file s)) s) ;; ret false
       else
         start_i2s ;;
         modify (set_wave_running true) ;;
         ret true)%M.

End Session.

(** The static variables before [setup]: zero-initialised. *)
Definition boot_state : state :=
  mkState 0 (fun _ => 0) 0 0 false false false "" 0 0 0 false 0%Q 0%Q
          invalid_file 0.

(** [setup]; [driver_ok] tells whether the installation of the I2S driver
    and of its pins succeeded. *)
Definition setup (driver_ok : bool) (s : state) : state :=
  let s := reset_audio_buf s in
  let s := set_note_defaults s in
  let s := set_i2s_running false s in
  let s := set_notes_running false s in
  let s := set_wave_running false s in
  let s := set_volume_wave 5 s in
  if driver_ok then set_i2s_running true s else s.

(* ------------------------------------------------------------------------ *)
(** ** Runs of the module *)

(** What can happen to the module after [setup]: a call of one of its public
    functions, or a transmit-done event served by the output task. *)
Inductive op : Type :=
| Op_add_notes (new_notes : string)
| Op_loop
| Op_set_wave_volume (new_volume : Z)
| Op_stop
| Op_play_sound_file (filename : string)
| Op_TXdone.

Definition ignore {A} (m : M A) : M unit := bind m (fun _ => ret tt).

Definition run_op (P : platform) (o : op) : M unit :=
  match o with
  | Op_add_notes new_notes => ignore (add_notes new_notes)
  | Op_loop => loop P
  | Op_set_wave_volume v => modify (set_wave_volume v)
  | Op_stop => stop
  | Op_play_sound_file filename => ignore (play_sound_file P filename)
  | Op_TXdone => I2Sout_TXdone
  end.

Inductive reachable (P : platform) : state -> Prop :=
| reach_setup : forall driver_ok, reachable P (setup driver_ok boot_state)
| reach_op : forall s o s' out,
    reachable P s -> run_op P o s = Ok (tt, s', out) -> reachable P s'.

(** The session is idle: neither notes nor a wave file is played. *)
Definition idle (s : state) : Prop :=
  notes_running s = false /\ wave_running s = false.

(* ------------------------------------------------------------------------ *)
(** ** A platform to run the model on *)

(** [std::stof] on the decimal literals without exponent: white space, an
    optional sign, digits with an optional fractional part; the result is
    the [float] nearest to the number written. *)
Definition stof_decimal (s : string) : result (Q * nat) :=
  let s1 := skip_space s in
  let nspace := (String.length s - String.length s1)%nat in
  let '(neg, s2, nsign) :=
    match s1 with
    | String c r =>
        if is_char c "-" then (true, r, 1%nat)
        else if is_char c "+" then (false, r, 1%nat)
        else (false, s1, 0%nat)
    | EmptyString => (false, s1, 0%nat)
    end in
  let ip := leading_digits s2 in
  let s3 := str_drop (List.length ip) s2 in
  let '(fp, ndot) :=
    match s3 with
    | String c r => if is_char c "." then (leading_digits r, 1%nat)
                    else ([], 0%nat)
    | EmptyString => ([], 0%nat)
    end in
  match ip ++ fp with
  | [] => Raise invalid_argument
  | _ :: _ =>
      let v := (Z2Q (decimal_value (ip ++ fp))
                / Z2Q (10 ^ Z.of_nat (List.length fp)))%Q in
      Value (f32 (if neg then (- v)%Q else v),
          (nspace + nsign + List.length ip + ndot + List.length fp)%nat)
  end.

(** A 44-byte WAVE header declaring [channels] and [rate]; the other fields
    are left zero. *)
Definition byte_of_Z (z : Z) : byte :=
  match Byte.of_N (Z.to_N (z mod 256)) with Some b => b | None => x00 end.

Definition wave_header (channels rate : Z) : list byte :=
  repeat x00 22
  ++ [byte_of_Z channels; byte_of_Z (channels / 256)]
  ++ [byte_of_Z rate; byte_of_Z (rate / 256); byte_of_Z (rate / 65536);
      byte_of_Z (rate / 16777216)]
  ++ repeat x00 16.

Definition example_sd_card (filename : string) : option (list byte) :=
  if String.eqb filename "mono.wav"
  then Some (wave_header 1 16000 ++ repeat x01 4096)
  else if String.eqb filename "stereo.wav"
  then Some (wave_header 2 16000 ++ repeat x01 4096)
  else if String.eqb filename "cd.wav"
  then Some (wave_header 1 44100 ++ repeat x01 4096)
  else None.

(** A sine by its Taylor polynomial of degree 5, and the [double] nearest
    to the twelfth root of 2. *)
Definition example_platform : platform :=
  mkPlatform stof_decimal
    (fun x => f64 (x - x * x * x / 6 + x * x * x * x * x / 120))
    (f64 (10594630943592953 # 10000000000000000))
    example_sd_card.

(** The state after [setup] succeeded. *)
Definition ready : state := setup true boot_state.

(* ======================================================================== *)
(** * Vocabulary of the properties *)

(** The samples accounted for: the counted frames, and the samples of the
    frame the write cursor is in. *)
Definition fill (s : state) : Z :=
  audio_buf_num_populated_frames s * FRAME_SIZE
  + audio_buf_empty_idx s mod FRAME_SIZE.

(** The write cursor is an index of the buffer. *)
Definition cursor_ok (s : state) : Prop :=
  0 <= audio_buf_empty_idx s < AUDIO_BUF_LEN.

(** [s'] differs from [s] in the buffer, the write cursor and the frame
    count at most. *)
Definition ring_write_only (s s' : state) : Prop :=
  audio_buf_frame_idx_to_send s' = audio_buf_frame_idx_to_send s
  /\ i2s_running s' = i2s_running s
  /\ notes_running s' = notes_running s
  /\ wave_running s' = wave_running s
  /\ notes s' = notes s
  /\ beats_per_minute s' = beats_per_minute s
  /\ octave s' = octave s
  /\ volume_notes s' = volume_notes s
  /\ next_note_parsed s' = next_note_parsed s
  /\ next_note_freq s' = next_note_freq s
  /\ next_note_duration_s s' = next_note_duration_s s
  /\ file s' = file s
  /\ volume_wave s' = volume_wave s.

(** The variables after [stop]. *)
Definition stopped (s : state) : state :=
  mkState 0 (audio_buf s) 0 0 false false false ""
    (beats_per_minute s) (octave s) (volume_notes s) false
    (next_note_freq s) (next_note_duration_s s)
    (if wave_running s then file_close (file s) else file s)
    (volume_wave s).

(** The driver calls of [stop]. *)
Definition stop_calls (s : state) : list i2s_call :=
  (if i2s_running s then [I2sStop] else []) ++ [I2sZeroDmaBuffer].

(** The variables after a transmit-done event was served with a frame. *)
Definition frame_sent (s : state) : state :=
  set_audio_buf_num_populated_frames (audio_buf_num_populated_frames s - 1)
    (set_audio_buf_frame_idx_to_send
       (Z.rem (audio_buf_frame_idx_to_send s + 1) AUDIO_BUF_NUM_FRAMES) s).

(** [s'] differs from [s] in the variables of the note player at most. *)
Definition player_only (s s' : state) : Prop :=
  audio_buf_num_populated_frames s' = audio_buf_num_populated_frames s
  /\ audio_buf s' = audio_buf s
  /\ audio_buf_frame_idx_to_send s' = audio_buf_frame_idx_to_send s
  /\ audio_buf_empty_idx s' = audio_buf_empty_idx s
  /\ i2s_running s' = i2s_running s
  /\ notes_running s' = notes_running s
  /\ wave_running s' = wave_running s
  /\ file s' = file s
  /\ volume_wave s' = volume_wave s.

(** [s'] is [s] with player variables other than the pending text updated. *)
Definition retuned (s s' : state) : Prop :=
  player_only s s' /\ notes s' = notes s.

(** [s'] is [s] with part of the pending text consumed and player variables
    updated. *)
Definition consumed (s s' : state) : Prop :=
  player_only s s'
  /\ (String.length (notes s') < String.length (notes s))%nat.

(** The text [add_notes] stores: the pending text without its final [z],
    the new notes, and a final [z]. *)
Definition appended (pending new_notes : string) : string :=
  ((if (0 <? String.length pending)%nat && is_char (last_char pending) "z"
    then pop_back pending else pending) ++ (new_notes ++ "z"))%string.

(** The parse step of [loop] in notes mode. *)
Definition loop_parse (P : platform) (s : state) : outcome state :=
  if negb (is_empty (notes s)) && negb (next_note_parsed s)
  then parse_next_note P s else Ok s.

(** The render step of [loop] in notes mode. *)
Definition loop_render (P : platform) (s : state) : state :=
  if next_note_parsed s then write_next_note_to_audio_buf P s else s.

(** The test of [loop] for the end of the notes. *)
Definition playback_over (s : state) : bool :=
  is_empty (notes s) && negb (next_note_parsed s)
  && (audio_buf_num_populated_frames s =? 0) && i2s_running s.

(** The header [play_sound_file] reads is accepted. *)
Definition header_ok (bytes_read : Z) (header : list byte) : bool :=
  (bytes_read =? 44) && (le16 header 22 =? 1)
  && (le32 header 24 =? SAMPLE_RATE).

(** What holds of the variables between the calls: the frame count and the
    cursors are in range, a file is open only while a wave file is played,
    and then no notes are played or pending. *)
Definition module_inv (s : state) : Prop :=
  (-1 <= audio_buf_num_populated_frames s <= AUDIO_BUF_NUM_FRAMES - 1)
  /\ (0 <= audio_buf_frame_idx_to_send s < AUDIO_BUF_NUM_FRAMES)
  /\ cursor_ok s
  /\ (f_open (file s) = true -> wave_running s = true)
  /\ (wave_running s = true ->
      notes_running s = false /\ notes s = EmptyString).

(** The producer and the output task, sample by sample.  A configuration is
    the variables and the number of samples the render under way has still
    to write.  A render begins when the capacity test of
    [write_next_note_to_audio_buf] passes, a wave frame is read when the
    test of [loop] passes, and a transmit-done event may be served between
    any two samples. *)
Inductive ring_step : state * nat -> state * nat -> Prop :=
| step_begin_render : forall s,
    avail_space s > samples_of (next_note_duration_s s) ->
    ring_step (s, O) (s, Z.to_nat (samples_of (next_note_duration_s s)))
| step_sample : forall s val r,
    ring_step (s, S r) (put_sample val s, r)
| step_wave_frame : forall s,
    audio_buf_num_populated_frames s < WAVE_FRAMES_TO_BUFFER ->
    ring_step (s, O) (read_wave_frame s, O)
| step_TXdone : forall s r s' out,
    I2Sout_TXdone s = Ok (tt, s', out) ->
    ring_step (s, r) (s', r).

(** Finite sequences of steps. *)
Inductive ring_run : state * nat -> state * nat -> Prop :=
| run_done : forall c, ring_run c c
| run_step : forall c1 c2 c3,
    ring_step c1 c2 -> ring_run c2 c3 -> ring_run c1 c3.

(** What the steps keep: the samples accounted for and those still to be
    written fit the buffer. *)
Definition ring_inv (c : state * nat) : Prop :=
  cursor_ok (fst c)
  /\ -1 <= audio_buf_num_populated_frames (fst c)
  /\ fill (fst c) + Z.of_nat (snd c) < AUDIO_BUF_LEN.

(** The text of [n] characters [c]. *)
Fixpoint repeat_char (c : ascii) (n : nat) : string :=
  match n with
  | O => EmptyString
  | S m => String c (repeat_char c m)
  end.

(** The state after [play_sound_file("mono.wav")] on the example platform:
    the wave file is being played. *)
Definition wave_playing : state :=
  match play_sound_file example_platform "mono.wav" ready with
  | Ok (_, s, _) => s
  | _ => ready
  end.

(** The state after 3998 notes were submitted: 3999 characters pending. *)
Definition nearly_full : state :=
  match add_notes (repeat_char "C" 3998) ready with
  | Ok (_, s, _) => s
  | _ => ready
  end.

(** The amplitude as the specification words it: in the middle band the
    doubled value, scaled from 0 at 800 Hz to 1 at 1100 Hz. *)
Definition amplitude_as_specified (v : Z) (f : Q) : Q :=
  let base := (16000 * (Z2Q v / 10))%Q in
  if Qltb f 800 then (2 * base)%Q
  else if Qltb f 1100 then (2 * base * ((f - 800) / 300))%Q
  else base.

(** Sample [k] of the parsed note of [s], as
    [write_next_note_to_audio_buf] has it computed: 0 for a rest, the sample
    of [generate_sine_wave] for a tone. *)
Definition note_sample (P : platform) (s : state) (k : Z) : Z :=
  if Qeq_bool (next_note_freq s) 0 then 0
  else sine_sample P (next_note_freq s)
         (Z2Q (note_amplitude (volume_notes s) (next_note_freq s)))
         (samples_of (next_note_duration_s s)) k.

(** A parsed note of one millisecond, 16 samples, in the state after
    [setup]. *)
Definition short_note : state :=
  set_next_note_parsed true
    (set_next_note_duration_s (float_literal (1 # 1000))
       (set_next_note_freq 440 ready)).

(** A text of [k] dots. *)
Fixpoint dots (k : nat) : string :=
  match k with
  | O => EmptyString
  | S j => String "." (dots j)
  end.

(** The characters that continue the modifier loop. *)
Definition is_modifier (c : ascii) : bool :=
  isdigit c || is_char c "." || is_char c ">" || is_char c "<"
  || (is_char c "#" || is_char c "+" || is_char c "-").

(** The variables when the modifier loop is entered: the quarter-note
    duration and the frequency of the letter are set, the letter is
    erased. *)
Definition after_letter (c : ascii) (s : state) : state :=
  let s := set_next_note_duration_s (quarter_note (beats_per_minute s)) s in
  let s := note_letter_switch c s in
  let s := set_next_note_freq
             (f32 (f64 (next_note_freq s * Qpower 2 (octave s - 4)))) s in
  erase 1 s.

(** The duration a note letter starts from. *)
Definition base_duration (c : ascii) (bpm : Z) : Q :=
  if is_char c "z" then float_literal (2 # 10) else quarter_note bpm.

(** The text pending after [add_notes(text)] in the state after [setup]. *)
Definition submitted (text : string) : state :=
  match add_notes text ready with
  | Ok (_, s, _) => s
  | _ => ready
  end.

(** The state after [add_notes("X440M6336")] and one [loop]: a note of
    6.336 s, 101376 samples, is parsed and pending, and the buffer is
    empty. *)
Definition long_note_pending : state :=
  match loop example_platform (submitted "X440M6336") with
  | Ok (_, s, _) => s
  | _ => ready
  end.

(** The duration [d] after [k] dots, as the code adds them: each dot lasts
    half the dot before, the first one half of [dot], and the dots and the
    sums are [float]s. *)
Fixpoint dotted (k : nat) (d dot : Q) : Q :=
  match k with
  | O => d
  | S j => dotted j (f32 (d + f32 (dot / 2))) (f32 (dot / 2))
  end.

(** The dotted duration as the specification writes the formula. *)
Definition dotted_as_specified (d : Q) (k : nat) : Q :=
  (d * (2 - Qpower 2 (1 - Z.of_nat k)))%Q.

(** The state [parse_next_note] returns, for the examples. *)
Definition parsed (P : platform) (s : state) : state :=
  match parse_next_note P s with
  | Ok s' => s'
  | _ => s
  end.

(* ------------------------------------------------------------------------ *)
(** ** Vocabulary of the further properties *)

(** The write cursor is in the frame that comes
    [audio_buf_num_populated_frames] frames after the frame to send, around
    the ring. *)
Definition ring_linked (s : state) : Prop :=
  (audio_buf_empty_idx s / FRAME_SIZE
   - audio_buf_num_populated_frames s
   - audio_buf_frame_idx_to_send s) mod AUDIO_BUF_NUM_FRAMES = 0.

(** The settings of the player are within the ranges its commands accept. *)
Definition knobs_ok (s : state) : Prop :=
  40 <= beats_per_minute s <= 240
  /\ 4 <= octave s <= 7
  /\ 1 <= volume_notes s <= 10
  /\ 0 <= volume_wave s <= 10.

(** The pending text of [s'] is the pending text of [s] without some of
    its first characters. *)
Definition text_consumed (s s' : state) : Prop :=
  exists k, notes s' = str_drop k (notes s).

(** While a wave file is played at most [WAVE_FRAMES_TO_BUFFER] frames are
    buffered and the write cursor is at the start of a frame. *)
Definition wave_depth_ok (s : state) : Prop :=
  wave_running s = true ->
  audio_buf_num_populated_frames s <= WAVE_FRAMES_TO_BUFFER
  /\ audio_buf_empty_idx s mod FRAME_SIZE = 0.

(** The further facts that hold between the calls. *)
Definition module_inv_ext (s : state) : Prop :=
  ring_linked s
  /\ knobs_ok s
  /\ (String.length (notes s) <= S MAX_NOTES_IN_BUFFER)%nat
  /\ wave_depth_ok s.

(** The state after [add_notes("R32")] and one [loop]: the rest of 1000
    samples is rendered, the final [z] is pending. *)
Definition rest_rendered : state :=
  match loop example_platform (submitted "R32") with
  | Ok (_, s, _) => s
  | _ => ready
  end.

(** The state after 4000 notes were submitted at once. *)
Definition brim_full : state := submitted (repeat_char "C" 4000).

(** The driver after a sequence of calls, started or halted, when it is
    [running] before; [None] when the sequence starts a started driver or
    stops a halted one. *)
Fixpoint driver_after (running : bool) (calls : list i2s_call)
    : option bool :=
  match calls with
  | [] => Some running
  | I2sStart :: r => if running then None else driver_after true r
  | I2sStop :: r => if running then driver_after false r else None
  | _ :: r => driver_after running r
  end.

(** A sequence of calls and events, one after the other. *)
Fixpoint run_ops (P : platform) (ops : list op) : M unit :=
  match ops with
  | [] => ret tt
  | o :: r => bind (run_op P o) (fun _ => run_ops P r)
  end.

(** The state after [add_notes("")], one [loop] that renders the final
    rest of 3200 samples, and four transmit-done events. *)
Definition drained_below_zero : state :=
  match run_ops example_platform
          [Op_add_notes ""; Op_loop; Op_TXdone; Op_TXdone; Op_TXdone;
           Op_TXdone] ready with
  | Ok (_, s, _) => s
  | _ => ready
  end.

(** The characters the token loop knows: white space, a command, a note
    letter or [X]. *)
Definition is_token_start (c : ascii) : bool :=
  isspace c
  || (is_char c "O" || is_char c "o")
  || (is_char c "T" || is_char c "t")
  || is_char c "!"
  || (is_char c "V" || is_char c "v")
  || is_note_letter c
  || (is_char c "X" || is_char c "x").

(** The variables after a syntax error: the quarter-note duration is set,
    the pending text is dropped, the flag is set. *)
Definition after_syntax_error (s : state) : state :=
  set_next_note_parsed true
    (set_notes ""
       (set_next_note_duration_s (quarter_note (beats_per_minute s)) s)).

(** Every character of the text is a decimal digit. *)
Fixpoint all_digits (x : string) : bool :=
  match x with
  | EmptyString => true
  | String c r => isdigit c && all_digits r
  end.

(** The number a text of digits writes. *)
Definition number_of (x : string) : Z := decimal_value (leading_digits x).

(** The tempo after the command [T] with the number [n]. *)
Definition tempo_after (n : Z) (s : state) : Z :=
  if (n >=? 40) && (n <=? 240) then n else beats_per_minute s.

(** The octave after the command [O] followed by the character [d]. *)
Definition octave_after (d : ascii) (s : state) : Z :=
  let o := char_code d - 48 in
  if (o >=? 4) && (o <=? 7) then o else octave s.

(** The notes volume after the command [V] with the number [n]. *)
Definition volume_after (n : Z) (s : state) : Z :=
  if (n >=? 1) && (n <=? 10) then n else volume_notes s.

(** The duration after a duration-fraction modifier with the number [n]. *)
Definition fraction_of (n : Z) (d : Q) : Q :=
  if (n >=? 1) && (n <=? 2000) then f32 (f64 (d * f64 (4 / Z2Q n))) else d.

(** The modifiers of a note other than the duration fraction. *)
Inductive modifier : Type :=
| Dot          (* . *)
| OctaveUp     (* > *)
| OctaveDown   (* < *)
| Sharp        (* # *)
| Plus         (* + *)
| Flat.        (* - *)

Definition modifier_char (m : modifier) : ascii :=
  match m with
  | Dot => "."
  | OctaveUp => ">"
  | OctaveDown => "<"
  | Sharp => "#"
  | Plus => "+"
  | Flat => "-"
  end.

(** The text that writes a sequence of modifiers. *)
Fixpoint modifiers_text (ms : list modifier) : string :=
  match ms with
  | [] => EmptyString
  | m :: r => String (modifier_char m) (modifiers_text r)
  end.

(** A note while its modifiers are read: frequency, duration, and the
    length of the last dot. *)
Record tone : Type := mkTone {
  tone_freq : Q;
  tone_duration : Q;
  tone_dot : Q
}.

(** What a modifier means; [st] is the ratio of a semitone, a [double],
    and the three fields are [float]s. *)
Definition modify_tone (st : Q) (t : tone) (m : modifier) : tone :=
  match m with
  | Dot => mkTone (tone_freq t)
                  (f32 (tone_duration t + f32 (tone_dot t / 2)))
                  (f32 (tone_dot t / 2))
  | OctaveUp => mkTone (f32 (tone_freq t * 2)) (tone_duration t) (tone_dot t)
  | OctaveDown =>
      mkTone (f32 (tone_freq t / 2)) (tone_duration t) (tone_dot t)
  | Sharp | Plus =>
      mkTone (f32 (f64 (tone_freq t * st))) (tone_duration t) (tone_dot t)
  | Flat =>
      mkTone (f32 (f64 (tone_freq t / st))) (tone_duration t) (tone_dot t)
  end.

(** The note a letter starts from, in the variables [s]. *)
Definition letter_tone (c : ascii) (s : state) : tone :=
  mkTone (next_note_freq (after_letter c s))
         (base_duration c (beats_per_minute s))
         (base_duration c (beats_per_minute s)).

(** How many dots, octaves up less octaves down, and semitones up less
    semitones down a sequence of modifiers holds. *)
Fixpoint dot_count (ms : list modifier) : nat :=
  match ms with
  | [] => O
  | Dot :: r => S (dot_count r)
  | _ :: r => dot_count r
  end.

Fixpoint octave_shift (ms : list modifier) : Z :=
  match ms with
  | [] => 0
  | OctaveUp :: r => 1 + octave_shift r
  | OctaveDown :: r => -1 + octave_shift r
  | _ :: r => octave_shift r
  end.

Fixpoint semitone_shift (ms : list modifier) : Z :=
  match ms with
  | [] => 0
  | (Sharp | Plus) :: r => 1 + semitone_shift r
  | Flat :: r => -1 + semitone_shift r
  | _ :: r => semitone_shift r
  end.

(** The frequency [f] after the semitone shifts of [ms], the other
    modifiers left out: each shift multiplies or divides by the ratio [st]
    in double precision and stores a [float]. *)
Fixpoint semitones (st : Q) (ms : list modifier) (f : Q) : Q :=
  match ms with
  | [] => f
  | (Sharp | Plus) :: r => semitones st r (f32 (f64 (f * st)))
  | Flat :: r => semitones st r (f32 (f64 (f / st)))
  | _ :: r => semitones st r f
  end.

(** The frequency an explicit-frequency note resolves to. *)
Definition audible (f : Q) : Q :=
  if negb (Qle_bool 20 f && Qle_bool f 20000) then 0%Q else f.

(** The values that are rounded to a [float] as the definitions have it: 0
    and the magnitudes of the normal range of [float]. *)
Definition float_normal (q : Q) : Prop :=
  (q == 0 \/ (Qpower 2 (-126) <= Qabs q /\ Qabs q <= Qpower 2 127))%Q.

(** A parsed rest of 1000 samples (a thirty-second note at 120 beats per
    minute) in the state after [setup]. *)
Definition rest_pending : state :=
  set_next_note_parsed true
    (set_next_note_duration_s (1 # 16) (set_next_note_freq 0 ready)).

(** A parsed tone of 1000 samples at 440 Hz in the state after [setup]. *)
Definition tone_pending : state :=
  set_next_note_parsed true
    (set_next_note_duration_s (1 # 16) (set_next_note_freq 440 ready)).

(** A sine that stays within [-1, 1], as the sine of [<math.h>] does: the
    polynomial of [example_platform], cut off at the two bounds. *)
Definition clamped_sin (x : Q) : Q :=
  let y := sin example_platform x in
  if Qle_bool 1 y then 1%Q else if Qle_bool y (-1) then (-1)%Q else y.

Definition bounded_platform : platform :=
  mkPlatform (stof example_platform) clamped_sin
    (semitone example_platform) (sd_card example_platform).

(** Sample [n] of a byte sequence: 16 bits, little-endian, signed. *)
Definition file_sample (bs : list byte) (n : Z) : Z :=
  to_int16 (le16 bs (Z.to_nat (2 * n))).

(** The sample that shares a pair of the buffer with the sample at [x],
    the pairs being counted from [e]. *)
Definition pair_mate (e x : Z) : Z :=
  if Z.even (x - e) then x + 1 else x - 1.

(** The state after [add_notes("")] and one [loop]: the final rest of 3200
    samples is rendered, three frames are counted. *)
Definition final_rest_rendered : state :=
  match loop example_platform (submitted "") with
  | Ok (_, s, _) => s
  | _ => ready
  end.

(* ======================================================================== *)
(** * Properties *)

(* ------------------------------------------------------------------------ *)
(** ** Floating-point rounding *)

Lemma Qpow2_pos e : (0 < 2 ^ e)%Q.
Proof. apply Qpower_0_lt. reflexivity. Qed.

Lemma Qpow2_plus a b : (2 ^ (a + b) == 2 ^ a * 2 ^ b)%Q.
Proof. apply Qpower_plus. discriminate. Qed.

Lemma Qpow2_minus a b : (2 ^ (a - b) == 2 ^ a / 2 ^ b)%Q.
Proof. apply Qpower_minus. discriminate. Qed.

Lemma Qpow2_succ a : (2 ^ (a + 1) == 2 * 2 ^ a)%Q.
Proof. rewrite Qpow2_plus. change (2 ^ 1)%Q with 2%Q. ring. Qed.

Lemma Qpow2_cancel a : (2 ^ a * 2 ^ (- a) == 1)%Q.
Proof.
  rewrite <- Qpow2_plus. rewrite Z.add_opp_diag_r. reflexivity.
Qed.

Lemma Qpow2_inject a : 0 <= a -> (2 ^ a == inject_Z (2 ^ a))%Q.
Proof. intros H. rewrite (Zpower_Qpower 2 a H). reflexivity. Qed.

Lemma Qpow2_le a b : a <= b -> (2 ^ a <= 2 ^ b)%Q.
Proof. intros H. apply Qpower_le_compat_l; [exact H|discriminate]. Qed.

Lemma Qpow2_lt a b : a < b -> (2 ^ a < 2 ^ b)%Q.
Proof. intros H. apply Qpower_lt_compat_l; [exact H|reflexivity]. Qed.

Lemma Qpow2_lt_inv a b : (2 ^ a < 2 ^ b)%Q -> a < b.
Proof. intros H. apply (Qpower_lt_compat_l_inv 2); [exact H|reflexivity]. Qed.

Lemma Qlog2_spec q :
  (0 < q)%Q -> (2 ^ Qlog2 q <= q)%Q /\ (q < 2 ^ (Qlog2 q + 1))%Q.
Proof.
  destruct q as [n d]. intros Hq.
  assert (Hn : 0 < n) by (unfold Qlt in Hq; cbn in Hq; lia).
  unfold Qlog2. cbn [Qnum Qden].
  set (ln := Z.log2 n). set (ld := Z.log2 (Z.pos d)).
  destruct (Z.log2_spec n Hn) as [N1 N2]. fold ln in N1, N2.
  destruct (Z.log2_spec (Z.pos d) ltac:(lia)) as [D1 D2]. fold ld in D1, D2.
  assert (Ln : 0 <= ln) by apply Z.log2_nonneg.
  assert (Ld : 0 <= ld) by apply Z.log2_nonneg.
  assert (Q : (n # d == inject_Z n / inject_Z (Z.pos d))%Q).
  { rewrite (Qmake_Qdiv n d). reflexivity. }
  assert (Dp : (0 < inject_Z (Z.pos d))%Q) by reflexivity.
  assert (QN1 : (2 ^ ln <= inject_Z n)%Q).
  { rewrite Qpow2_inject by exact Ln. rewrite <- Zle_Qle. exact N1. }
  assert (QN2 : (inject_Z n < 2 ^ (ln + 1))%Q).
  { rewrite Qpow2_inject by lia. rewrite <- Zlt_Qlt. replace (ln + 1) with (Z.succ ln) by lia. exact N2. }
  assert (QD1 : (2 ^ ld <= inject_Z (Z.pos d))%Q).
  { rewrite Qpow2_inject by exact Ld. rewrite <- Zle_Qle. exact D1. }
  assert (QD2 : (inject_Z (Z.pos d) < 2 ^ (ld + 1))%Q).
  { rewrite Qpow2_inject by lia. rewrite <- Zlt_Qlt. replace (ld + 1) with (Z.succ ld) by lia. exact D2. }
  pose proof (Qpow2_pos ld) as Pd. pose proof (Qpow2_pos ln) as Pn.
  destruct (Qle_bool (2 ^ (ln - ld)) (n # d)) eqn:E.
  - apply Qle_bool_iff in E. split; [exact E|].
    rewrite Q. apply Qlt_shift_div_r; [exact Dp|].
    replace (ln - ld + 1) with ((ln + 1) - ld) by lia.
    rewrite Qpow2_minus.
    apply Qlt_le_trans with (2 ^ (ln + 1))%Q; [exact QN2|].
    assert (H : (2 ^ (ln + 1) == 2 ^ (ln + 1) / 2 ^ ld * 2 ^ ld)%Q)
      by (field; apply Qpower_not_0; discriminate).
    rewrite H at 1. apply Qmult_le_l.
    + apply Qlt_shift_div_l; [exact Pd|]. rewrite Qmult_0_l. apply Qpow2_pos.
    + exact QD1.
  - assert (E' : (n # d < 2 ^ (ln - ld))%Q).
    { apply Qnot_le_lt. intros L. apply Qle_bool_iff in L. congruence. }
    split.
    + rewrite Q. apply Qle_shift_div_l; [exact Dp|].
      replace (ln - ld - 1) with (ln - (ld + 1)) by lia.
      rewrite Qpow2_minus.
      apply Qle_trans with (2 ^ ln)%Q; [|exact QN1].
      assert (H : (2 ^ ln == 2 ^ ln / 2 ^ (ld + 1) * 2 ^ (ld + 1))%Q)
        by (field; apply Qpower_not_0; discriminate).
      rewrite H at 2. apply Qmult_le_l.
      * apply Qlt_shift_div_l; [apply Qpow2_pos|]. rewrite Qmult_0_l. apply Qpow2_pos.
      * apply Qlt_le_weak. exact QD2.
    + replace (ln - ld - 1 + 1) with (ln - ld) by lia. exact E'.
Qed.

Lemma Qlog2_unique q L :
  (2 ^ L <= q)%Q -> (q < 2 ^ (L + 1))%Q -> Qlog2 q = L.
Proof.
  intros H1 H2.
  assert (Hq : (0 < q)%Q).
  { apply Qlt_le_trans with (2 ^ L)%Q; [apply Qpow2_pos|exact H1]. }
  destruct (Qlog2_spec q Hq) as [S1 S2].
  assert (A : L < Qlog2 q + 1).
  { apply Qpow2_lt_inv. eapply Qle_lt_trans; eassumption. }
  assert (B : Qlog2 q < L + 1).
  { apply Qpow2_lt_inv. eapply Qle_lt_trans; eassumption. }
  lia.
Qed.

Lemma Qfloor_bounds q :
  (inject_Z (Qfloor q) <= q)%Q /\ (q < inject_Z (Qfloor q) + 1)%Q.
Proof.
  split; [apply Qfloor_le|].
  pose proof (Qlt_floor q) as H. rewrite inject_Z_plus in H. exact H.
Qed.

Lemma rne_cases q :
  let f := Qfloor q in
  (rne q = f /\ (q - inject_Z f <= 1 # 2)%Q)
  \/ (rne q = f + 1 /\ (1 # 2 <= q - inject_Z f)%Q).
Proof.
  cbv zeta. unfold rne.
  destruct (Qcompare_spec (q - inject_Z (Qfloor q)) (1 # 2)) as [E|L|G].
  - destruct (Z.even (Qfloor q)); [left|right]; split; try reflexivity;
      rewrite E; apply Qle_refl.
  - left. split; [reflexivity|apply Qlt_le_weak; exact L].
  - right. split; [reflexivity|apply Qlt_le_weak; exact G].
Qed.

(** Rounding to the nearest integer is off by a half at most. *)
Lemma rne_error q :
  (inject_Z (rne q) - q <= 1 # 2)%Q /\ (q - inject_Z (rne q) <= 1 # 2)%Q.
Proof.
  destruct (Qfloor_bounds q) as [F1 F2].
  destruct (rne_cases q) as [[-> H]|[-> H]].
  - split; lra.
  - rewrite inject_Z_plus. change (inject_Z 1) with 1%Q. split; lra.
Qed.

Lemma rne_mono p q : (p <= q)%Q -> rne p <= rne q.
Proof.
  intros H.
  pose proof (Qfloor_resp_le p q H) as F.
  destruct (Qfloor_bounds p) as [P1 P2]. destruct (Qfloor_bounds q) as [Q1 Q2].
  destruct (Z.eq_dec (Qfloor p) (Qfloor q)) as [E|N].
  - unfold rne. rewrite <- E in *.
    destruct (Qcompare_spec (p - inject_Z (Qfloor p)) (1 # 2)) as [Ep|Lp|Gp];
    destruct (Qcompare_spec (q - inject_Z (Qfloor p)) (1 # 2)) as [Eq|Lq|Gq];
      try lia; try lra; destruct (Z.even (Qfloor p)); lia.
  - destruct (rne_cases p) as [[-> _]|[-> _]];
    destruct (rne_cases q) as [[-> _]|[-> _]]; lia.
Qed.

Lemma rne_comp p q : (p == q)%Q -> rne p = rne q.
Proof.
  intros H. apply Z.le_antisymm; apply rne_mono; rewrite H; apply Qle_refl.
Qed.

Lemma rne_inject z : rne (inject_Z z) = z.
Proof.
  unfold rne. rewrite Qfloor_Z.
  destruct (Qcompare_spec (inject_Z z - inject_Z z) (1 # 2)) as [E|L|G];
    try reflexivity; lra.
Qed.

Lemma Qabs_pos_nonzero q : ~ (q == 0)%Q -> (0 < Qabs q)%Q.
Proof.
  intros H. destruct (Qlt_le_dec 0 q) as [L|L].
  - rewrite Qabs_pos by lra. exact L.
  - rewrite Qabs_neg by exact L.
    destruct (Qlt_le_dec q 0) as [L'|L']; [lra|]. exfalso. apply H. lra.
Qed.

Lemma fround_zero prec q : (q == 0)%Q -> fround prec q = 0%Q.
Proof.
  intros H. unfold fround. apply Qeq_bool_iff in H. rewrite H. reflexivity.
Qed.

Lemma fround_spec prec q :
  ~ (q == 0)%Q ->
  let e := fexp prec q in
  (fround prec q == inject_Z (rne (q * 2 ^ (- e))) * 2 ^ e)%Q
  /\ (2 ^ (e + prec - 1) <= Qabs q)%Q
  /\ (Qabs q < 2 ^ (e + prec))%Q.
Proof.
  intros H e. split.
  - unfold fround. destruct (Qeq_bool q 0) eqn:E.
    + apply Qeq_bool_iff in E. contradiction.
    + rewrite Qred_correct. reflexivity.
  - destruct (Qlog2_spec (Qabs q) (Qabs_pos_nonzero q H)) as [S1 S2].
    unfold e, fexp.
    replace (Qlog2 (Qabs q) - prec + 1 + prec - 1) with (Qlog2 (Qabs q))
      by lia.
    replace (Qlog2 (Qabs q) - prec + 1 + prec) with (Qlog2 (Qabs q) + 1)
      by lia.
    split; assumption.
Qed.

(** Rounding depends on the value only, and gives a fraction in lowest
    terms. *)
Lemma fround_comp prec p q : (p == q)%Q -> fround prec p = fround prec q.
Proof.
  intros H. unfold fround, fexp.
  assert (E : Qeq_bool p 0 = Qeq_bool q 0).
  { destruct (Qeq_bool p 0) eqn:Ep, (Qeq_bool q 0) eqn:Eq; try reflexivity.
    - apply Qeq_bool_iff in Ep.
      assert (Z : (q == 0)%Q) by (rewrite <- H; exact Ep).
      apply Qeq_bool_iff in Z. congruence.
    - apply Qeq_bool_iff in Eq.
      assert (Z : (p == 0)%Q) by (rewrite H; exact Eq).
      apply Qeq_bool_iff in Z. congruence. }
  rewrite <- E. destruct (Qeq_bool p 0) eqn:Ep; [reflexivity|].
  assert (Np : ~ (p == 0)%Q).
  { intros Z. apply Qeq_bool_iff in Z. congruence. }
  assert (L : Qlog2 (Qabs p) = Qlog2 (Qabs q)).
  { destruct (Qlog2_spec (Qabs p) (Qabs_pos_nonzero p Np)) as [S1 S2].
    symmetry. pose proof (Qabs_wd p q H) as Ha.
    apply Qlog2_unique; [eapply Qle_trans; [exact S1|]
                        |eapply Qle_lt_trans; [|exact S2]];
      rewrite Ha; apply Qle_refl. }
  rewrite <- L. apply Qred_complete.
  rewrite (rne_comp (p * 2 ^ (- (Qlog2 (Qabs p) - prec + 1)))
                    (q * 2 ^ (- (Qlog2 (Qabs p) - prec + 1))))
    by (apply Qmult_comp; [exact H|reflexivity]).
  reflexivity.
Qed.

Lemma Qscale_le x y a : (x <= y)%Q -> (x * 2 ^ a <= y * 2 ^ a)%Q.
Proof.
  intros H. apply Qmult_le_compat_r; [exact H|].
  apply Qlt_le_weak, Qpow2_pos.
Qed.

Lemma Qscale_back x a : (x * 2 ^ (- a) * 2 ^ a == x)%Q.
Proof.
  rewrite <- Qmult_assoc, (Qmult_comm (2 ^ (- a))), Qpow2_cancel. ring.
Qed.

Lemma Qscale_int b k e :
  e <= k -> (inject_Z b * 2 ^ k * 2 ^ (- e) == inject_Z (b * 2 ^ (k - e)))%Q.
Proof.
  intros H. rewrite inject_Z_mult, <- Qpow2_inject by lia.
  unfold Z.sub. rewrite Qpow2_plus. ring.
Qed.

Section Rounding.

Variable prec : Z.
Hypothesis prec_pos : 1 <= prec.

(** A rounded value does not pass a number of the format that the value
    does not pass. *)
Lemma fround_le x b k :
  - 2 ^ prec < b < 2 ^ prec ->
  (x <= inject_Z b * 2 ^ k)%Q -> (fround prec x <= inject_Z b * 2 ^ k)%Q.
Proof.
  intros Hb Hx.
  destruct (Qeq_dec x 0) as [Z|N].
  - rewrite (fround_zero prec x Z). rewrite Z in Hx. exact Hx.
  - destruct (fround_spec prec x N) as (F & A1 & A2).
    set (e := fexp prec x) in *. rewrite F.
    pose proof (Qpow2_pos e) as Pe. pose proof (Qpow2_pos k) as Pk.
    destruct (Z_le_gt_dec e k) as [L|G].
    + pose proof (Qscale_le _ _ (- e) Hx) as S. rewrite (Qscale_int b k e L) in S.
      apply rne_mono in S. rewrite rne_inject in S.
      rewrite <- (Qscale_back (inject_Z b * 2 ^ k) e).
      rewrite (Qscale_int b k e L). apply Qmult_le_compat_r; [|lra].
      rewrite <- Zle_Qle. exact S.
    + assert (Hk : (2 ^ (k + prec) <= 2 ^ (e + prec - 1))%Q)
        by (apply Qpow2_le; lia).
      assert (Bu : (inject_Z b * 2 ^ k < 2 ^ (k + prec))%Q).
      { rewrite Qpow2_plus, (Qmult_comm (2 ^ k)).
        apply Qmult_lt_compat_r; [exact Pk|].
        rewrite Qpow2_inject by lia. rewrite <- Zlt_Qlt. lia. }
      assert (Bl : (- 2 ^ (k + prec) < inject_Z b * 2 ^ k)%Q).
      { rewrite Qpow2_plus, (Qmult_comm (2 ^ k)).
        setoid_replace (- (2 ^ prec * 2 ^ k))%Q with ((- 2 ^ prec) * 2 ^ k)%Q
          by ring.
        apply Qmult_lt_compat_r; [exact Pk|].
        rewrite Qpow2_inject by lia. rewrite <- inject_Z_opp, <- Zlt_Qlt. lia. }
      destruct (Qlt_le_dec 0 x) as [Px|Nx].
      * rewrite Qabs_pos in A1 by lra. lra.
      * rewrite Qabs_neg in A1 by exact Nx.
        assert (S : (x * 2 ^ (- e) <= inject_Z (- 2 ^ (prec - 1)))%Q).
        { rewrite inject_Z_opp, <- Qpow2_inject by lia.
          setoid_replace (- 2 ^ (prec - 1))%Q
            with ((- 2 ^ (e + prec - 1)) * 2 ^ (- e))%Q.
          - apply Qscale_le. lra.
          - replace (e + prec - 1) with ((prec - 1) + e) by lia.
            rewrite Qpow2_plus.
            setoid_replace (- (2 ^ (prec - 1) * 2 ^ e) * 2 ^ (- e))%Q
              with (- (2 ^ (prec - 1) * (2 ^ e * 2 ^ (- e))))%Q by ring.
            rewrite Qpow2_cancel. ring. }
        apply rne_mono in S. rewrite rne_inject in S.
        apply Qle_trans with (inject_Z (- 2 ^ (prec - 1)) * 2 ^ e)%Q.
        -- apply Qmult_le_compat_r; [|lra]. rewrite <- Zle_Qle. exact S.
        -- rewrite inject_Z_opp, <- Qpow2_inject by lia.
           setoid_replace (- 2 ^ (prec - 1) * 2 ^ e)%Q
             with (- 2 ^ (e + prec - 1))%Q.
           ++ lra.
           ++ replace (e + prec - 1) with ((prec - 1) + e) by lia.
              rewrite Qpow2_plus. ring.
Qed.

Lemma fround_ge x b k :
  - 2 ^ prec < b < 2 ^ prec ->
  (inject_Z b * 2 ^ k <= x)%Q -> (inject_Z b * 2 ^ k <= fround prec x)%Q.
Proof.
  intros Hb Hx.
  destruct (Qeq_dec x 0) as [Z|N].
  - rewrite (fround_zero prec x Z). rewrite Z in Hx. exact Hx.
  - destruct (fround_spec prec x N) as (F & A1 & A2).
    set (e := fexp prec x) in *. rewrite F.
    pose proof (Qpow2_pos e) as Pe. pose proof (Qpow2_pos k) as Pk.
    destruct (Z_le_gt_dec e k) as [L|G].
    + pose proof (Qscale_le _ _ (- e) Hx) as S. rewrite (Qscale_int b k e L) in S.
      apply rne_mono in S. rewrite rne_inject in S.
      rewrite <- (Qscale_back (inject_Z b * 2 ^ k) e).
      rewrite (Qscale_int b k e L). apply Qmult_le_compat_r; [|lra].
      rewrite <- Zle_Qle. exact S.
    + assert (Hk : (2 ^ (k + prec) <= 2 ^ (e + prec - 1))%Q)
        by (apply Qpow2_le; lia).
      assert (Bu : (inject_Z b * 2 ^ k < 2 ^ (k + prec))%Q).
      { rewrite Qpow2_plus, (Qmult_comm (2 ^ k)).
        apply Qmult_lt_compat_r; [exact Pk|].
        rewrite Qpow2_inject by lia. rewrite <- Zlt_Qlt. lia. }
      assert (Bl : (- 2 ^ (k + prec) < inject_Z b * 2 ^ k)%Q).
      { rewrite Qpow2_plus, (Qmult_comm (2 ^ k)).
        setoid_replace (- (2 ^ prec * 2 ^ k))%Q with ((- 2 ^ prec) * 2 ^ k)%Q
          by ring.
        apply Qmult_lt_compat_r; [exact Pk|].
        rewrite Qpow2_inject by lia. rewrite <- inject_Z_opp, <- Zlt_Qlt. lia. }
      destruct (Qlt_le_dec x 0) as [Nx|Px].
      * rewrite Qabs_neg in A1 by lra. lra.
      * rewrite Qabs_pos in A1 by exact Px.
        assert (S : (inject_Z (2 ^ (prec - 1)) <= x * 2 ^ (- e))%Q).
        { rewrite <- Qpow2_inject by lia.
          setoid_replace (2 ^ (prec - 1))%Q
            with (2 ^ (e + prec - 1) * 2 ^ (- e))%Q.
          - apply Qscale_le. lra.
          - replace (e + prec - 1) with ((prec - 1) + e) by lia.
            rewrite Qpow2_plus, <- Qmult_assoc, Qpow2_cancel. ring. }
        apply rne_mono in S. rewrite rne_inject in S.
        apply Qle_trans with (inject_Z (2 ^ (prec - 1)) * 2 ^ e)%Q.
        -- rewrite <- Qpow2_inject by lia.
           setoid_replace (2 ^ (prec - 1) * 2 ^ e)%Q
             with (2 ^ (e + prec - 1))%Q.
           ++ lra.
           ++ replace (e + prec - 1) with ((prec - 1) + e) by lia.
              rewrite Qpow2_plus. ring.
        -- apply Qmult_le_compat_r; [|lra]. rewrite <- Zle_Qle. exact S.
Qed.

(** A number of the format is its own rounding. *)
Lemma fround_exact x b k :
  - 2 ^ prec < b < 2 ^ prec ->
  (x == inject_Z b * 2 ^ k)%Q -> (fround prec x == x)%Q.
Proof.
  intros Hb Hx. apply Qle_antisym.
  - rewrite Hx at 2. apply fround_le; [exact Hb|]. rewrite Hx. apply Qle_refl.
  - rewrite Hx at 1. apply fround_ge; [exact Hb|]. rewrite Hx. apply Qle_refl.
Qed.

Lemma fround_int z : - 2 ^ prec < z < 2 ^ prec ->
  (fround prec (inject_Z z) == inject_Z z)%Q.
Proof.
  intros H. apply (fround_exact _ z 0 H). change (2 ^ 0)%Q with 1%Q. ring.
Qed.

Lemma fround_le_int x z : - 2 ^ prec < z < 2 ^ prec ->
  (x <= inject_Z z)%Q -> (fround prec x <= inject_Z z)%Q.
Proof.
  intros H Hx.
  assert (E : (inject_Z z == inject_Z z * 2 ^ 0)%Q)
    by (change (2 ^ 0)%Q with 1%Q; ring).
  rewrite E. apply fround_le; [exact H|]. rewrite <- E. exact Hx.
Qed.

Lemma fround_ge_int x z : - 2 ^ prec < z < 2 ^ prec ->
  (inject_Z z <= x)%Q -> (inject_Z z <= fround prec x)%Q.
Proof.
  intros H Hx.
  assert (E : (inject_Z z == inject_Z z * 2 ^ 0)%Q)
    by (change (2 ^ 0)%Q with 1%Q; ring).
  rewrite E. apply fround_ge; [exact H|]. rewrite <- E. exact Hx.
Qed.

Lemma pow2_prec_pos : 0 < 2 ^ prec.
Proof. apply Z.pow_pos_nonneg; lia. Qed.

Lemma fround_nonneg x : (0 <= x)%Q -> (0 <= fround prec x)%Q.
Proof.
  intros H. pose proof pow2_prec_pos.
  apply (fround_ge_int x 0); [lia|exact H].
Qed.

Lemma fround_nonpos x : (x <= 0)%Q -> (fround prec x <= 0)%Q.
Proof.
  intros H. pose proof pow2_prec_pos.
  apply (fround_le_int x 0); [lia|exact H].
Qed.

(** The rounding error of a value below [2^k] in magnitude is at most
    [2^(k - prec - 1)]. *)
Lemma fround_error x k :
  (Qabs x < 2 ^ k)%Q ->
  (Qabs (fround prec x - x) <= 2 ^ (k - prec - 1))%Q.
Proof.
  intros Hx.
  destruct (Qeq_dec x 0) as [Z|N].
  - rewrite (fround_zero prec x Z), Z.
    setoid_replace (0 - 0)%Q with 0%Q by ring.
    apply Qlt_le_weak, Qpow2_pos.
  - destruct (fround_spec prec x N) as (F & A1 & A2).
    set (e := fexp prec x) in *. rewrite F.
    assert (He : e <= k - prec).
    { assert (e + prec - 1 < k); [|lia].
      apply Qpow2_lt_inv. eapply Qle_lt_trans; eassumption. }
    destruct (rne_error (x * 2 ^ (- e))) as [R1 R2].
    set (m := inject_Z (rne (x * 2 ^ (- e)))) in *.
    pose proof (Qpow2_pos e) as Pe.
    assert (Hh : (2 ^ (e - 1) <= 2 ^ (k - prec - 1))%Q)
      by (apply Qpow2_le; lia).
    assert (E1 : (2 ^ e == 2 * 2 ^ (e - 1))%Q).
    { rewrite <- Qpow2_succ. replace (e - 1 + 1) with e by lia. reflexivity. }
    assert (Ex : (x == x * 2 ^ (- e) * 2 ^ e)%Q)
      by (rewrite Qscale_back; reflexivity).
    set (y := (x * 2 ^ (- e))%Q) in *.
    apply Qabs_Qle_condition. split.
    + apply Qle_trans with (- 2 ^ (e - 1))%Q; [lra|].
      rewrite Ex.
      setoid_replace (m * 2 ^ e - y * 2 ^ e)%Q with ((m - y) * 2 ^ e)%Q by ring.
      setoid_replace (- 2 ^ (e - 1))%Q with ((- (1 # 2)) * 2 ^ e)%Q
        by (rewrite E1; field).
      apply Qmult_le_compat_r; lra.
    + apply Qle_trans with (2 ^ (e - 1))%Q; [|lra].
      rewrite Ex.
      setoid_replace (m * 2 ^ e - y * 2 ^ e)%Q with ((m - y) * 2 ^ e)%Q by ring.
      setoid_replace (2 ^ (e - 1))%Q with ((1 # 2) * 2 ^ e)%Q
        by (rewrite E1; field).
      apply Qmult_le_compat_r; lra.
Qed.

End Rounding.

Lemma fround_canon prec x : Qred (fround prec x) = fround prec x.
Proof.
  unfold fround. destruct (Qeq_bool x 0); [reflexivity|].
  apply Qred_complete, Qred_correct.
Qed.

Lemma fround_eq prec x y :
  (fround prec x == fround prec y)%Q -> fround prec x = fround prec y.
Proof.
  intros H. rewrite <- (fround_canon prec x), <- (fround_canon prec y).
  apply Qred_complete. exact H.
Qed.

Lemma Qabs_scale x k : (Qabs (x * 2 ^ k) == Qabs x * 2 ^ k)%Q.
Proof.
  rewrite Qabs_Qmult. rewrite (Qabs_pos (2 ^ k)); [reflexivity|].
  apply Qlt_le_weak, Qpow2_pos.
Qed.

Section Scaling.

Variable prec : Z.
Hypothesis prec_pos : 1 <= prec.

(** Rounding commutes with the multiplication by a power of 2. *)
Lemma fround_scale x k :
  (fround prec (x * 2 ^ k) == fround prec x * 2 ^ k)%Q.
Proof.
  destruct (Qeq_dec x 0) as [Z|N].
  - rewrite (fround_zero prec x Z).
    rewrite (fround_zero prec (x * 2 ^ k)); [ring|]. rewrite Z. ring.
  - assert (N' : ~ (x * 2 ^ k == 0)%Q).
    { intros E. apply N. pose proof (Qpow2_pos k) as Pk.
      apply Qmult_integral in E. destruct E as [E|E]; [exact E|lra]. }
    destruct (fround_spec prec x N) as (F & A1 & A2).
    destruct (fround_spec prec _ N') as (F' & _ & _).
    assert (E : fexp prec (x * 2 ^ k) = fexp prec x + k).
    { unfold fexp.
      destruct (Qlog2_spec (Qabs x) (Qabs_pos_nonzero x N)) as [S1 S2].
      rewrite (Qlog2_unique (Qabs (x * 2 ^ k)) (Qlog2 (Qabs x) + k)); [lia| |].
      - rewrite Qabs_scale, Qpow2_plus. apply Qscale_le. exact S1.
      - rewrite Qabs_scale.
        replace (Qlog2 (Qabs x) + k + 1) with (Qlog2 (Qabs x) + 1 + k) by lia.
        rewrite Qpow2_plus. apply Qmult_lt_compat_r; [apply Qpow2_pos|exact S2]. }
    rewrite F', F, E.
    rewrite (rne_comp (x * 2 ^ k * 2 ^ (- (fexp prec x + k)))
                      (x * 2 ^ (- fexp prec x))).
    + rewrite Qpow2_plus. ring.
    + replace (- (fexp prec x + k)) with (- fexp prec x + - k) by lia.
      rewrite Qpow2_plus.
      setoid_replace (x * 2 ^ k * (2 ^ (- fexp prec x) * 2 ^ (- k)))%Q
        with (x * 2 ^ (- fexp prec x) * (2 ^ k * 2 ^ (- k)))%Q by ring.
      rewrite Qpow2_cancel. ring.
Qed.

Lemma fround_double x : (fround prec (x * 2) == fround prec x * 2)%Q.
Proof. apply (fround_scale x 1). Qed.

Lemma fround_half x : (fround prec (x / 2) == fround prec x / 2)%Q.
Proof. apply (fround_scale x (-1)). Qed.

(** A rounded value is a number of the format: an integer below [2^prec]
    in magnitude times a power of 2. *)
Lemma fround_format x :
  exists b k, - 2 ^ prec < b < 2 ^ prec
              /\ (fround prec x == inject_Z b * 2 ^ k)%Q.
Proof.
  pose proof (pow2_prec_pos prec prec_pos) as Hp.
  destruct (Qeq_dec x 0) as [Z|N].
  - exists 0, 0. split; [lia|]. rewrite (fround_zero prec x Z). ring.
  - destruct (fround_spec prec x N) as (F & A1 & A2).
    set (e := fexp prec x) in *.
    assert (B : (Qabs (x * 2 ^ (- e)) < inject_Z (2 ^ prec))%Q).
    { rewrite Qabs_scale, <- Qpow2_inject by lia.
      setoid_replace (2 ^ prec)%Q with (2 ^ (e + prec) * 2 ^ (- e))%Q.
      - apply Qmult_lt_compat_r; [apply Qpow2_pos|exact A2].
      - replace (e + prec) with (prec + e) by lia.
        rewrite Qpow2_plus, <- Qmult_assoc, Qpow2_cancel. ring. }
    apply Qabs_Qlt_condition in B. destruct B as [B1 B2].
    assert (M1 : rne (x * 2 ^ (- e)) <= 2 ^ prec).
    { rewrite <- (rne_inject (2 ^ prec)). apply rne_mono. lra. }
    assert (M2 : - 2 ^ prec <= rne (x * 2 ^ (- e))).
    { rewrite <- (rne_inject (- 2 ^ prec)). apply rne_mono.
      rewrite inject_Z_opp. lra. }
    set (m := rne (x * 2 ^ (- e))) in *.
    assert (P2 : 2 ^ prec = 2 * 2 ^ (prec - 1)).
    { rewrite <- Z.pow_succ_r by lia. f_equal. lia. }
    destruct (Z.eq_dec m (2 ^ prec)) as [E|E]; [|
    destruct (Z.eq_dec m (- 2 ^ prec)) as [E'|E']].
    + exists (2 ^ (prec - 1)), (e + 1). split; [lia|].
      rewrite F. fold m. rewrite E, P2, inject_Z_mult, Qpow2_succ.
      change (inject_Z 2) with 2%Q. ring.
    + exists (- 2 ^ (prec - 1)), (e + 1). split; [lia|].
      rewrite F. fold m. rewrite E', P2, !inject_Z_opp, inject_Z_mult, Qpow2_succ.
      change (inject_Z 2) with 2%Q. ring.
    + exists m, e. split; [lia|]. rewrite F. reflexivity.
Qed.

Lemma fround_idem x : fround prec (fround prec x) = fround prec x.
Proof.
  destruct (fround_format x) as (b & k & Hb & E).
  etransitivity; [symmetry; apply fround_canon|].
  etransitivity; [|apply fround_canon].
  apply Qred_complete. apply (fround_exact prec prec_pos _ b k Hb E).
Qed.

Lemma fround_mono_exact x y :
  (x <= fround prec y)%Q -> (fround prec x <= fround prec y)%Q.
Proof.
  intros H. destruct (fround_format y) as (b & k & Hb & E).
  rewrite E in *. apply (fround_le prec prec_pos); assumption.
Qed.

End Scaling.

(* ------------------------------------------------------------------------ *)
(** ** The ring buffer under the sample loops *)

Lemma ring_write_only_refl s : ring_write_only s s.
Proof. repeat split. Qed.

Lemma ring_write_only_trans s1 s2 s3 :
  ring_write_only s1 s2 -> ring_write_only s2 s3 -> ring_write_only s1 s3.
Proof.
  unfold ring_write_only; intros H1 H2.
  repeat match goal with H : _ /\ _ |- _ => destruct H as [? H] end.
  repeat split; congruence.
Qed.

(** Reduction of the setters and projections of [state]. *)
Ltac state_simpl :=
  cbv beta iota zeta delta
    [set_audio_buf_num_populated_frames set_audio_buf
     set_audio_buf_frame_idx_to_send set_audio_buf_empty_idx
     set_i2s_running set_notes_running set_wave_running set_notes
     set_beats_per_minute set_octave set_volume_notes set_next_note_parsed
     set_next_note_freq set_next_note_duration_s set_file set_volume_wave
     audio_buf_num_populated_frames audio_buf audio_buf_frame_idx_to_send
     audio_buf_empty_idx i2s_running notes_running wave_running notes
     beats_per_minute octave volume_notes next_note_parsed next_note_freq
     next_note_duration_s file volume_wave].

Ltac state_simpl_in H :=
  cbv beta iota zeta delta
    [set_audio_buf_num_populated_frames set_audio_buf
     set_audio_buf_frame_idx_to_send set_audio_buf_empty_idx
     set_i2s_running set_notes_running set_wave_running set_notes
     set_beats_per_minute set_octave set_volume_notes set_next_note_parsed
     set_next_note_freq set_next_note_duration_s set_file set_volume_wave
     audio_buf_num_populated_frames audio_buf audio_buf_frame_idx_to_send
     audio_buf_empty_idx i2s_running notes_running wave_running notes
     beats_per_minute octave volume_notes next_note_parsed next_note_freq
     next_note_duration_s file volume_wave] in H.


(** Closed goals about concrete states: conjunctions of equations and of
    negated equations, settled by evaluation. *)
Ltac by_evaluation :=
  repeat match goal with |- _ /\ _ => split end;
  lazymatch goal with
  | |- ~ _ => let H := fresh in intros H; vm_compute in H; discriminate H
  | |- _ => vm_compute; reflexivity
  end.

Ltac zmod := Z.div_mod_to_equations; lia.

Lemma put_sample_spec v s :
  cursor_ok s ->
  cursor_ok (put_sample v s)
  /\ fill (put_sample v s) = fill s + 1
  /\ audio_buf_empty_idx (put_sample v s)
     = (audio_buf_empty_idx s + 1) mod AUDIO_BUF_LEN
  /\ ring_write_only s (put_sample v s).
Proof.
  destruct s as [pf buf fi e ir nr wr nt bpm oc vn np nf nd fl vw].
  unfold cursor_ok, fill, put_sample, ring_write_only.
  unfold AUDIO_BUF_LEN, FRAME_SIZE, AUDIO_BUF_NUM_FRAMES.
  state_simpl. change (1024 * 100) with 102400.
  intros Hc.
  assert (R1 : Z.rem (e + 1) 102400 = (e + 1) mod 102400)
    by (apply Z.rem_mod_nonneg; lia).
  assert (R2 : Z.rem ((e + 1) mod 102400) 1024
               = ((e + 1) mod 102400) mod 1024)
    by (apply Z.rem_mod_nonneg; [apply Z.mod_pos_bound|]; lia).
  rewrite R1, R2.
  destruct (Z.eqb_spec (((e + 1) mod 102400) mod 1024) 0) as [E|E];
    state_simpl; clear R1 R2; repeat split; try reflexivity; zmod.
Qed.

Lemma for_loop_put_sample n : forall i (val : Z -> Z) s,
  cursor_ok s ->
  let s' := for_loop n i (fun k => put_sample (val k)) s in
  cursor_ok s'
  /\ fill s' = fill s + Z.of_nat n
  /\ audio_buf_empty_idx s'
     = (audio_buf_empty_idx s + Z.of_nat n) mod AUDIO_BUF_LEN
  /\ ring_write_only s s'.
Proof.
  induction n as [|n IH]; intros i val s Hc; cbn zeta.
  - cbn [for_loop]. split; [assumption|]. split; [cbn; lia|].
    split; [|apply ring_write_only_refl].
    cbn. rewrite Z.add_0_r. unfold cursor_ok in Hc.
    symmetry; apply Z.mod_small; assumption.
  - cbn [for_loop].
    destruct (put_sample_spec (val i) s Hc) as (Hc1 & Hf1 & He1 & Hr1).
    destruct (IH (i + 1) val _ Hc1) as (Hc2 & Hf2 & He2 & Hr2).
    split; [assumption|]. split; [rewrite Hf2, Hf1; lia|].
    split; [|eapply ring_write_only_trans; eassumption].
    rewrite He2, He1. rewrite Zplus_mod_idemp_l. f_equal. lia.
Qed.

(* ------------------------------------------------------------------------ *)
(** ** Rendering *)

Lemma ring_write_only_flag s s' b :
  ring_write_only s s' ->
  ring_write_only (set_next_note_parsed b s) (set_next_note_parsed b s').
Proof.
  destruct s, s'; unfold ring_write_only; state_simpl.
  intros H; repeat match goal with H : _ /\ _ |- _ => destruct H as [? H] end.
  repeat split; assumption.
Qed.

Lemma generate_silence_spec d s :
  cursor_ok s ->
  let s' := generate_silence d s in
  cursor_ok s'
  /\ fill s' = fill s + Z.max 0 (samples_of d)
  /\ audio_buf_empty_idx s'
     = (audio_buf_empty_idx s + Z.max 0 (samples_of d)) mod AUDIO_BUF_LEN
  /\ ring_write_only s s'.
Proof.
  intros Hc. unfold generate_silence.
  destruct (for_loop_put_sample (Z.to_nat (samples_of d)) 0 (fun _ => 0) s Hc)
    as (H1 & H2 & H3 & H4).
  replace (Z.max 0 (samples_of d)) with (Z.of_nat (Z.to_nat (samples_of d)))
    by lia.
  cbn zeta. auto.
Qed.

Lemma generate_sine_wave_spec P d f a s :
  cursor_ok s ->
  let s' := generate_sine_wave P d f a s in
  cursor_ok s'
  /\ fill s' = fill s + Z.max 0 (samples_of d)
  /\ audio_buf_empty_idx s'
     = (audio_buf_empty_idx s + Z.max 0 (samples_of d)) mod AUDIO_BUF_LEN
  /\ ring_write_only s s'.
Proof.
  intros Hc. unfold generate_sine_wave.
  destruct (for_loop_put_sample (Z.to_nat (samples_of d)) 0
              (sine_sample P f a (samples_of d)) s Hc)
    as (H1 & H2 & H3 & H4).
  replace (Z.max 0 (samples_of d)) with (Z.of_nat (Z.to_nat (samples_of d)))
    by lia.
  cbn zeta. auto.
Qed.

Lemma set_next_note_parsed_ring b x :
  (cursor_ok x -> cursor_ok (set_next_note_parsed b x))
  /\ fill (set_next_note_parsed b x) = fill x
  /\ audio_buf_empty_idx (set_next_note_parsed b x) = audio_buf_empty_idx x
  /\ next_note_parsed (set_next_note_parsed b x) = b.
Proof. destruct x; unfold cursor_ok, fill; state_simpl; intuition. Qed.

(** The render step either leaves every variable as it is, or clears the
    flag and writes [samples_of (next_note_duration_s s)] samples. *)
Lemma write_next_note_spec P s :
  cursor_ok s ->
  let n := samples_of (next_note_duration_s s) in
  let s' := write_next_note_to_audio_buf P s in
  (avail_space s <= n -> s' = s)
  /\ (n < avail_space s ->
      cursor_ok s'
      /\ next_note_parsed s' = false
      /\ fill s' = fill s + Z.max 0 n
      /\ audio_buf_empty_idx s'
         = (audio_buf_empty_idx s + Z.max 0 n) mod AUDIO_BUF_LEN
      /\ ring_write_only (set_next_note_parsed false s) s').
Proof.
  intros Hc n s'. subst n s'. unfold write_next_note_to_audio_buf.
  destruct (Z.gtb_spec (avail_space s)
              (samples_of (next_note_duration_s s))) as [G|G].
  - split; [lia|]. intros _.
    assert (H : forall g,
      cursor_ok g
      /\ fill g = fill s + Z.max 0 (samples_of (next_note_duration_s s))
      /\ audio_buf_empty_idx g
         = (audio_buf_empty_idx s
            + Z.max 0 (samples_of (next_note_duration_s s)))
           mod AUDIO_BUF_LEN
      /\ ring_write_only s g ->
      let s' := set_next_note_parsed false g in
      cursor_ok s'
      /\ next_note_parsed s' = false
      /\ fill s' = fill s + Z.max 0 (samples_of (next_note_duration_s s))
      /\ audio_buf_empty_idx s'
         = (audio_buf_empty_idx s
            + Z.max 0 (samples_of (next_note_duration_s s)))
           mod AUDIO_BUF_LEN
      /\ ring_write_only (set_next_note_parsed false s) s').
    { intros g (H1 & H2 & H3 & H4).
      destruct (set_next_note_parsed_ring false g) as (F1 & F2 & F3 & F4).
      cbn zeta. rewrite F2, F3, F4.
      split; [auto|]. split; [reflexivity|]. split; [assumption|].
      split; [assumption|]. apply ring_write_only_flag; assumption. }
    destruct (Qeq_bool (next_note_freq s) 0); apply H.
    + apply generate_silence_spec; assumption.
    + apply generate_sine_wave_spec; assumption.
  - split; [reflexivity|]. intros; lia.
Qed.

(* ------------------------------------------------------------------------ *)
(** ** The output task and [stop] *)

Lemma stop_runs s : stop s = Ok (tt, stopped s, stop_calls s).
Proof.
  destruct s as [pf buf fi e ir nr wr nt bpm oc vn np nf nd fl vw].
  destruct ir, wr, nr; reflexivity.
Qed.

Lemma stopped_stopped s : stopped (stopped s) = stopped s.
Proof. destruct s; reflexivity. Qed.

Lemma I2Sout_TXdone_runs s :
  I2Sout_TXdone s =
  if audio_buf_num_populated_frames s >=? 0
  then Ok (tt, frame_sent s,
           [I2sWrite (frame_at (audio_buf s) (audio_buf_frame_idx_to_send s))])
  else Ok (tt, s, []).
Proof.
  destruct s as [pf buf fi e ir nr wr nt bpm oc vn np nf nd fl vw].
  unfold I2Sout_TXdone, bind, gets, when. state_simpl.
  destruct (pf >=? 0); reflexivity.
Qed.

(* ------------------------------------------------------------------------ *)
(** ** The parser: what it touches, and that it ends *)

Lemma player_only_refl s : player_only s s.
Proof. repeat split. Qed.

Lemma player_only_trans s1 s2 s3 :
  player_only s1 s2 -> player_only s2 s3 -> player_only s1 s3.
Proof.
  unfold player_only; intros H1 H2.
  repeat match goal with H : _ /\ _ |- _ => destruct H as [? H] end.
  repeat split; congruence.
Qed.

Lemma str_drop_length n : forall s,
  String.length (str_drop n s) = (String.length s - n)%nat.
Proof.
  induction n as [|n IH]; intros [|c r]; cbn; auto using Nat.sub_0_r.
Qed.

Lemma stoi_pos s v pos : stoi s = Value (v, pos) -> (1 <= pos)%nat.
Proof.
  unfold stoi.
  destruct (match skip_space s with
            | String c r =>
                if is_char c "-" then (true, r, 1%nat)
                else if is_char c "+" then (false, r, 1%nat)
                else (false, skip_space s, 0%nat)
            | EmptyString => (false, skip_space s, 0%nat)
            end) as [[neg s2] nsign].
  destruct (leading_digits s2) as [|d ds]; [discriminate|].
  destruct (_ || _); [discriminate|].
  intros H; injection H as _ <-. cbn [List.length]. lia.
Qed.

Lemma retuned_refl s : retuned s s.
Proof. split; [apply player_only_refl|reflexivity]. Qed.

Lemma retuned_trans s1 s2 s3 :
  retuned s1 s2 -> retuned s2 s3 -> retuned s1 s3.
Proof.
  intros [H1 H2] [H3 H4]; split; [eapply player_only_trans; eauto|congruence].
Qed.

Lemma consumed_retuned s1 s2 s3 :
  consumed s1 s2 -> retuned s2 s3 -> consumed s1 s3.
Proof.
  intros [H1 H2] [H3 H4]; split; [eapply player_only_trans; eauto|].
  rewrite H4; assumption.
Qed.

Lemma retuned_set_duration v s : retuned s (set_next_note_duration_s v s).
Proof. destruct s; repeat split. Qed.

Lemma retuned_set_freq v s : retuned s (set_next_note_freq v s).
Proof. destruct s; repeat split. Qed.

Lemma retuned_set_octave v s : retuned s (set_octave v s).
Proof. destruct s; repeat split. Qed.

Lemma retuned_set_tempo v s : retuned s (set_beats_per_minute v s).
Proof. destruct s; repeat split. Qed.

Lemma retuned_set_volume v s : retuned s (set_volume_notes v s).
Proof. destruct s; repeat split. Qed.

Lemma retuned_defaults s : retuned s (set_note_defaults s).
Proof. destruct s; repeat split. Qed.

Lemma retuned_switch c s : retuned s (note_letter_switch c s).
Proof.
  unfold note_letter_switch.
  repeat match goal with
         | |- context [if ?b then _ else _] => destruct b
         end;
    destruct s; repeat split.
Qed.

Lemma retuned_if (b : bool) s s1 s2 :
  retuned s s1 -> retuned s s2 -> retuned s (if b then s1 else s2).
Proof. destruct b; auto. Qed.

Lemma player_only_if (b : bool) s s1 s2 :
  player_only s s1 -> player_only s s2 -> player_only s (if b then s1 else s2).
Proof. destruct b; auto. Qed.

Lemma consumed_if (b : bool) s s1 s2 :
  consumed s s1 -> consumed s s2 -> consumed s (if b then s1 else s2).
Proof. destruct b; auto. Qed.

Lemma player_only_set_notes v s : player_only s (set_notes v s).
Proof. destruct s; repeat split. Qed.

Lemma player_only_erase n s0 s :
  player_only s0 s -> player_only s0 (erase n s).
Proof.
  intros H. eapply player_only_trans; [eassumption|].
  apply player_only_set_notes.
Qed.

Lemma player_only_retuned s0 s s' :
  retuned s s' -> player_only s0 s -> player_only s0 s'.
Proof. intros [H _] H0. eapply player_only_trans; eassumption. Qed.

Lemma consumed_erase_first n s0 s :
  retuned s0 s -> notes s0 <> EmptyString -> (1 <= n)%nat ->
  consumed s0 (erase n s).
Proof.
  intros [Hp Hn] Hne H1. split; [apply player_only_erase; assumption|].
  assert (E : notes (erase n s) = str_drop n (notes s))
    by (destruct s; reflexivity).
  rewrite E, str_drop_length, Hn. destruct (notes s0); [congruence|].
  cbn [String.length]. lia.
Qed.

Lemma consumed_erase n s0 s : consumed s0 s -> consumed s0 (erase n s).
Proof.
  intros [Hp Hl]. split; [apply player_only_erase; assumption|].
  assert (E : notes (erase n s) = str_drop n (notes s))
    by (destruct s; reflexivity).
  rewrite E, str_drop_length. lia.
Qed.

Ltac retuned_step :=
  first [ apply retuned_set_duration | apply retuned_set_freq
        | apply retuned_set_octave | apply retuned_set_tempo
        | apply retuned_set_volume | apply retuned_defaults
        | apply retuned_switch ].

Ltac retune :=
  repeat first [ apply retuned_refl | assumption | apply retuned_if
               | (eapply retuned_trans; [|retuned_step]) ].

Ltac player_only_tac :=
  repeat first [ apply player_only_refl | assumption | apply player_only_if
               | apply player_only_erase
               | (eapply player_only_trans; [|apply player_only_set_notes])
               | (eapply player_only_retuned; [retuned_step|]) ].

Ltac consume :=
  first [ solve [apply consumed_erase_first; [retune|assumption|lia]]
        | (apply consumed_if; consume)
        | (apply consumed_erase; consume)
        | (eapply consumed_retuned; [|retuned_step]; consume) ].

Lemma char_at_0_nonempty s : char_at s 0 <> zero -> s <> EmptyString.
Proof. destruct s; cbn; congruence. Qed.

Lemma is_char_nonzero c d : is_char c d = true -> d <> zero -> c <> zero.
Proof. unfold is_char. intros H Hd E. apply Ascii.eqb_eq in H. congruence. Qed.

(** The modifier loop ends within [String.length (notes s) + 1] rounds,
    and touches player variables only. *)
Lemma note_modifiers_frame P fuel : forall dot s0 s,
  player_only s0 s ->
  (String.length (notes s) < fuel)%nat ->
  match note_modifiers P fuel dot s with
  | Ok s1 => player_only s0 s1
  | Throw _ => True
  | OutOfFuel => False
  end.
Proof.
  induction fuel as [|fuel IH]; intros dot s0 s Hp Hlen; [lia|].
  assert (Hrec : forall dot' s', consumed s s' ->
            match note_modifiers P fuel dot' s' with
            | Ok s1 => player_only s0 s1
            | Throw _ => True
            | OutOfFuel => False
            end).
  { intros dot' s' [H1 H2]. apply IH; [|lia].
    eapply player_only_trans; eassumption. }
  cbn [note_modifiers].
  destruct (isdigit (char_at (notes s) 0)) eqn:Ed.
  { destruct (stoi (notes s)) as [[frac pos]|e] eqn:Es; [|exact I].
    apply stoi_pos in Es. apply Hrec.
    assert (Hne : notes s <> EmptyString).
    { apply char_at_0_nonempty. intros E; rewrite E in Ed; discriminate. }
    consume. }
  assert (Hc : forall d, is_char (char_at (notes s) 0) d = true ->
                d <> zero -> notes s <> EmptyString).
  { intros d Hd Hz. apply char_at_0_nonempty. eapply is_char_nonzero; eauto. }
  destruct (is_char (char_at (notes s) 0) ".") eqn:E1.
  { apply Hc in E1; [|discriminate]. apply Hrec. consume. }
  destruct (is_char (char_at (notes s) 0) ">") eqn:E2.
  { apply Hc in E2; [|discriminate]. apply Hrec. consume. }
  destruct (is_char (char_at (notes s) 0) "<") eqn:E3.
  { apply Hc in E3; [|discriminate]. apply Hrec. consume. }
  destruct (is_char (char_at (notes s) 0) "#") eqn:E4;
    [apply Hc in E4; [|discriminate]
    |destruct (is_char (char_at (notes s) 0) "+") eqn:E5;
      [apply Hc in E5; [|discriminate]
      |destruct (is_char (char_at (notes s) 0) "-") eqn:E6;
        [apply Hc in E6; [|discriminate]|]]];
    cbn [orb]; try assumption; apply Hrec; consume.
Qed.

(** One round of the token loop consumes pending text when it continues,
    and touches player variables only. *)
Lemma parse_token_frame P s :
  notes s <> EmptyString ->
  match parse_token P s with
  | Ok (Continue s1) => consumed s s1
  | Ok (Break s1) => player_only s s1
  | Throw _ => True
  | OutOfFuel => False
  end.
Proof.
  intros Hne. unfold parse_token. cbv zeta.
  destruct (isspace _); [consume|].
  destruct (_ || _); [consume|].
  destruct (_ || _).
  { destruct (stoi _) as [[v pos]|e]; [|exact I]. consume. }
  destruct (is_char _ "!"); [consume|].
  destruct (_ || _).
  { destruct (stoi _) as [[v pos]|e]; [|exact I]. consume. }
  destruct (is_note_letter _).
  { match goal with
    | |- match match note_modifiers P (S (String.length (notes ?x))) ?d ?y
               with _ => _ end with _ => _ end =>
        pose proof (note_modifiers_frame P (S (String.length (notes x))) d s y)
          as H; destruct (note_modifiers P (S (String.length (notes x))) d y)
    end.
    - apply H; [player_only_tac|lia].
    - exact I.
    - apply H; [player_only_tac|lia]. }
  destruct (_ || _).
  { destruct (stof P _) as [[f x_pos]|e]; [|exact I].
    destruct (_ || _).
    - destruct (stof P _) as [[ms m_pos]|e]; [|exact I]. player_only_tac.
    - player_only_tac. }
  player_only_tac.
Qed.

Lemma parse_tokens_frame P fuel : forall s0 s,
  player_only s0 s ->
  (String.length (notes s) < fuel)%nat ->
  match parse_tokens P fuel s with
  | Ok s1 => player_only s0 s1
  | Throw _ => True
  | OutOfFuel => False
  end.
Proof.
  induction fuel as [|fuel IH]; intros s0 s Hp Hlen; [lia|].
  cbn [parse_tokens]. destruct (notes s) as [|c r] eqn:En; [assumption|].
  pose proof (parse_token_frame P s) as H.
  specialize (H ltac:(rewrite En; discriminate)).
  destruct (parse_token P s) as [[s1|s1]|e|]; auto.
  - destruct H as [H1 H2]. apply IH.
    + eapply player_only_trans; eassumption.
    + rewrite En in H2. cbn [String.length] in *. lia.
  - eapply player_only_trans; eassumption.
Qed.

(** [parse_next_note] returns with the flag set or is left by an exception
    of [std::stoi] or [std::stof]; its iteration bound is never reached. *)
Lemma parse_next_note_frame P s :
  match parse_next_note P s with
  | Ok s1 => player_only s s1 /\ next_note_parsed s1 = true
  | Throw _ => True
  | OutOfFuel => False
  end.
Proof.
  unfold parse_next_note.
  pose proof (parse_tokens_frame P (S (String.length (notes s))) s s
                (player_only_refl s) ltac:(lia)) as H.
  destruct (parse_tokens P _ s) as [s1| |]; [|exact I|assumption].
  split; [|destruct s1; reflexivity].
  eapply player_only_trans; [eassumption|]. destruct s1; repeat split.
Qed.

(* ------------------------------------------------------------------------ *)
(** ** The public functions, step by step *)

Lemma add_notes_runs new_notes s :
  let s0 := if wave_running s then stopped s else s in
  let out0 := if wave_running s then stop_calls s else [] in
  add_notes new_notes s =
  if (MAX_NOTES_IN_BUFFER <? String.length (notes s0)
                             + String.length new_notes)%nat
  then Ok (false, s0, out0)
  else Ok (true,
           set_i2s_running true
             (set_notes_running true
                (set_notes (appended (notes s0) new_notes) s0)),
           out0 ++ (if i2s_running s0 then [] else [I2sStart])).
Proof.
  destruct s as [pf buf fi e ir nr wr nt bpm oc vn np nf nd fl vw].
  unfold add_notes, appended, bind, gets, when. state_simpl.
  destruct wr.
  - rewrite stop_runs. unfold stopped, ret, modify. state_simpl.
    destruct (_ <? _)%nat; [rewrite app_nil_r; reflexivity|].
    cbn [String.length Nat.ltb Nat.leb andb]. unfold start_i2s, bind, gets,
      when, call, modify. state_simpl. cbn [negb app].
    reflexivity.
  - unfold ret, modify. state_simpl.
    destruct (_ <? _)%nat; [reflexivity|].
    destruct (_ && _); state_simpl; unfold start_i2s, bind, gets, when, call,
      modify, ret; state_simpl; destruct ir; reflexivity.
Qed.

Lemma loop_notes_runs P s :
  notes_running s = true ->
  loop P s =
  match loop_parse P s with
  | Ok s1 =>
      let s2 := loop_render P s1 in
      if playback_over s2 then Ok (tt, stopped s2, stop_calls s2)
      else Ok (tt, s2, [])
  | Throw e => Throw e
  | OutOfFuel => OutOfFuel
  end.
Proof.
  intros Hn. unfold loop, loop_parse, loop_render, playback_over.
  unfold bind at 1. unfold gets at 1. rewrite Hn.
  unfold bind, gets, when, lift, modify, ret.
  destruct (negb (is_empty (notes s)) && negb (next_note_parsed s)).
  - destruct (parse_next_note P s) as [s1| |]; try reflexivity.
    destruct (next_note_parsed s1).
    + destruct (_ && _); [rewrite stop_runs|]; reflexivity.
    + destruct (_ && _); [rewrite stop_runs|]; reflexivity.
  - destruct (next_note_parsed s).
    + destruct (_ && _); [rewrite stop_runs|]; reflexivity.
    + destruct (_ && _); [rewrite stop_runs|]; reflexivity.
Qed.

Lemma loop_wave_runs P s :
  notes_running s = false ->
  loop P s =
  if wave_running s then
    if file_available (file s)
       && (audio_buf_num_populated_frames s <? WAVE_FRAMES_TO_BUFFER)
    then Ok (tt, read_wave_frame s, [])
    else if audio_buf_num_populated_frames s <=? 0
         then Ok (tt, stopped s, stop_calls s)
         else Ok (tt, s, [])
  else Ok (tt, s, []).
Proof.
  intros Hn. unfold loop.
  unfold bind at 1. unfold gets at 1. rewrite Hn.
  unfold bind, gets, when, modify, ret.
  destruct (wave_running s); [|reflexivity].
  destruct (_ && _); [reflexivity|].
  destruct (_ <=? _); [rewrite stop_runs|]; reflexivity.
Qed.

Lemma play_sound_file_runs P filename s :
  let '(bytes_read, header, f1) := file_read 44 (SD_open P filename) in
  play_sound_file P filename s =
  if header_ok bytes_read header
  then Ok (true,
           set_wave_running true
             (set_i2s_running true (set_file f1 (stopped s))),
           stop_calls s ++ [I2sStart])
  else Ok (false, set_file (file_close f1) (stopped s), stop_calls s).
Proof.
  destruct (file_read 44 (SD_open P filename)) as [[n h] f1] eqn:Er.
  unfold play_sound_file, header_ok.
  unfold bind at 1. rewrite stop_runs.
  unfold bind at 1. unfold modify at 1.
  unfold bind at 1. unfold gets at 1.
  replace (file (set_file (SD_open P filename) (stopped s)))
    with (SD_open P filename) by (destruct s; reflexivity).
  rewrite Er.
  destruct s as [pf buf fi e ir nr wr nt bpm oc vn np nf nd fl vw].
  destruct (n =? 44); [|cbn; rewrite ?app_nil_r; reflexivity].
  destruct (le16 h 22 =? 1); [|cbn; rewrite ?app_nil_r; reflexivity].
  destruct (le32 h 24 =? SAMPLE_RATE);
    cbn; rewrite ?app_nil_r; reflexivity.
Qed.

(* ------------------------------------------------------------------------ *)
(** ** What holds in every reachable state *)

Lemma inv_setup driver_ok : module_inv (setup driver_ok boot_state).
Proof.
  destruct driver_ok; cbv; intuition (discriminate || congruence).
Qed.

Lemma inv_stopped s : module_inv s -> module_inv (stopped s).
Proof.
  destruct s as [pf buf fi e ir nr wr nt bpm oc vn np nf nd fl vw].
  unfold module_inv, cursor_ok, stopped; state_simpl.
  unfold AUDIO_BUF_LEN, AUDIO_BUF_NUM_FRAMES, FRAME_SIZE.
  intros (H1 & H2 & H3 & H4 & H5).
  repeat split; try lia; try discriminate.
  destruct wr; cbn; intros; [discriminate|auto].
Qed.

Lemma inv_frame_sent s :
  module_inv s -> 0 <= audio_buf_num_populated_frames s ->
  module_inv (frame_sent s).
Proof.
  destruct s as [pf buf fi e ir nr wr nt bpm oc vn np nf nd fl vw].
  unfold module_inv, cursor_ok, frame_sent; state_simpl.
  unfold AUDIO_BUF_LEN, AUDIO_BUF_NUM_FRAMES, FRAME_SIZE.
  intros (H1 & H2 & H3 & H4 & H5) H0.
  rewrite Z.rem_mod_nonneg by lia.
  repeat split; try lia; try tauto; zmod.
Qed.

Lemma inv_set_wave_volume v s :
  module_inv s -> module_inv (set_wave_volume v s).
Proof. destruct s; unfold set_wave_volume; exact (fun H => H). Qed.

Lemma inv_add_notes new_notes s b s' out :
  module_inv s -> add_notes new_notes s = Ok (b, s', out) -> module_inv s'.
Proof.
  intros Hi. pose proof (add_notes_runs new_notes s) as R. cbv zeta in R.
  rewrite R; clear R.
  assert (H0 : module_inv (if wave_running s then stopped s else s)
               /\ wave_running (if wave_running s then stopped s else s)
                  = false).
  { destruct (wave_running s) eqn:E; [|auto].
    split; [apply inv_stopped; assumption|destruct s; reflexivity]. }
  destruct H0 as [H0 Hw].
  set (s0 := if wave_running s then stopped s else s) in *. clearbody s0.
  destruct (_ <? _)%nat; intros H; injection H as <- <- <-; [assumption|].
  destruct s0 as [pf buf fi e ir nr wr nt bpm oc vn np nf nd fl vw].
  unfold module_inv, cursor_ok in *; state_simpl; state_simpl_in H0.
  state_simpl_in Hw. subst wr.
  intuition discriminate.
Qed.

Lemma set_audio_buf_twice b1 b2 s :
  set_audio_buf b2 (set_audio_buf b1 s) = set_audio_buf b2 s.
Proof. destruct s; reflexivity. Qed.

Lemma for_loop_swap_pair n : forall i s,
  exists b, for_loop n i swap_pair s = set_audio_buf b s.
Proof.
  induction n as [|n IH]; intros i s; cbn [for_loop].
  - exists (audio_buf s). destruct s; reflexivity.
  - destruct (IH (i + 1) (swap_pair i s)) as [b Hb]. rewrite Hb.
    exists b. unfold swap_pair. rewrite !set_audio_buf_twice. reflexivity.
Qed.

Lemma file_read_open n f :
  let '(_, _, f1) := file_read n f in f_open f1 = f_open f.
Proof. unfold file_read. destruct (f_open f) eqn:E; cbn; auto. Qed.

Lemma inv_read_wave_frame s :
  module_inv s -> audio_buf_num_populated_frames s < WAVE_FRAMES_TO_BUFFER ->
  module_inv (read_wave_frame s).
Proof.
  intros Hi Hlt. unfold read_wave_frame.
  pose proof (file_read_open (Z.to_nat (FRAME_SIZE * BYTES_PER_SAMPLE))
                (file s)) as Ho.
  destruct (file_read _ (file s)) as [[n bs] f1].
  destruct (for_loop_swap_pair (Z.to_nat (FRAME_SIZE / 2)) 0
              (set_audio_buf
                 (store_bytes bs 0 (audio_buf_empty_idx (set_file f1 s))
                    (audio_buf (set_file f1 s))) (set_file f1 s)))
    as [b Hb].
  cbv zeta. rewrite Hb. clear Hb.
  destruct s as [pf buf fi e ir nr wr nt bpm oc vn np nf nd fl vw].
  unfold module_inv, cursor_ok in *. state_simpl_in Hi. state_simpl_in Ho.
  state_simpl_in Hlt.
  unfold WAVE_FRAMES_TO_BUFFER, AUDIO_BUF_LEN, AUDIO_BUF_NUM_FRAMES,
    FRAME_SIZE in *.
  destruct Hi as (H1 & H2 & H3 & H4 & H5).
  destruct (n =? _); state_simpl; rewrite ?Ho;
    try rewrite Z.rem_mod_nonneg by lia;
    repeat split; try lia; try tauto; zmod.
Qed.

Lemma inv_player_only s s' :
  player_only s s' -> notes_running s = true ->
  module_inv s -> module_inv s'.
Proof.
  unfold player_only, module_inv, cursor_ok.
  intros (E1 & E2 & E3 & E4 & E5 & E6 & E7 & E8 & E9) Hn
         (H1 & H2 & H3 & H4 & H5).
  rewrite E1, E3, E4, E6, E7, E8.
  repeat split; try lia; try tauto.
  destruct H5; [assumption|congruence].
Qed.

(** The render step keeps the frame count within the capacity. *)
Lemma inv_write_next_note P s :
  module_inv s -> notes_running s = true ->
  module_inv (write_next_note_to_audio_buf P s).
Proof.
  intros Hi Hn.
  assert (Hc : cursor_ok s) by apply Hi.
  destruct (write_next_note_spec P s Hc) as [Hdefer Hwrite].
  destruct (Z_le_gt_dec (avail_space s)
              (samples_of (next_note_duration_s s))) as [L|G].
  { rewrite (Hdefer L). assumption. }
  destruct (Hwrite ltac:(lia)) as (C & Fl & Ff & Fe & Fr). clear Hdefer Hwrite.
  set (s' := write_next_note_to_audio_buf P s) in *. clearbody s'.
  unfold ring_write_only in Fr.
  destruct Fr as (E1 & E2 & E3 & E4 & E5 & _ & _ & _ & _ & _ & _ & E6 & _).
  replace (notes_running (set_next_note_parsed false s))
    with (notes_running s) in E3 by (destruct s; reflexivity).
  replace (wave_running (set_next_note_parsed false s))
    with (wave_running s) in E4 by (destruct s; reflexivity).
  replace (audio_buf_frame_idx_to_send (set_next_note_parsed false s))
    with (audio_buf_frame_idx_to_send s) in E1 by (destruct s; reflexivity).
  replace (file (set_next_note_parsed false s))
    with (file s) in E6 by (destruct s; reflexivity).
  replace (notes (set_next_note_parsed false s))
    with (notes s) in E5 by (destruct s; reflexivity).
  unfold module_inv in *. destruct Hi as (H1 & H2 & H3 & H4 & H5).
  rewrite E1, E3, E4, E5, E6.
  split; [|split; [assumption|split; [assumption|split; assumption]]].
  unfold fill, avail_space, cursor_ok, AUDIO_BUF_LEN, AUDIO_BUF_NUM_FRAMES,
    FRAME_SIZE in *.
  zmod.
Qed.

Lemma inv_loop P s s' out :
  module_inv s -> loop P s = Ok (tt, s', out) -> module_inv s'.
Proof.
  intros Hi. destruct (notes_running s) eqn:Hn.
  - rewrite (loop_notes_runs P s Hn). unfold loop_parse, loop_render.
    assert (H1 : forall s1, player_only s s1 ->
              forall s2 o,
                (let s2 := if next_note_parsed s1
                           then write_next_note_to_audio_buf P s1 else s1 in
                 if playback_over s2 then Ok (tt, stopped s2, stop_calls s2)
                 else Ok (tt, s2, [])) = Ok (tt, s2, o) ->
                module_inv s2).
    { intros s1 Hp s2 o. cbv zeta.
      assert (Hn1 : notes_running s1 = true)
        by (destruct Hp as (_ & _ & _ & _ & _ & -> & _); assumption).
      assert (Hi1 : module_inv s1) by (eapply inv_player_only; eassumption).
      assert (Hi2 : module_inv (if next_note_parsed s1
                                then write_next_note_to_audio_buf P s1
                                else s1)).
      { destruct (next_note_parsed s1); [apply inv_write_next_note|]; auto. }
      destruct (playback_over _); intros H; injection H as <- _;
        [apply inv_stopped|]; assumption. }
    destruct (_ && _).
    + pose proof (parse_next_note_frame P s) as Hf.
      destruct (parse_next_note P s) as [s1| |]; try discriminate.
      apply H1, Hf.
    + apply H1, player_only_refl.
  - rewrite (loop_wave_runs P s Hn).
    destruct (wave_running s); [|intros H; injection H as <- _; assumption].
    destruct (_ && _) eqn:Ea.
    + intros H; injection H as <- _. apply inv_read_wave_frame; [assumption|].
      apply andb_prop in Ea. destruct Ea as [_ Ea]. lia.
    + destruct (_ <=? _); intros H; injection H as <- _;
        [apply inv_stopped|]; assumption.
Qed.

Lemma inv_play_sound_file P filename s b s' out :
  module_inv s -> play_sound_file P filename s = Ok (b, s', out) ->
  module_inv s'.
Proof.
  intros Hi. pose proof (play_sound_file_runs P filename s) as R.
  destruct (file_read 44 (SD_open P filename)) as [[n h] f1].
  rewrite R; clear R. apply inv_stopped in Hi.
  destruct (stopped s) as [pf buf fi e ir nr wr nt bpm oc vn np nf nd fl vw]
    eqn:Es.
  assert (nr = false /\ nt = EmptyString) as [-> ->].
  { destruct s; unfold stopped in Es; injection Es; intros; subst; auto. }
  unfold module_inv, cursor_ok in *. state_simpl_in Hi.
  destruct (header_ok n h); intros H; injection H as <- <- <-; state_simpl;
    cbn [file_close f_open]; intuition discriminate.
Qed.

Theorem reachable_inv P s : reachable P s -> module_inv s.
Proof.
  induction 1 as [ok|s o s' out Hr IH Hstep]; [apply inv_setup|].
  destruct o; cbn [run_op] in Hstep.
  - unfold ignore, bind, ret in Hstep.
    destruct (add_notes new_notes s) as [[[b s1] o1]| |] eqn:E;
      try discriminate.
    injection Hstep as <- _. eapply inv_add_notes; eassumption.
  - eapply inv_loop; eassumption.
  - unfold modify in Hstep. injection Hstep as <- _.
    apply inv_set_wave_volume; assumption.
  - rewrite stop_runs in Hstep. injection Hstep as <- _.
    apply inv_stopped; assumption.
  - unfold ignore, bind, ret in Hstep.
    destruct (play_sound_file P filename s) as [[[b s1] o1]| |] eqn:E;
      try discriminate.
    injection Hstep as <- _. eapply inv_play_sound_file; eassumption.
  - rewrite I2Sout_TXdone_runs in Hstep.
    destruct (Z.geb_spec (audio_buf_num_populated_frames s) 0);
      injection Hstep as <- _; [apply inv_frame_sent; [assumption|lia]|].
    assumption.
Qed.

(* ------------------------------------------------------------------------ *)
(** ** The frame count under interleaving *)

Lemma read_wave_frame_ring s :
  let s' := read_wave_frame s in
  (audio_buf_num_populated_frames s' = audio_buf_num_populated_frames s
   /\ audio_buf_empty_idx s' = audio_buf_empty_idx s)
  \/ (audio_buf_num_populated_frames s'
      = audio_buf_num_populated_frames s + 1
      /\ audio_buf_empty_idx s'
         = Z.rem (audio_buf_empty_idx s + FRAME_SIZE) AUDIO_BUF_LEN).
Proof.
  unfold read_wave_frame.
  destruct (file_read _ (file s)) as [[n bs] f1].
  destruct (for_loop_swap_pair (Z.to_nat (FRAME_SIZE / 2)) 0
              (set_audio_buf
                 (store_bytes bs 0 (audio_buf_empty_idx (set_file f1 s))
                    (audio_buf (set_file f1 s))) (set_file f1 s)))
    as [b Hb].
  cbv zeta. rewrite Hb. clear Hb.
  destruct s as [pf buf fi e ir nr wr nt bpm oc vn np nf nd fl vw].
  destruct (n =? _); state_simpl; [right|left]; split; reflexivity.
Qed.

Lemma ring_step_inv c c' : ring_step c c' -> ring_inv c -> ring_inv c'.
Proof.
  unfold ring_inv.
  intros [s Hgt|s val r|s Hlt|s r s' out Htx]; cbn [fst snd];
    intros (Hc & Hlo & Hfill).
  - split; [assumption|]. split; [assumption|].
    unfold avail_space, fill, cursor_ok, AUDIO_BUF_LEN, AUDIO_BUF_NUM_FRAMES,
      FRAME_SIZE in *. zmod.
  - destruct (put_sample_spec val s Hc) as (Hc' & Hf' & _ & _).
    split; [assumption|].
    unfold fill, cursor_ok, AUDIO_BUF_LEN, AUDIO_BUF_NUM_FRAMES,
      FRAME_SIZE in *. zmod.
  - pose proof (read_wave_frame_ring s) as H. cbv zeta in H.
    unfold fill, cursor_ok, WAVE_FRAMES_TO_BUFFER, AUDIO_BUF_LEN,
      AUDIO_BUF_NUM_FRAMES, FRAME_SIZE in *.
    destruct H as [[-> ->]|[-> ->]]; [repeat split; lia|].
    rewrite Z.rem_mod_nonneg by lia. repeat split; zmod.
  - rewrite I2Sout_TXdone_runs in Htx.
    destruct (Z.geb_spec (audio_buf_num_populated_frames s) 0) as [Hge|Hneg];
      injection Htx as <- _; [|auto].
    destruct s as [pf buf fi e ir nr wr nt bpm oc vn np nf nd fl vw].
    unfold fill, cursor_ok, frame_sent in *. state_simpl.
    state_simpl_in Hc. state_simpl_in Hlo. state_simpl_in Hfill.
    state_simpl_in Hge. unfold FRAME_SIZE in *. repeat split; lia.
Qed.

Lemma ring_run_inv c c' : ring_run c c' -> ring_inv c -> ring_inv c'.
Proof. induction 1; eauto using ring_step_inv. Qed.

(** However the transmit-done events fall between the samples, from an
    empty buffer the frame count stays between -1 and the capacity minus
    one. *)
Lemma interleaved_frames_bounds s0 s r :
  cursor_ok s0 -> audio_buf_num_populated_frames s0 = 0 ->
  ring_run (s0, O) (s, r) ->
  -1 <= audio_buf_num_populated_frames s <= AUDIO_BUF_NUM_FRAMES - 1.
Proof.
  intros Hc H0 Hrun.
  assert (Hi : ring_inv (s0, O)).
  { unfold ring_inv, fill, cursor_ok, AUDIO_BUF_LEN, AUDIO_BUF_NUM_FRAMES,
      FRAME_SIZE in *. cbn [fst snd]. rewrite H0. repeat split; zmod. }
  apply (ring_run_inv _ _ Hrun) in Hi. destruct Hi as (C & Hlo & Hf).
  cbn [fst snd] in *.
  unfold fill, cursor_ok, AUDIO_BUF_LEN, AUDIO_BUF_NUM_FRAMES,
    FRAME_SIZE in *. zmod.
Qed.

(** The sample loops of the renderer are runs of these steps. *)
Lemma for_loop_is_run n : forall i (val : Z -> Z) s,
  ring_run (s, n) (for_loop n i (fun k => put_sample (val k)) s, O).
Proof.
  induction n as [|n IH]; intros i val s; cbn [for_loop].
  - apply run_done.
  - eapply run_step; [apply step_sample|apply IH].
Qed.

(* ======================================================================== *)
(** * The properties of the specification, C1 to C10 *)

(* ------------------------------------------------------------------------ *)
(** ** Ring buffer and output task *)

(** In every reachable state the frame count is between -1 and the capacity
    minus one. *)
Lemma populated_frames_bounds P s :
  reachable P s ->
  -1 <= audio_buf_num_populated_frames s <= AUDIO_BUF_NUM_FRAMES - 1.
Proof. intros H. apply (reachable_inv P s H). Qed.

(** What the output task does on a transmit-done event, by the frame
    count. *)
Lemma I2Sout_TXdone_cases s :
  (audio_buf_num_populated_frames s < 0 -> I2Sout_TXdone s = Ok (tt, s, []))
  /\ (0 <= audio_buf_num_populated_frames s ->
      I2Sout_TXdone s =
      Ok (tt, frame_sent s,
          [I2sWrite (frame_at (audio_buf s)
                              (audio_buf_frame_idx_to_send s))])).
Proof.
  rewrite I2Sout_TXdone_runs.
  destruct (Z.geb_spec (audio_buf_num_populated_frames s) 0); split;
    intros; (reflexivity || lia).
Qed.

(** C1.  In every reachable state the frame count is at most the capacity
    minus one and at least -1; it does go negative: a transmit-done event
    served right after [setup], with no frame in the buffer, leaves it at
    -1. *)
Theorem C1_populated_frames_reaches_minus_one :
  forall P,
    (forall s, reachable P s ->
       -1 <= audio_buf_num_populated_frames s <= AUDIO_BUF_NUM_FRAMES - 1)
    /\ (let s := setup true boot_state in
        reachable P s
        /\ audio_buf_num_populated_frames s = 0
        /\ exists s' out,
             run_op P Op_TXdone s = Ok (tt, s', out)
             /\ reachable P s'
             /\ audio_buf_num_populated_frames s' = -1).
Proof.
  intros P. split; [exact (populated_frames_bounds P)|].
  intros s. split; [apply reach_setup|]. split; [reflexivity|].
  exists (frame_sent s), [I2sWrite (frame_at (audio_buf s) 0)].
  assert (E : run_op P Op_TXdone s
              = Ok (tt, frame_sent s, [I2sWrite (frame_at (audio_buf s) 0)])).
  { cbn [run_op]. rewrite I2Sout_TXdone_runs. reflexivity. }
  split; [exact E|]. split; [|reflexivity].
  eapply reach_op; [apply reach_setup|exact E].
Qed.

(** C2.  With no populated frame, a transmit-done event is not a no-op: the
    output task hands the frame at the read cursor to [i2s_write], advances
    the read cursor and decrements the frame count to -1. *)
Theorem C2_TXdone_with_no_frame_sends_one (s : state) :
  audio_buf_num_populated_frames s = 0 ->
  exists s',
    I2Sout_TXdone s =
    Ok (tt, s',
        [I2sWrite (frame_at (audio_buf s) (audio_buf_frame_idx_to_send s))])
    /\ audio_buf_num_populated_frames s' = -1
    /\ audio_buf_frame_idx_to_send s'
       = Z.rem (audio_buf_frame_idx_to_send s + 1) AUDIO_BUF_NUM_FRAMES.
Proof.
  intros H0. exists (frame_sent s).
  destruct (I2Sout_TXdone_cases s) as [_ ->]; [|lia].
  split; [reflexivity|].
  destruct s as [pf buf fi e ir nr wr nt bpm oc vn np nf nd fl vw].
  cbn in H0. subst pf. split; reflexivity.
Qed.

Lemma C2_witness :
  audio_buf_num_populated_frames ready = 0
  /\ exists s',
       I2Sout_TXdone ready =
       Ok (tt, s',
           [I2sWrite (frame_at (audio_buf ready)
                               (audio_buf_frame_idx_to_send ready))])
       /\ audio_buf_num_populated_frames s' = -1
       /\ audio_buf_frame_idx_to_send s'
          = Z.rem (audio_buf_frame_idx_to_send ready + 1)
                  AUDIO_BUF_NUM_FRAMES.
Proof.
  split; [reflexivity|].
  apply (C2_TXdone_with_no_frame_sends_one ready). reflexivity.
Defined.

(* ------------------------------------------------------------------------ *)
(** ** [stop] *)

(** C9.  In every reachable state [stop] returns, a second [stop] leaves the
    variables as the first left them, and after it the pending text is
    empty, the cursors and the frame count are zero, the file is closed and
    the session is idle with the I2S output halted. *)
Theorem C9_stop_idempotent (P : platform) (s : state) :
  reachable P s ->
  exists s1 out1 out2,
    stop s = Ok (tt, s1, out1)
    /\ stop s1 = Ok (tt, s1, out2)
    /\ notes s1 = EmptyString
    /\ audio_buf_num_populated_frames s1 = 0
    /\ audio_buf_frame_idx_to_send s1 = 0
    /\ audio_buf_empty_idx s1 = 0
    /\ f_open (file s1) = false
    /\ idle s1
    /\ i2s_running s1 = false.
Proof.
  intros Hr. apply reachable_inv in Hr.
  destruct Hr as (_ & _ & _ & Hf & _).
  exists (stopped s), (stop_calls s), (stop_calls (stopped s)).
  split; [apply stop_runs|].
  split; [rewrite stop_runs, stopped_stopped; reflexivity|].
  destruct s as [pf buf fi e ir nr wr nt bpm oc vn np nf nd fl vw].
  unfold idle, stopped; state_simpl. state_simpl_in Hf.
  repeat split.
  destruct wr; [reflexivity|].
  destruct (f_open fl); [discriminate (Hf eq_refl)|reflexivity].
Qed.

Lemma C9_witness :
  exists s1 out1 out2,
    stop ready = Ok (tt, s1, out1)
    /\ stop s1 = Ok (tt, s1, out2)
    /\ notes s1 = EmptyString
    /\ audio_buf_num_populated_frames s1 = 0
    /\ audio_buf_frame_idx_to_send s1 = 0
    /\ audio_buf_empty_idx s1 = 0
    /\ f_open (file s1) = false
    /\ idle s1
    /\ i2s_running s1 = false.
Proof.
  apply (C9_stop_idempotent example_platform ready). apply reach_setup.
Defined.

(* ------------------------------------------------------------------------ *)
(** ** Starting a wave file *)

Lemma le16_firstn n bs i :
  (i + 1 < n)%nat -> le16 (firstn n bs) i = le16 bs i.
Proof.
  intros H. unfold le16. rewrite !nth_firstn.
  destruct (Nat.ltb_spec i n); [|lia].
  destruct (Nat.ltb_spec (i + 1) n); [|lia]. reflexivity.
Qed.

Lemma le32_firstn n bs i :
  (i + 3 < n)%nat -> le32 (firstn n bs) i = le32 bs i.
Proof. intros H. unfold le32. rewrite !le16_firstn by lia. reflexivity. Qed.

Lemma play_sound_file_wrong_format (P : platform) (s : state)
    (filename : string) (data : list byte) :
  sd_card P filename = Some data ->
  (44 <= List.length data)%nat ->
  le16 data 22 <> 1 \/ le32 data 24 <> SAMPLE_RATE ->
  exists s' out,
    play_sound_file P filename s = Ok (false, s', out)
    /\ f_open (file s') = false
    /\ idle s'
    /\ i2s_running s' = false
    /\ ~ In I2sStart out.
Proof.
  intros Hsd Hlen Hbad.
  pose proof (play_sound_file_runs P filename s) as R.
  unfold SD_open in R. rewrite Hsd in R.
  unfold file_read, file_remaining in R. cbn [f_open f_pos f_data skipn] in R.
  rewrite R; clear R.
  assert (Hh : header_ok (Z.of_nat (List.length (firstn 44 data)))
                 (firstn 44 data) = false).
  { unfold header_ok. rewrite le16_firstn, le32_firstn by lia.
    destruct Hbad as [Hc|Hr].
    - apply Z.eqb_neq in Hc. rewrite Hc, andb_false_r. reflexivity.
    - apply Z.eqb_neq in Hr. rewrite Hr, andb_false_r. reflexivity. }
  rewrite Hh. eexists _, _. split; [reflexivity|].
  destruct s as [pf buf fi e ir nr wr nt bpm oc vn np nf nd fl vw].
  unfold idle, stopped, stop_calls; state_simpl. repeat split.
  destruct ir; cbn; intuition discriminate.
Qed.

(** C8.  A file whose header declares a channel count other than 1 or a
    sample rate other than 16000 Hz is refused: [play_sound_file] returns
    false, the file is closed, the session is idle and the I2S output is not
    started. *)
Theorem C8_wrong_format_rejected (P : platform) (s : state)
    (filename : string) (data : list byte) :
  sd_card P filename = Some data ->
  (44 <= List.length data)%nat ->
  le16 data 22 <> 1 \/ le32 data 24 <> SAMPLE_RATE ->
  exists s' out,
    play_sound_file P filename s = Ok (false, s', out)
    /\ f_open (file s') = false
    /\ idle s'
    /\ i2s_running s' = false
    /\ ~ In I2sStart out.
Proof. exact (play_sound_file_wrong_format P s filename data). Qed.

Lemma C8_witness :
  exists s' out,
    play_sound_file example_platform "stereo.wav" ready = Ok (false, s', out)
    /\ f_open (file s') = false
    /\ idle s'
    /\ i2s_running s' = false
    /\ ~ In I2sStart out.
Proof.
  apply (C8_wrong_format_rejected example_platform ready "stereo.wav"
           (wave_header 2 16000 ++ repeat x01 4096)).
  - reflexivity.
  - vm_compute. lia.
  - left. vm_compute. discriminate.
Defined.

(** The same for a file that declares 44100 Hz. *)
Example wrong_rate_rejected :
  exists s' out,
    play_sound_file example_platform "cd.wav" ready = Ok (false, s', out)
    /\ idle s' /\ f_open (file s') = false.
Proof.
  destruct (play_sound_file_wrong_format example_platform ready "cd.wav"
              (wave_header 1 44100 ++ repeat x01 4096))
    as (s' & out & H1 & H2 & H3 & _).
  - reflexivity.
  - vm_compute. lia.
  - right. vm_compute. discriminate.
  - exists s', out. auto.
Qed.

(* ------------------------------------------------------------------------ *)
(** ** Submitting notes beyond the capacity of the pending text *)

Lemma add_notes_over_capacity P s new_notes :
  reachable P s ->
  (MAX_NOTES_IN_BUFFER < String.length (notes s) + String.length new_notes)%nat ->
  exists s' out,
    add_notes new_notes s = Ok (false, s', out)
    /\ (wave_running s = false -> s' = s /\ out = [])
    /\ (wave_running s = true -> stop s = Ok (tt, s', out))
    /\ (notes s <> EmptyString -> s' = s /\ out = []).
Proof.
  intros Hr Hover. apply reachable_inv in Hr.
  destruct Hr as (_ & _ & _ & _ & Hw).
  pose proof (add_notes_runs new_notes s) as R. cbv zeta in R.
  destruct (wave_running s) eqn:Ew.
  - destruct (Hw eq_refl) as [_ Hn]. rewrite Hn in Hover.
    replace (notes (stopped s)) with EmptyString in R
      by (destruct s; reflexivity).
    apply Nat.ltb_lt in Hover. rewrite Hover in R.
    exists (stopped s), (stop_calls s). split; [exact R|].
    split; [discriminate|]. split; [intros _; apply stop_runs|].
    congruence.
  - apply Nat.ltb_lt in Hover. rewrite Hover in R.
    exists s, []. split; [exact R|]. split; [auto|].
    split; [discriminate|auto].
Qed.

(** C7, as the code has it.  A submission that would take the pending text
    beyond 4000 characters is rejected.  When no wave file is played (in
    particular whenever some text is pending) the rejected call changes
    nothing; when a wave file is played, the call has stopped it before
    it checks the length. *)
Theorem C7_add_notes_over_capacity (P : platform) (s : state)
    (new_notes : string) :
  reachable P s ->
  (MAX_NOTES_IN_BUFFER < String.length (notes s) + String.length new_notes)%nat ->
  exists s' out,
    add_notes new_notes s = Ok (false, s', out)
    /\ (wave_running s = false -> s' = s /\ out = [])
    /\ (wave_running s = true -> stop s = Ok (tt, s', out))
    /\ (notes s <> EmptyString -> s' = s /\ out = []).
Proof. exact (add_notes_over_capacity P s new_notes). Qed.

Lemma nearly_full_reachable : reachable example_platform nearly_full.
Proof.
  eapply (reach_op example_platform ready
            (Op_add_notes (repeat_char "C" 3998)));
    [apply reach_setup|].
  vm_compute. reflexivity.
Qed.

(** Pending text of 3999 characters and a new text of 2. *)
Lemma C7_witness :
  String.length (notes nearly_full) = 3999%nat
  /\ exists s' out,
       add_notes "CC" nearly_full = Ok (false, s', out)
       /\ (wave_running nearly_full = false -> s' = nearly_full /\ out = [])
       /\ (wave_running nearly_full = true ->
           stop nearly_full = Ok (tt, s', out))
       /\ (notes nearly_full <> EmptyString -> s' = nearly_full /\ out = []).
Proof.
  split; [vm_compute; reflexivity|].
  apply (C7_add_notes_over_capacity example_platform nearly_full "CC").
  - exact nearly_full_reachable.
  - vm_compute. lia.
Defined.

Lemma wave_playing_reachable : reachable example_platform wave_playing.
Proof.
  eapply (reach_op example_platform ready (Op_play_sound_file "mono.wav"));
    [apply reach_setup|].
  vm_compute. reflexivity.
Qed.

(** C7 fails while a wave file is played: the rejected call stops the
    playback and closes the file. *)
Lemma C7_counterexample :
  let new_notes := repeat_char "C" 4001 in
  reachable example_platform wave_playing
  /\ (MAX_NOTES_IN_BUFFER < String.length (notes wave_playing)
                            + String.length new_notes)%nat
  /\ exists s' out,
       add_notes new_notes wave_playing = Ok (false, s', out)
       /\ wave_running wave_playing = true /\ wave_running s' = false
       /\ i2s_running wave_playing = true /\ i2s_running s' = false
       /\ f_open (file wave_playing) = true /\ f_open (file s') = false
       /\ out = [I2sStop; I2sZeroDmaBuffer].
Proof.
  intros new_notes. split; [exact wave_playing_reachable|].
  split; [vm_compute; lia|].
  exists (stopped wave_playing), [I2sStop; I2sZeroDmaBuffer].
  split; [vm_compute; reflexivity|].
  by_evaluation.
Qed.

(* ------------------------------------------------------------------------ *)
(** ** Amplitude of a note *)

Lemma Qtrunc_floor q : (0 <= q)%Q -> Qtrunc q = Qfloor q.
Proof.
  destruct q as [n d]. unfold Qle. cbn. intros H.
  unfold Qtrunc. cbn [Qnum Qden]. apply Z.quot_div_nonneg; lia.
Qed.

Lemma Qfloor_close a b :
  (a < b + 1)%Q -> (b < a + 1)%Q ->
  Qfloor b - 1 <= Qfloor a <= Qfloor b + 1.
Proof.
  intros H1 H2.
  destruct (Qfloor_bounds a) as [A1 A2]. destruct (Qfloor_bounds b) as [B1 B2].
  assert (L1 : (inject_Z (Qfloor a) < inject_Z (Qfloor b + 2))%Q).
  { rewrite inject_Z_plus. change (inject_Z 2) with 2%Q. lra. }
  assert (L2 : (inject_Z (Qfloor b) < inject_Z (Qfloor a + 2))%Q).
  { rewrite inject_Z_plus. change (inject_Z 2) with 2%Q. lra. }
  rewrite <- Zlt_Qlt in L1, L2. lia.
Qed.

Lemma Qabs_bounds x e :
  (Qabs x <= e)%Q -> (- e <= x)%Q /\ (x <= e)%Q.
Proof. intros H. apply Qabs_Qle_condition in H. exact H. Qed.

Lemma Qabs_lt_of x e : (- e < x)%Q -> (x < e)%Q -> (Qabs x < e)%Q.
Proof. intros. apply Qabs_Qlt_condition. split; assumption. Qed.

(** [16000 * (volume / 10.0)] in double precision, truncated, is
    [1600 * volume] for the volumes the module admits. *)
Lemma base_amplitude v :
  0 <= v <= 10 -> Qtrunc (f64 (16000 * f64 (Z2Q v / 10))) = 1600 * v.
Proof.
  intros H.
  assert (C : v = 0 \/ v = 1 \/ v = 2 \/ v = 3 \/ v = 4 \/ v = 5 \/ v = 6
              \/ v = 7 \/ v = 8 \/ v = 9 \/ v = 10) by lia.
  repeat (destruct C as [->|C]; [vm_compute; reflexivity|]).
  subst v. vm_compute. reflexivity.
Qed.

Lemma Qltb_lt a b : Qltb a b = true <-> (a < b)%Q.
Proof.
  unfold Qltb. rewrite negb_true_iff. split.
  - intros H. apply Qnot_le_lt. intros L. apply Qle_bool_iff in L. congruence.
  - intros H. destruct (Qle_bool b a) eqn:E; [|reflexivity].
    apply Qle_bool_iff in E. apply Qlt_not_le in H. contradiction.
Qed.

Lemma Qltb_ge a b : Qltb a b = false <-> (b <= a)%Q.
Proof.
  unfold Qltb. rewrite negb_false_iff. apply Qle_bool_iff.
Qed.

(** The scaling of the middle band, in single precision, is within a
    hundredth of the exact quotient. *)
Lemma middle_band_error (a : Z) (f : Q) :
  0 <= a <= 16000 -> (800 <= f)%Q -> (f < 1100)%Q ->
  let r := f32 (f32 (f32 (Z2Q a) * f32 (f - 800)) / 300) in
  let x := (Z2Q a * (f - 800) / 300)%Q in
  (0 <= r)%Q /\ (0 <= x)%Q
  /\ (r < x + (1 # 100))%Q /\ (x < r + (1 # 100))%Q.
Proof.
  intros Ha H1 H2. cbv zeta. unfold f32.
  assert (HA : (0 <= Z2Q a)%Q /\ (Z2Q a <= 16000)%Q).
  { unfold Z2Q. split.
    - change 0%Q with (inject_Z 0). rewrite <- Zle_Qle. lia.
    - change 16000%Q with (inject_Z 16000). rewrite <- Zle_Qle. lia. }
  destruct HA as [A0 A1].
  assert (EA : (fround 24 (Z2Q a) == Z2Q a)%Q).
  { apply (fround_int 24 ltac:(lia)). change (2 ^ 24) with 16777216. lia. }
  set (d0 := (f - 800)%Q).
  assert (D0 : (0 <= d0)%Q) by (unfold d0; lra).
  assert (D1 : (d0 < 300)%Q) by (unfold d0; lra).
  clearbody d0.
  pose proof (fround_nonneg 24 ltac:(lia) d0 D0) as P1.
  pose proof (fround_error 24 d0 9) as E1.
  change (2 ^ (9 - 24 - 1))%Q with (1 # 65536)%Q in E1.
  change (2 ^ 9)%Q with 512%Q in E1.
  assert (T1 : (Qabs d0 < 512)%Q) by (apply Qabs_lt_of; lra).
  apply E1, Qabs_bounds in T1. destruct T1 as [E1a E1b]. clear E1.
  set (d1 := fround 24 d0) in *. clearbody d1.
  set (p0 := (fround 24 (Z2Q a) * d1)%Q).
  assert (Pp : (p0 == Z2Q a * d1)%Q) by (unfold p0; rewrite EA; reflexivity).
  clearbody p0.
  assert (P0 : (0 <= p0)%Q) by (rewrite Pp; nra).
  assert (P0u : (p0 < 8388608)%Q) by (rewrite Pp; nra).
  pose proof (fround_nonneg 24 ltac:(lia) p0 P0) as P2.
  pose proof (fround_error 24 p0 23) as E2.
  change (2 ^ (23 - 24 - 1))%Q with (1 # 4)%Q in E2.
  change (2 ^ 23)%Q with 8388608%Q in E2.
  assert (T2 : (Qabs p0 < 8388608)%Q) by (apply Qabs_lt_of; lra).
  apply E2, Qabs_bounds in T2. destruct T2 as [E2a E2b]. clear E2.
  set (p1 := fround 24 p0) in *. clearbody p1.
  set (q0 := (p1 / 300)%Q).
  assert (Qx : (q0 * 300 == p1)%Q) by (unfold q0; field).
  clearbody q0.
  assert (Q0 : (0 <= q0)%Q) by lra.
  assert (Q0u : (q0 < 32768)%Q) by lra.
  pose proof (fround_nonneg 24 ltac:(lia) q0 Q0) as P3.
  pose proof (fround_error 24 q0 15) as E3.
  change (2 ^ (15 - 24 - 1))%Q with (1 # 1024)%Q in E3.
  change (2 ^ 15)%Q with 32768%Q in E3.
  assert (T3 : (Qabs q0 < 32768)%Q) by (apply Qabs_lt_of; lra).
  apply E3, Qabs_bounds in T3. destruct T3 as [E3a E3b]. clear E3.
  set (r := fround 24 q0) in *. clearbody r.
  set (x := (Z2Q a * d0 / 300)%Q).
  assert (X : (x * 300 == Z2Q a * d0)%Q) by (unfold x; field).
  clearbody x.
  assert (G1 : (p0 - Z2Q a * d0 <= 1 # 4)%Q) by (rewrite Pp; nra).
  assert (G2 : (- (1 # 4) <= p0 - Z2Q a * d0)%Q) by (rewrite Pp; nra).
  assert (G3 : (0 <= Z2Q a * d0)%Q) by nra.
  split; [exact P3|]. split; [lra|]. split; lra.
Qed.

(** The amplitude, band by band, for the volumes the module admits. *)
Lemma note_amplitude_bands (v : Z) (f : Q) :
  0 <= v <= 10 ->
  ((f < 800)%Q -> note_amplitude v f = 2 * (1600 * v))
  /\ ((800 <= f)%Q -> (f < 1100)%Q ->
      note_amplitude v f
      = Qtrunc (f32 (f32 (f32 (Z2Q (1600 * v)) * f32 (f - 800)) / 300))
      /\ Qtrunc (Z2Q (1600 * v) * (f - 800) / 300) - 1
         <= note_amplitude v f
         <= Qtrunc (Z2Q (1600 * v) * (f - 800) / 300) + 1)
  /\ ((1100 <= f)%Q -> note_amplitude v f = 1600 * v).
Proof.
  intros Hv. unfold note_amplitude. rewrite (base_amplitude v Hv).
  split; [|split].
  - intros H. apply Qltb_lt in H. rewrite H. lia.
  - intros H H0. apply Qltb_ge in H as H'. apply Qltb_lt in H0 as H0'.
    rewrite H', H0'. split; [reflexivity|].
    destruct (middle_band_error (1600 * v) f ltac:(lia) H H0)
      as (R0 & X0 & R1 & R2).
    cbv zeta in R0, X0, R1, R2.
    rewrite (Qtrunc_floor _ R0), (Qtrunc_floor _ X0).
    apply Qfloor_close; lra.
  - intros H. assert (H' : (800 <= f)%Q).
    { eapply Qle_trans; [|exact H]. discriminate. }
    apply Qltb_ge in H, H'. rewrite H, H'. reflexivity.
Qed.

(** C5, as the code has it.  For a volume [v] from 0 to 10 the base
    amplitude [16000 * (v / 10)], computed in double precision and
    truncated, is [1600 * v].  Below 800 Hz the amplitude is the base
    doubled; from 800 Hz to 1100 Hz it is the base itself (not its double)
    scaled by [(f - 800) / 300], the product and the quotient being
    computed in single precision and the result truncated, which is within
    one of the exact quotient truncated; from 1100 Hz on it is the base. *)
Theorem C5_amplitude_by_frequency (v : Z) (f : Q) :
  0 <= v <= 10 ->
  ((f < 800)%Q -> note_amplitude v f = 2 * (1600 * v))
  /\ ((800 <= f)%Q -> (f < 1100)%Q ->
      note_amplitude v f
      = Qtrunc (f32 (f32 (f32 (Z2Q (1600 * v)) * f32 (f - 800)) / 300))
      /\ Qtrunc (Z2Q (1600 * v) * (f - 800) / 300) - 1
         <= note_amplitude v f
         <= Qtrunc (Z2Q (1600 * v) * (f - 800) / 300) + 1)
  /\ ((1100 <= f)%Q -> note_amplitude v f = 1600 * v).
Proof. exact (note_amplitude_bands v f). Qed.

(** Volume 7 at the single-precision frequency 16436809 / 16384 Hz, about
    1003.2 Hz. *)
Lemma C5_witness :
  (((16436809 # 16384) < 800)%Q ->
   note_amplitude 7 (16436809 # 16384) = 2 * (1600 * 7))
  /\ ((800 <= (16436809 # 16384))%Q -> ((16436809 # 16384) < 1100)%Q ->
      note_amplitude 7 (16436809 # 16384)
      = Qtrunc (f32 (f32 (f32 (Z2Q (1600 * 7))
                          * f32 ((16436809 # 16384) - 800)) / 300))
      /\ Qtrunc (Z2Q (1600 * 7) * ((16436809 # 16384) - 800) / 300) - 1
         <= note_amplitude 7 (16436809 # 16384)
         <= Qtrunc (Z2Q (1600 * 7) * ((16436809 # 16384) - 800) / 300) + 1)
  /\ ((1100 <= (16436809 # 16384))%Q ->
      note_amplitude 7 (16436809 # 16384) = 1600 * 7).
Proof. apply (C5_amplitude_by_frequency 7 (16436809 # 16384)). lia. Defined.

(** There the rounding shows: the code gives 7587 where the exact quotient,
    truncated, is 7586. *)
Example amplitude_in_single_precision :
  note_amplitude 7 (16436809 # 16384) = 7587
  /\ Qtrunc (Z2Q (1600 * 7) * ((16436809 # 16384) - 800) / 300) = 7586.
Proof. split; vm_compute; reflexivity. Qed.

(** C5 fails in the middle band: at volume 5 and 950 Hz the code gives
    4000, half the base amplitude 8000, where the doubled value scaled by
    one half would be 8000. *)
Lemma C5_counterexample :
  note_amplitude 5 950 = 4000
  /\ (amplitude_as_specified 5 950 == 8000)%Q
  /\ ~ (Z2Q (note_amplitude 5 950) == amplitude_as_specified 5 950)%Q.
Proof.
  by_evaluation.
Qed.

(* ------------------------------------------------------------------------ *)
(** ** Deferring or writing the parsed note *)

Lemma lxor_1_inj a b : Z.lxor a 1 = Z.lxor b 1 -> a = b.
Proof.
  intros H. apply (f_equal (fun x => Z.lxor x 1)) in H.
  rewrite !Z.lxor_assoc, Z.lxor_nilpotent, !Z.lxor_0_r in H. exact H.
Qed.

Lemma put_sample_buf v s j :
  audio_buf (put_sample v s) j
  = if j =? Z.lxor (audio_buf_empty_idx s) 1 then v else audio_buf s j.
Proof.
  destruct s as [pf buf fi e ir nr wr nt bpm oc vn np nf nd fl vw].
  unfold put_sample. state_simpl.
  destruct (_ =? 0); state_simpl; reflexivity.
Qed.

Lemma for_loop_keeps n : forall i (f : Z -> Z) s j,
  cursor_ok s ->
  (forall m, 0 <= m < Z.of_nat n ->
     j <> Z.lxor ((audio_buf_empty_idx s + m) mod AUDIO_BUF_LEN) 1) ->
  audio_buf (for_loop n i (fun k => put_sample (f k)) s) j = audio_buf s j.
Proof.
  induction n as [|n IH]; intros i f s j Hc Hj; [reflexivity|].
  cbn [for_loop].
  destruct (put_sample_spec (f i) s Hc) as (Hc1 & _ & He1 & _).
  rewrite IH; [|exact Hc1|].
  - rewrite put_sample_buf.
    destruct (Z.eqb_spec j (Z.lxor (audio_buf_empty_idx s) 1)) as [E|]; auto.
    exfalso. apply (Hj 0); [lia|].
    rewrite Z.add_0_r, Z.mod_small by exact Hc. exact E.
  - intros m Hm. rewrite He1, Zplus_mod_idemp_l.
    replace (audio_buf_empty_idx s + 1 + m)
      with (audio_buf_empty_idx s + (m + 1)) by lia.
    apply Hj. lia.
Qed.

Lemma for_loop_put_at n : forall i (f : Z -> Z) s k,
  cursor_ok s -> Z.of_nat n <= AUDIO_BUF_LEN -> 0 <= k < Z.of_nat n ->
  audio_buf (for_loop n i (fun j => put_sample (f j)) s)
    (Z.lxor ((audio_buf_empty_idx s + k) mod AUDIO_BUF_LEN) 1)
  = f (i + k).
Proof.
  induction n as [|n IH]; intros i f s k Hc Hn Hk; [lia|]. cbn [for_loop].
  destruct (put_sample_spec (f i) s Hc) as (Hc1 & _ & He1 & _).
  destruct (Z.eq_dec k 0) as [->|Hk0].
  - rewrite for_loop_keeps; [|exact Hc1|].
    + rewrite put_sample_buf, !Z.add_0_r, Z.mod_small by exact Hc.
      rewrite Z.eqb_refl. reflexivity.
    + intros m Hm E. apply lxor_1_inj in E. rewrite He1 in E.
      rewrite Zplus_mod_idemp_l in E.
      unfold cursor_ok, AUDIO_BUF_LEN, AUDIO_BUF_NUM_FRAMES, FRAME_SIZE in *.
      revert E. zmod.
  - specialize (IH (i + 1) f (put_sample (f i) s) (k - 1) Hc1
                   ltac:(lia) ltac:(lia)).
    rewrite He1 in IH. rewrite Zplus_mod_idemp_l in IH.
    replace (audio_buf_empty_idx s + 1 + (k - 1))
      with (audio_buf_empty_idx s + k) in IH by lia.
    replace (i + 1 + (k - 1)) with (i + k) in IH by lia.
    exact IH.
Qed.

(** The samples a render stores, and the samples it leaves. *)
Lemma write_next_note_samples P s :
  cursor_ok s -> -1 <= audio_buf_num_populated_frames s ->
  samples_of (next_note_duration_s s) < avail_space s ->
  let n := samples_of (next_note_duration_s s) in
  let e := audio_buf_empty_idx s in
  let s' := write_next_note_to_audio_buf P s in
  (forall k, 0 <= k < n ->
     audio_buf s' (Z.lxor ((e + k) mod AUDIO_BUF_LEN) 1) = note_sample P s k)
  /\ (forall j,
        (forall k, 0 <= k < n ->
           j <> Z.lxor ((e + k) mod AUDIO_BUF_LEN) 1) ->
        audio_buf s' j = audio_buf s j).
Proof.
  intros Hc Hp Hlt n e s'.
  assert (Hn : Z.of_nat (Z.to_nat n) <= AUDIO_BUF_LEN).
  { unfold n, avail_space, AUDIO_BUF_LEN, AUDIO_BUF_NUM_FRAMES, FRAME_SIZE
      in *. lia. }
  assert (Hs : audio_buf s' =
    audio_buf (for_loop (Z.to_nat n) 0
                 (fun k => put_sample (note_sample P s k)) s)).
  { unfold s', write_next_note_to_audio_buf.
    destruct (Z.gtb_spec (avail_space s)
                (samples_of (next_note_duration_s s))); [|lia].
    cbv zeta.
    match goal with |- context [set_next_note_parsed false ?y] =>
      replace (audio_buf (set_next_note_parsed false y)) with (audio_buf y)
        by (destruct y; reflexivity)
    end.
    unfold note_sample, generate_silence, generate_sine_wave. fold n.
    destruct (Qeq_bool (next_note_freq s) 0); reflexivity. }
  rewrite Hs. split.
  - intros k Hk. unfold e.
    rewrite (for_loop_put_at (Z.to_nat n) 0 (note_sample P s) s k Hc Hn);
      [reflexivity|lia].
  - intros j Hj. apply for_loop_keeps; [exact Hc|].
    intros m Hm. apply Hj. lia.
Qed.

(** C6, as the code has it.  With [n] the integer sample count of the note
    (the single-precision product of duration and sample rate, truncated; it
    is assumed to fit an [int]), the render step leaves every variable
    unchanged when the reserve capacity is less than or equal to [n]; when
    it is greater, the step clears the flag and writes the [n] samples of
    the note, sample [k] at the index of cursor position [k] with its
    lowest bit flipped, leaving the other samples of the buffer as they
    are: the cursor advances by [n] modulo the buffer length, the
    accounted samples grow by [n], and no other variable changes. *)
Theorem C6_render_defers_or_writes_all (P : platform) (s : state) :
  cursor_ok s -> -1 <= audio_buf_num_populated_frames s ->
  let n := samples_of (next_note_duration_s s) in
  INT_MIN <= n <= INT_MAX ->
  let e := audio_buf_empty_idx s in
  let s' := write_next_note_to_audio_buf P s in
  (avail_space s <= n -> s' = s)
  /\ (n < avail_space s ->
      next_note_parsed s' = false
      /\ fill s' = fill s + Z.max 0 n
      /\ audio_buf_empty_idx s' = (e + Z.max 0 n) mod AUDIO_BUF_LEN
      /\ ring_write_only (set_next_note_parsed false s) s'
      /\ (forall k, 0 <= k < n ->
            audio_buf s' (Z.lxor ((e + k) mod AUDIO_BUF_LEN) 1)
            = note_sample P s k)
      /\ (forall j,
            (forall k, 0 <= k < n ->
               j <> Z.lxor ((e + k) mod AUDIO_BUF_LEN) 1) ->
            audio_buf s' j = audio_buf s j)).
Proof.
  intros Hc Hp n _ e s'. destruct (write_next_note_spec P s Hc) as [H1 H2].
  split; [exact H1|]. intros Hlt.
  destruct (H2 Hlt) as (_ & F1 & F2 & F3 & F4).
  destruct (write_next_note_samples P s Hc Hp Hlt) as [S1 S2].
  split; [exact F1|]. split; [exact F2|]. split; [exact F3|].
  split; [exact F4|]. split; [exact S1|exact S2].
Qed.

Lemma C6_witness :
  let n := samples_of (next_note_duration_s short_note) in
  let e := audio_buf_empty_idx short_note in
  let s' := write_next_note_to_audio_buf example_platform short_note in
  (avail_space short_note <= n -> s' = short_note)
  /\ (n < avail_space short_note ->
      next_note_parsed s' = false
      /\ fill s' = fill short_note + Z.max 0 n
      /\ audio_buf_empty_idx s' = (e + Z.max 0 n) mod AUDIO_BUF_LEN
      /\ ring_write_only (set_next_note_parsed false short_note) s'
      /\ (forall k, 0 <= k < n ->
            audio_buf s' (Z.lxor ((e + k) mod AUDIO_BUF_LEN) 1)
            = note_sample example_platform short_note k)
      /\ (forall j,
            (forall k, 0 <= k < n ->
               j <> Z.lxor ((e + k) mod AUDIO_BUF_LEN) 1) ->
            audio_buf s' j = audio_buf short_note j)).
Proof.
  apply (C6_render_defers_or_writes_all example_platform short_note).
  - vm_compute. split; [discriminate|reflexivity].
  - vm_compute. discriminate.
  - vm_compute. split; discriminate.
Defined.

(** The note of [short_note] has 16 samples, and the render stores them. *)
Example short_note_rendered :
  samples_of (next_note_duration_s short_note) = 16
  /\ map (audio_buf (write_next_note_to_audio_buf example_platform
                       short_note))
         [1; 0; 3; 2]
     = map (note_sample example_platform short_note) [0; 1; 2; 3].
Proof. split; vm_compute; reflexivity. Qed.

Lemma long_note_pending_reachable :
  reachable example_platform long_note_pending.
Proof.
  eapply (reach_op example_platform (submitted "X440M6336") Op_loop).
  - eapply (reach_op example_platform ready (Op_add_notes "X440M6336"));
      [apply reach_setup|].
    vm_compute. reflexivity.
  - vm_compute. reflexivity.
Qed.

(** C6 fails when the reserve capacity equals the sample count: with the
    buffer empty the capacity is 99 frames, 101376 samples, which is not
    less than the duration times the sample rate (neither the exact
    product, a little below 101376, nor the single-precision product
    101376, 101376 samples), yet the step defers and the flag stays set. *)
Lemma C6_counterexample :
  reachable example_platform long_note_pending
  /\ next_note_parsed long_note_pending = true
  /\ avail_space long_note_pending = 101376
  /\ next_note_duration_s long_note_pending = (13287555 # 2097152)%Q
  /\ samples_of (next_note_duration_s long_note_pending) = 101376
  /\ ~ (Z2Q (avail_space long_note_pending)
        < next_note_duration_s long_note_pending * Z2Q SAMPLE_RATE)%Q
  /\ ~ (Z2Q (avail_space long_note_pending)
        < f32 (next_note_duration_s long_note_pending * Z2Q SAMPLE_RATE))%Q
  /\ write_next_note_to_audio_buf example_platform long_note_pending
     = long_note_pending
  /\ next_note_parsed
       (write_next_note_to_audio_buf example_platform long_note_pending)
     = true.
Proof.
  split; [exact long_note_pending_reachable|]. by_evaluation.
Qed.

(* ------------------------------------------------------------------------ *)
(** ** Parsing a note letter and its dots *)

Lemma note_letter_tests c :
  is_note_letter c = true ->
  isspace c = false
  /\ is_char c "O" || is_char c "o" = false
  /\ is_char c "T" || is_char c "t" = false
  /\ is_char c "!" = false
  /\ is_char c "V" || is_char c "v" = false.
Proof.
  destruct c as [[] [] [] [] [] [] [] []]; vm_compute; intros H;
    try discriminate H; repeat split.
Qed.

Lemma parse_token_letter P s c rest :
  notes s = String c rest -> is_note_letter c = true ->
  parse_token P s =
  match note_modifiers P (S (String.length (notes (after_letter c s))))
          (next_note_duration_s (after_letter c s)) (after_letter c s) with
  | Ok s1 => Ok (Break s1)
  | Throw e => Throw e
  | OutOfFuel => OutOfFuel
  end.
Proof.
  intros Hn Hl. unfold parse_token. rewrite Hn. cbn [char_at].
  destruct (note_letter_tests c Hl) as (-> & -> & -> & -> & ->).
  rewrite Hl. reflexivity.
Qed.

Lemma parse_next_note_letter P s c rest :
  notes s = String c rest -> is_note_letter c = true ->
  parse_next_note P s =
  match note_modifiers P (S (String.length (notes (after_letter c s))))
          (next_note_duration_s (after_letter c s)) (after_letter c s) with
  | Ok s1 => Ok (set_next_note_parsed true s1)
  | Throw e => Throw e
  | OutOfFuel => OutOfFuel
  end.
Proof.
  intros Hn Hl. unfold parse_next_note. cbn [parse_tokens]. rewrite Hn.
  rewrite (parse_token_letter P s c rest Hn Hl).
  destruct (note_modifiers _ _ _ _); reflexivity.
Qed.

Lemma after_letter_notes c rest s :
  notes s = String c rest -> notes (after_letter c s) = rest.
Proof.
  intros Hn. unfold after_letter, note_letter_switch.
  destruct s as [pf buf fi e ir nr wr nt bpm oc vn np nf nd fl vw].
  cbn in Hn. subst nt.
  repeat match goal with
         | |- context [if ?b then _ else _] => destruct b
         end; reflexivity.
Qed.

Lemma after_letter_duration c s :
  is_note_letter c = true ->
  next_note_duration_s (after_letter c s)
  = base_duration c (beats_per_minute s).
Proof.
  intros Hl. unfold after_letter, base_duration, note_letter_switch.
  destruct s as [pf buf fi e ir nr wr nt bpm oc vn np nf nd fl vw].
  destruct c as [[] [] [] [] [] [] [] []]; vm_compute in Hl;
    try discriminate Hl; reflexivity.
Qed.

Lemma pow2_neg_succ k :
  (Qpower 2 (- Z.of_nat (S k)) == Qpower 2 (- Z.of_nat k) / 2)%Q.
Proof.
  replace (- Z.of_nat (S k)) with (- Z.of_nat k + -1) by lia.
  rewrite Qpower_plus by discriminate.
  apply Qmult_comp; reflexivity.
Qed.

(** [k] dots add to the duration the [k] first halvings of [dot], in
    single precision. *)
Lemma note_modifiers_dots P rest :
  is_modifier (char_at rest 0) = false ->
  forall k fuel dot s,
    notes s = (dots k ++ rest)%string -> (k < fuel)%nat ->
    exists s',
      note_modifiers P fuel dot s = Ok s'
      /\ notes s' = rest
      /\ next_note_duration_s s' = dotted k (next_note_duration_s s) dot
      /\ next_note_freq s' = next_note_freq s.
Proof.
  intros Hm. induction k as [|k IH]; intros fuel dot s Hn Hf;
    (destruct fuel as [|fuel]; [lia|]); cbn [note_modifiers].
  - cbn in Hn. rewrite Hn.
    unfold is_modifier in Hm.
    repeat match type of Hm with
           | _ || _ = false => apply orb_false_elim in Hm;
                               destruct Hm as [Hm ?]
           end.
    repeat match goal with H : _ = false |- _ => rewrite H; clear H end.
    cbn [orb].
    exists s. repeat split; assumption.
  - cbn [dots append] in Hn. rewrite Hn. cbn [char_at].
    change (isdigit ".") with false. change (is_char "." ".") with true.
    cbv iota.
    destruct (IH fuel (f32 (dot / 2))
                (erase 1 (set_next_note_duration_s
                            (f32 (next_note_duration_s s + f32 (dot / 2)))
                            s)))
      as (s' & H1 & H2 & H3 & H4).
    + destruct s; cbn in Hn; subst; reflexivity.
    + lia.
    + exists s'. split; [exact H1|]. split; [exact H2|].
      split; [|rewrite H4; destruct s; reflexivity].
      rewrite H3. cbn [dotted]. destruct s; reflexivity.
Qed.

(** A note letter followed by [k] dots and no other modifier. *)
Lemma parse_dotted_note P s c k rest :
  notes s = String c (dots k ++ rest) ->
  is_note_letter c = true ->
  is_modifier (char_at rest 0) = false ->
  exists s',
    parse_next_note P s = Ok s'
    /\ notes s' = rest
    /\ next_note_parsed s' = true
    /\ next_note_duration_s s'
       = dotted k (base_duration c (beats_per_minute s))
           (base_duration c (beats_per_minute s))
    /\ next_note_freq s' = next_note_freq (after_letter c s).
Proof.
  intros Hn Hl Hm.
  rewrite (parse_next_note_letter P s c _ Hn Hl).
  pose proof (after_letter_notes c _ s Hn) as Hn1.
  destruct (note_modifiers_dots P rest Hm k
              (S (String.length (notes (after_letter c s))))
              (next_note_duration_s (after_letter c s))
              (after_letter c s) Hn1) as (s' & H1 & H2 & H3 & H4).
  { rewrite Hn1. clear. induction k; cbn [dots append String.length]; lia. }
  rewrite H1. exists (set_next_note_parsed true s').
  split; [reflexivity|].
  split; [destruct s'; exact H2|]. split; [destruct s'; reflexivity|].
  split; [|destruct s'; exact H4].
  replace (next_note_duration_s (set_next_note_parsed true s'))
    with (next_note_duration_s s') by (destruct s'; reflexivity).
  rewrite H3, (after_letter_duration c s Hl). reflexivity.
Qed.

(** The duration a letter starts from is a [float]. *)
Lemma base_duration_float c bpm :
  f32 (base_duration c bpm) = base_duration c bpm.
Proof.
  unfold base_duration, float_literal, quarter_note, f32.
  destruct (is_char c "z"); apply fround_idem; lia.
Qed.

(** When the dotted durations [D * (2 - 2^(-i))] are [float]s the sums are
    exact. *)
Lemma dotted_exact (D : Q) :
  f32 D = D ->
  forall k j d dot,
    (d == D * (2 - Qpower 2 (- Z.of_nat j)))%Q ->
    (dot == D * Qpower 2 (- Z.of_nat j))%Q ->
    (forall i, (j < i <= j + k)%nat ->
       (f32 (D * (2 - Qpower 2 (- Z.of_nat i)))
        == D * (2 - Qpower 2 (- Z.of_nat i)))%Q) ->
    (dotted k d dot == D * (2 - Qpower 2 (- Z.of_nat (j + k))))%Q.
Proof.
  intros HD. induction k as [|k IH]; intros j d dot Hd Hdot Hx.
  - cbn [dotted]. rewrite Nat.add_0_r. exact Hd.
  - cbn [dotted].
    assert (E1 : (f32 (dot / 2) == D * Qpower 2 (- Z.of_nat (S j)))%Q).
    { unfold f32 in *.
      rewrite (fround_comp 24 (dot / 2) (D * 2 ^ (- Z.of_nat (S j)))).
      - rewrite (fround_scale 24), HD. reflexivity.
      - rewrite Hdot, pow2_neg_succ. field. }
    assert (E2 : (f32 (d + f32 (dot / 2))
                  == D * (2 - Qpower 2 (- Z.of_nat (S j))))%Q).
    { unfold f32 in *.
      rewrite (fround_comp 24 (d + fround 24 (dot / 2))
                 (D * (2 - 2 ^ (- Z.of_nat (S j))))).
      - apply Hx. lia.
      - rewrite E1, Hd, pow2_neg_succ. field. }
    replace (j + S k)%nat with (S j + k)%nat by lia.
    apply IH; [exact E2|exact E1|].
    intros i Hi. apply Hx. lia.
Qed.

Lemma dotted_exact_from (D : Q) (k : nat) :
  f32 D = D ->
  (forall i, (1 <= i <= k)%nat ->
     (f32 (D * (2 - Qpower 2 (- Z.of_nat i)))
      == D * (2 - Qpower 2 (- Z.of_nat i)))%Q) ->
  (dotted k D D == D * (2 - Qpower 2 (- Z.of_nat k)))%Q.
Proof.
  intros HD Hx.
  apply (dotted_exact D HD k O D D).
  - cbn. ring.
  - cbn. ring.
  - intros i Hi. apply Hx. lia.
Qed.

(** C3, as the code has it.  A note letter followed by [k] dots and no
    other modifier resolves to the duration the code arrives at by adding
    to [d], the duration the letter starts from (the quarter note
    [60 / tempo], or 0.2 s for [z], as a [float]), its half, its quarter and
    so on, each sum rounded to single precision.  When the durations
    [d * (2 - 2^(-i))] for 1 to [k] dots are [float]s, as they are for the
    quarter note of 0.5 s, the result is [d * (2 - 2^(-k))]. *)
Theorem C3_dotted_duration (P : platform) (s : state) (c : ascii) (k : nat)
    (rest : string) :
  notes s = String c (dots k ++ rest) ->
  is_note_letter c = true ->
  is_modifier (char_at rest 0) = false ->
  let d := base_duration c (beats_per_minute s) in
  exists s',
    parse_next_note P s = Ok s'
    /\ notes s' = rest
    /\ next_note_duration_s s' = dotted k d d
    /\ ((forall i, (1 <= i <= k)%nat ->
           (f32 (d * (2 - Qpower 2 (- Z.of_nat i)))
            == d * (2 - Qpower 2 (- Z.of_nat i)))%Q) ->
        (next_note_duration_s s' == d * (2 - Qpower 2 (- Z.of_nat k)))%Q).
Proof.
  intros Hn Hl Hm d.
  destruct (parse_dotted_note P s c k rest Hn Hl Hm)
    as (s' & H1 & H2 & _ & H3 & _).
  exists s'. split; [exact H1|]. split; [exact H2|]. split; [exact H3|].
  intros Hx. rewrite H3.
  apply dotted_exact_from; [apply base_duration_float|exact Hx].
Qed.

(** Two dots at 120 beats per minute. *)
Lemma C3_witness :
  let d := base_duration "C" (beats_per_minute (submitted "C..")) in
  exists s',
    parse_next_note example_platform (submitted "C..") = Ok s'
    /\ notes s' = "z"%string
    /\ next_note_duration_s s' = dotted 2 d d
    /\ ((forall i, (1 <= i <= 2)%nat ->
           (f32 (d * (2 - Qpower 2 (- Z.of_nat i)))
            == d * (2 - Qpower 2 (- Z.of_nat i)))%Q) ->
        (next_note_duration_s s' == d * (2 - Qpower 2 (- Z.of_nat 2)))%Q).
Proof.
  apply (C3_dotted_duration example_platform (submitted "C..") "C" 2 "z");
    reflexivity.
Defined.

(** The quarter note of 0.5 s at 120 beats per minute lasts 0.75 s with one
    dot and 0.875 s with two.  At 125 beats per minute the quarter note is
    the [float] nearest to 0.48 s and one dot gives the [float] just below
    the one nearest to 0.72 s: 11519 samples, where 0.72 s are 11520. *)
Example dotted_quarter_notes :
  (exists s1,
     parse_next_note example_platform (submitted "C.") = Ok s1
     /\ (next_note_duration_s s1 == 3 # 4)%Q)
  /\ (exists s2,
        parse_next_note example_platform (submitted "C..") = Ok s2
        /\ (next_note_duration_s s2 == 7 # 8)%Q)
  /\ (exists s3,
        parse_next_note example_platform (submitted "T125C.") = Ok s3
        /\ next_note_duration_s s3 = (12079595 # 16777216)%Q
        /\ ~ (next_note_duration_s s3 == f32 (72 # 100))%Q
        /\ samples_of (next_note_duration_s s3) = 11519
        /\ samples_of (f32 (72 # 100)) = 11520).
Proof.
  split; [|split].
  - exists (parsed example_platform (submitted "C.")). by_evaluation.
  - exists (parsed example_platform (submitted "C..")). by_evaluation.
  - exists (parsed example_platform (submitted "T125C.")). by_evaluation.
Qed.

(** The quarter note of 0.5 s meets the condition for up to 23 dots. *)
Example half_second_dots_exact (i : nat) :
  (i <= 23)%nat ->
  (f32 ((1 # 2) * (2 - Qpower 2 (- Z.of_nat i)))
   == (1 # 2) * (2 - Qpower 2 (- Z.of_nat i)))%Q.
Proof.
  intros H.
  assert (A : forallb
                (fun j => Qeq_bool
                            (f32 ((1 # 2) * (2 - Qpower 2 (- Z.of_nat j))))
                            ((1 # 2) * (2 - Qpower 2 (- Z.of_nat j))))
                (seq 0 24) = true) by (vm_compute; reflexivity).
  rewrite forallb_forall in A.
  apply Qeq_bool_iff, A, in_seq. lia.
Qed.

(** C3 fails twice.  With one dot the quarter note of 0.5 s lasts 0.75 s,
    where the formula [d * (2 - 2^(1-k))] gives 0.5 s.  And in [C8.] the dot
    adds half of the quarter note, not half of the eighth note the fraction
    has just set: the note lasts 0.25 + 0.25 = 0.5 s, not 0.25 + 0.125. *)
Lemma C3_counterexample :
  (parse_next_note example_platform (submitted "C.")
   = Ok (parsed example_platform (submitted "C."))
   /\ (next_note_duration_s (parsed example_platform (submitted "C."))
       == 3 # 4)%Q
   /\ (dotted_as_specified (1 # 2) 1 == 1 # 2)%Q
   /\ ~ (next_note_duration_s (parsed example_platform (submitted "C."))
         == dotted_as_specified (1 # 2) 1)%Q)
  /\ (parse_next_note example_platform (submitted "C8.")
      = Ok (parsed example_platform (submitted "C8."))
      /\ (next_note_duration_s (parsed example_platform (submitted "C8."))
          == 1 # 2)%Q
      /\ ~ (next_note_duration_s (parsed example_platform (submitted "C8."))
            == (1 # 4) + (1 # 4) / 2)%Q).
Proof.
  split; by_evaluation.
Qed.

(* ------------------------------------------------------------------------ *)
(** ** The frequency of A *)

Lemma after_letter_A_freq s :
  (next_note_freq (after_letter "A" s)
   == 440 * Qpower 2 (octave s - 4))%Q.
Proof.
  assert (E : next_note_freq (after_letter "A" s)
              = f32 (f64 (440 * Qpower 2 (octave s - 4))))
    by (destruct s; reflexivity).
  rewrite E. unfold f32, f64.
  assert (E64 : (fround 53 (440 * 2 ^ (octave s - 4))
                 == 440 * 2 ^ (octave s - 4))%Q).
  { rewrite (fround_scale 53).
    apply Qmult_comp; [|reflexivity]. vm_compute. reflexivity. }
  rewrite (fround_comp 24 _ _ E64).
  rewrite (fround_scale 24).
  apply Qmult_comp; [|reflexivity]. vm_compute. reflexivity.
Qed.

Lemma parse_A P s rest :
  notes s = String "A" rest ->
  is_modifier (char_at rest 0) = false ->
  exists s',
    parse_next_note P s = Ok s'
    /\ notes s' = rest
    /\ (next_note_freq s' == 440 * Qpower 2 (octave s - 4))%Q
    /\ (octave s = 5 -> (next_note_freq s' == 880)%Q)
    /\ (octave s = 4 -> (next_note_freq s' == 440)%Q).
Proof.
  intros Hn Hm.
  destruct (parse_dotted_note P s "A" 0 rest Hn eq_refl Hm)
    as (s' & H1 & H2 & _ & _ & H4).
  exists s'. split; [exact H1|]. split; [exact H2|].
  rewrite H4, after_letter_A_freq.
  split; [reflexivity|]. split; intros ->; reflexivity.
Qed.

(** C4, as the code has it.  The letter [A] resolves to the frequency
    [440 * 2^(octave - 4)] at every octave; at the default octave 5 this is
    880 Hz, and it is 440 Hz at octave 4. *)
Theorem C4_frequency_of_A (P : platform) (s : state) (rest : string) :
  notes s = String "A" rest ->
  is_modifier (char_at rest 0) = false ->
  exists s',
    parse_next_note P s = Ok s'
    /\ notes s' = rest
    /\ (next_note_freq s' == 440 * Qpower 2 (octave s - 4))%Q
    /\ (octave s = 5 -> (next_note_freq s' == 880)%Q)
    /\ (octave s = 4 -> (next_note_freq s' == 440)%Q).
Proof. exact (parse_A P s rest). Qed.

Lemma C4_witness :
  exists s',
    parse_next_note example_platform (submitted "A") = Ok s'
    /\ notes s' = "z"%string
    /\ (next_note_freq s'
        == 440 * Qpower 2 (octave (submitted "A") - 4))%Q
    /\ (octave (submitted "A") = 5 -> (next_note_freq s' == 880)%Q)
    /\ (octave (submitted "A") = 4 -> (next_note_freq s' == 440)%Q).
Proof.
  apply (C4_frequency_of_A example_platform (submitted "A") "z");
    reflexivity.
Defined.

(** The octave [set_note_defaults] sets, and the one in effect after
    [setup]. *)
Lemma default_octave s :
  octave (set_note_defaults s) = 5 /\ octave ready = 5.
Proof. destruct s; split; reflexivity. Qed.

(** C4 fails at the default octave: [A] resolves to 880 Hz, not 440 Hz. *)
Lemma C4_counterexample :
  octave (submitted "A") = 5
  /\ parse_next_note example_platform (submitted "A")
     = Ok (parsed example_platform (submitted "A"))
  /\ (next_note_freq (parsed example_platform (submitted "A")) == 880)%Q
  /\ ~ (next_note_freq (parsed example_platform (submitted "A")) == 440)%Q.
Proof.
  by_evaluation.
Qed.

(* ------------------------------------------------------------------------ *)
(** ** The flag after [parse_next_note] *)

(** Whenever [parse_next_note] returns, the flag is set. *)
Lemma parse_next_note_sets_flag P s s' :
  parse_next_note P s = Ok s' -> next_note_parsed s' = true.
Proof.
  intros H. pose proof (parse_next_note_frame P s) as F.
  rewrite H in F. apply F.
Qed.

(** The iteration bounds of the parser are never reached. *)
Lemma parse_next_note_ends P s : parse_next_note P s <> OutOfFuel.
Proof.
  intros H. pose proof (parse_next_note_frame P s) as F.
  rewrite H in F. exact F.
Qed.

(** On an empty queue nothing but the flag changes. *)
Lemma parse_next_note_empty P s :
  notes s = EmptyString ->
  parse_next_note P s = Ok (set_next_note_parsed true s).
Proof. intros Hn. unfold parse_next_note. cbn. rewrite Hn. reflexivity. Qed.

(** State-setting commands alone, and a syntax error. *)
Example parse_commands_only :
  parse_next_note example_platform (submitted "T50 V3 O6")
  = Ok (parsed example_platform (submitted "T50 V3 O6"))
  /\ next_note_parsed (parsed example_platform (submitted "T50 V3 O6")) = true
  /\ beats_per_minute (parsed example_platform (submitted "T50 V3 O6")) = 50
  /\ volume_notes (parsed example_platform (submitted "T50 V3 O6")) = 3
  /\ octave (parsed example_platform (submitted "T50 V3 O6")) = 6.
Proof. by_evaluation. Qed.

Example parse_syntax_error :
  parse_next_note example_platform (submitted "?CC")
  = Ok (parsed example_platform (submitted "?CC"))
  /\ next_note_parsed (parsed example_platform (submitted "?CC")) = true
  /\ notes (parsed example_platform (submitted "?CC")) = EmptyString.
Proof. by_evaluation. Qed.

(** C10.  The flag is set whenever [parse_next_note] returns, but a call
    does not always return: on the pending text [Tz], which [add_notes("T")]
    leaves, [std::stoi] finds no number and raises [invalid_argument], and
    the function is left before it sets the flag. *)
Theorem C10_parse_next_note_flag :
  (forall P s s', parse_next_note P s = Ok s' -> next_note_parsed s' = true)
  /\ (forall P s, parse_next_note P s <> OutOfFuel)
  /\ notes (submitted "T") = "Tz"%string
  /\ next_note_parsed (submitted "T") = false
  /\ (forall P,
        parse_next_note P (submitted "T") = Throw invalid_argument).
Proof.
  split; [exact parse_next_note_sets_flag|].
  split; [exact parse_next_note_ends|].
  split; [vm_compute; reflexivity|].
  split; [vm_compute; reflexivity|].
  intros P. vm_compute. reflexivity.
Qed.

(* ======================================================================== *)
(** * Further properties of the module *)

(* ------------------------------------------------------------------------ *)
(** ** What every parse is made of *)

Section ParseSteps.

Variable P : platform.

(** A relation between the variables before and after. *)
Variable R : state -> state -> Prop.

Hypothesis R_refl : forall s, R s s.
Hypothesis R_trans : forall s1 s2 s3, R s1 s2 -> R s2 s3 -> R s1 s3.
Hypothesis R_erase : forall n s, R s (erase n s).
Hypothesis R_clear : forall s, R s (set_notes "" s).
Hypothesis R_duration : forall v s, R s (set_next_note_duration_s v s).
Hypothesis R_freq : forall v s, R s (set_next_note_freq v s).
Hypothesis R_octave : forall v s, 4 <= v <= 7 -> R s (set_octave v s).
Hypothesis R_tempo :
  forall v s, 40 <= v <= 240 -> R s (set_beats_per_minute v s).
Hypothesis R_volume : forall v s, 1 <= v <= 10 -> R s (set_volume_notes v s).
Hypothesis R_flag : forall s, R s (set_next_note_parsed true s).

Lemma R_then s1 s2 s3 : R s2 s3 -> R s1 s2 -> R s1 s3.
Proof. eauto. Qed.

Ltac step_R :=
  repeat first
    [ apply R_refl
    | assumption
    | (eapply R_then;
       [first [ apply R_erase | apply R_clear | apply R_duration
              | apply R_freq | apply R_flag
              | (apply R_octave; lia) | (apply R_tempo; lia)
              | (apply R_volume; lia) ]|]) ].

Lemma R_defaults s : R s (set_note_defaults s).
Proof. unfold set_note_defaults. step_R. Qed.

Lemma R_switch c s : R s (note_letter_switch c s).
Proof.
  unfold note_letter_switch.
  repeat match goal with
         | |- context [if ?b then _ else _] => destruct b
         end; step_R.
Qed.

Lemma note_modifiers_steps fuel : forall dot s0 s s',
  R s0 s -> note_modifiers P fuel dot s = Ok s' -> R s0 s'.
Proof.
  induction fuel as [|fuel IH]; intros dot s0 s s' H0; cbn [note_modifiers];
    [discriminate|].
  destruct (isdigit _).
  { destruct (stoi _) as [[frac pos]|e]; [|discriminate].
    apply IH. destruct (_ && _); step_R. }
  destruct (is_char _ "."); [apply IH; step_R|].
  destruct (is_char _ ">"); [apply IH; step_R|].
  destruct (is_char _ "<"); [apply IH; step_R|].
  destruct (_ || _).
  { apply IH. destruct (_ || _); step_R. }
  intros H; injection H as <-. assumption.
Qed.

Lemma parse_token_steps s s' :
  parse_token P s = Ok (Continue s') \/ parse_token P s = Ok (Break s') ->
  R s s'.
Proof.
  unfold parse_token. cbv zeta.
  destruct (isspace _).
  { intros [H|H]; inversion H; subst. step_R. }
  destruct (_ || _).
  { intros [H|H]; inversion H; subst.
    destruct (_ && _) eqn:E; [apply andb_prop in E|]; step_R. }
  destruct (_ || _).
  { destruct (stoi _) as [[v pos]|e]; [|intros [H|H]; discriminate].
    intros [H|H]; inversion H; subst.
    destruct (_ && _) eqn:E; [apply andb_prop in E|]; step_R. }
  destruct (is_char _ "!").
  { intros [H|H]; inversion H; subst.
    eapply R_then; [apply R_erase|apply R_defaults]. }
  destruct (_ || _).
  { destruct (stoi _) as [[v pos]|e]; [|intros [H|H]; discriminate].
    intros [H|H]; inversion H; subst.
    destruct (_ && _) eqn:E; [apply andb_prop in E|]; step_R. }
  destruct (is_note_letter _).
  { match goal with
    | |- context [note_modifiers P ?f ?d ?x] =>
        pose proof (note_modifiers_steps f d s x) as Hm;
        destruct (note_modifiers P f d x) as [sm| |]
    end; intros [H|H]; inversion H; subst.
    apply Hm; [|reflexivity].
    eapply R_then; [apply R_erase|]. eapply R_then; [apply R_freq|].
    eapply R_then; [apply R_switch|]. step_R. }
  destruct (_ || _).
  { destruct (stof P _) as [[f x_pos]|e]; [|intros [H|H]; discriminate].
    destruct (_ || _).
    - destruct (stof P _) as [[ms m_pos]|e]; [|intros [H|H]; discriminate].
      intros [H|H]; inversion H; subst.
      destruct (negb _); step_R.
    - intros [H|H]; inversion H; subst. destruct (negb _); step_R. }
  intros [H|H]; inversion H; subst. step_R.
Qed.

Lemma parse_tokens_steps fuel : forall s0 s s',
  R s0 s -> parse_tokens P fuel s = Ok s' -> R s0 s'.
Proof.
  induction fuel as [|fuel IH]; intros s0 s s' H0; cbn [parse_tokens];
    [discriminate|].
  destruct (notes s) as [|c r]; [intros H; injection H as <-; assumption|].
  pose proof (parse_token_steps s) as Ht.
  destruct (parse_token P s) as [[s1|s1]| |]; try discriminate.
  - apply IH. eapply R_trans; [eassumption|]. apply Ht. left; reflexivity.
  - intros H; injection H as <-.
    eapply R_trans; [eassumption|]. apply Ht. right; reflexivity.
Qed.

(** A relation that holds across the elementary updates of the parser
    holds across [parse_next_note]. *)
Lemma parse_next_note_steps s s' : parse_next_note P s = Ok s' -> R s s'.
Proof.
  unfold parse_next_note.
  pose proof (parse_tokens_steps (S (String.length (notes s))) s s) as H.
  destruct (parse_tokens P _ s) as [s1| |]; try discriminate.
  intros E; injection E as <-.
  eapply R_trans; [apply H; [apply R_refl|reflexivity]|apply R_flag].
Qed.

End ParseSteps.

(* ------------------------------------------------------------------------ *)
(** ** The parser keeps the settings in range and only consumes text *)

Lemma parse_next_note_knobs P s s' :
  parse_next_note P s = Ok s' -> knobs_ok s -> knobs_ok s'.
Proof.
  apply (parse_next_note_steps P (fun s s' => knobs_ok s -> knobs_ok s'));
    clear s s'; auto;
    intros; destruct s; unfold knobs_ok, erase in *;
    repeat match goal with
           | H : _ /\ _ |- _ => destruct H
           end;
    state_simpl; repeat split; assumption || lia.
Qed.

Lemma str_drop_add k1 : forall k2 x,
  str_drop k2 (str_drop k1 x) = str_drop (k1 + k2) x.
Proof.
  induction k1 as [|k1 IH]; intros k2 [|c r]; cbn [str_drop Nat.add]; auto.
  destruct k2; reflexivity.
Qed.

Lemma str_drop_all x : str_drop (String.length x) x = EmptyString.
Proof. induction x; cbn; auto. Qed.

Lemma parse_next_note_text P s s' :
  parse_next_note P s = Ok s' -> text_consumed s s'.
Proof.
  apply (parse_next_note_steps P text_consumed); clear s s';
    unfold text_consumed.
  - intros s. exists 0%nat. reflexivity.
  - intros s1 s2 s3 [k1 H1] [k2 H2]. exists (k1 + k2)%nat.
    rewrite H2, H1. apply str_drop_add.
  - intros n s. exists n. destruct s; reflexivity.
  - intros s. exists (String.length (notes s)).
    rewrite str_drop_all. destruct s; reflexivity.
  - intros v s. exists 0%nat. destruct s; reflexivity.
  - intros v s. exists 0%nat. destruct s; reflexivity.
  - intros v s _. exists 0%nat. destruct s; reflexivity.
  - intros v s _. exists 0%nat. destruct s; reflexivity.
  - intros v s _. exists 0%nat. destruct s; reflexivity.
  - intros s. exists 0%nat. destruct s; reflexivity.
Qed.

Lemma text_consumed_length s s' :
  text_consumed s s' ->
  (String.length (notes s') <= String.length (notes s))%nat.
Proof. intros [k ->]. rewrite str_drop_length. lia. Qed.

(* ------------------------------------------------------------------------ *)
(** ** The write cursor stays linked to the frame count *)

Lemma put_sample_linked v s :
  cursor_ok s -> ring_linked s -> ring_linked (put_sample v s).
Proof.
  destruct s as [pf buf fi e ir nr wr nt bpm oc vn np nf nd fl vw].
  unfold cursor_ok, ring_linked, put_sample.
  unfold AUDIO_BUF_LEN, FRAME_SIZE, AUDIO_BUF_NUM_FRAMES.
  state_simpl. change (1024 * 100) with 102400.
  intros Hc Hl.
  assert (R1 : Z.rem (e + 1) 102400 = (e + 1) mod 102400)
    by (apply Z.rem_mod_nonneg; lia).
  assert (R2 : Z.rem ((e + 1) mod 102400) 1024
               = ((e + 1) mod 102400) mod 1024)
    by (apply Z.rem_mod_nonneg; [apply Z.mod_pos_bound|]; lia).
  rewrite R1, R2. clear R1 R2.
  destruct (Z.eqb_spec (((e + 1) mod 102400) mod 1024) 0) as [E|E];
    state_simpl; zmod.
Qed.

Lemma for_loop_linked n : forall i (val : Z -> Z) s,
  cursor_ok s -> ring_linked s ->
  ring_linked (for_loop n i (fun k => put_sample (val k)) s).
Proof.
  induction n as [|n IH]; intros i val s Hc Hl; cbn [for_loop]; auto.
  apply IH; [apply put_sample_spec|apply put_sample_linked]; assumption.
Qed.

Lemma ring_linked_flag b s :
  ring_linked s -> ring_linked (set_next_note_parsed b s).
Proof. destruct s; exact (fun H => H). Qed.

Lemma write_next_note_linked P s :
  cursor_ok s -> ring_linked s ->
  ring_linked (write_next_note_to_audio_buf P s).
Proof.
  intros Hc Hl. unfold write_next_note_to_audio_buf.
  destruct (_ >? _); [|assumption].
  apply ring_linked_flag.
  destruct (Qeq_bool _ _); apply for_loop_linked; assumption.
Qed.

(** The wave branch of [loop] stores what it reads and, on a full read,
    commits one frame. *)
Lemma read_wave_frame_runs s :
  exists n b f1,
    f_open f1 = f_open (file s)
    /\ read_wave_frame s =
       if n =? FRAME_SIZE * BYTES_PER_SAMPLE
       then set_audio_buf_num_populated_frames
              (audio_buf_num_populated_frames s + 1)
              (set_audio_buf_empty_idx
                 (Z.rem (audio_buf_empty_idx s + FRAME_SIZE) AUDIO_BUF_LEN)
                 (set_audio_buf b (set_file f1 s)))
       else set_audio_buf b (set_file f1 s).
Proof.
  unfold read_wave_frame.
  pose proof (file_read_open (Z.to_nat (FRAME_SIZE * BYTES_PER_SAMPLE))
                (file s)) as Ho.
  destruct (file_read _ (file s)) as [[n bs] f1].
  destruct (for_loop_swap_pair (Z.to_nat (FRAME_SIZE / 2)) 0
              (set_audio_buf
                 (store_bytes bs 0 (audio_buf_empty_idx (set_file f1 s))
                    (audio_buf (set_file f1 s))) (set_file f1 s)))
    as [b Hb].
  cbv zeta. rewrite Hb. clear Hb.
  destruct (n =? _) eqn:E.
  - exists n, b, f1. rewrite E. split; [assumption|].
    destruct s; reflexivity.
  - exists n, (store_bytes bs 0 (audio_buf_empty_idx (set_file f1 s))
                 (audio_buf (set_file f1 s))), f1.
    rewrite E. split; [assumption|reflexivity].
Qed.

(* ------------------------------------------------------------------------ *)
(** ** Further facts of every reachable state *)

Lemma ext_setup driver_ok : module_inv_ext (setup driver_ok boot_state).
Proof.
  destruct driver_ok; unfold module_inv_ext, ring_linked, knobs_ok,
    wave_depth_ok; cbn; repeat split; try lia; discriminate.
Qed.

Lemma ext_stopped s : module_inv_ext s -> module_inv_ext (stopped s).
Proof.
  destruct s as [pf buf fi e ir nr wr nt bpm oc vn np nf nd fl vw].
  unfold module_inv_ext, ring_linked, knobs_ok, wave_depth_ok, stopped;
    state_simpl.
  intros (H1 & H2 & H3 & H4).
  split; [reflexivity|]. split; [assumption|].
  split; [cbn; lia|discriminate].
Qed.

Lemma ext_frame_sent s :
  module_inv s -> module_inv_ext s ->
  0 <= audio_buf_num_populated_frames s ->
  module_inv_ext (frame_sent s).
Proof.
  destruct s as [pf buf fi e ir nr wr nt bpm oc vn np nf nd fl vw].
  unfold module_inv, module_inv_ext, ring_linked, knobs_ok, wave_depth_ok,
    cursor_ok, frame_sent; state_simpl.
  unfold AUDIO_BUF_LEN, AUDIO_BUF_NUM_FRAMES, FRAME_SIZE,
    WAVE_FRAMES_TO_BUFFER.
  intros (I1 & I2 & I3 & _) (H1 & H2 & H3 & H4) H0.
  rewrite Z.rem_mod_nonneg by lia.
  split; [zmod|]. split; [assumption|]. split; [assumption|].
  intros Hw. destruct (H4 Hw). split; lia.
Qed.

Lemma ext_set_wave_volume v s :
  module_inv_ext s -> module_inv_ext (set_wave_volume v s).
Proof.
  destruct s as [pf buf fi e ir nr wr nt bpm oc vn np nf nd fl vw].
  unfold module_inv_ext, ring_linked, knobs_ok, wave_depth_ok,
    set_wave_volume; state_simpl.
  intros (H1 & H2 & H3 & H4).
  split; [assumption|]. split; [|split; assumption].
  destruct (Z.gtb_spec (v mod 256) 10); repeat split; try tauto; zmod.
Qed.

Lemma pop_back_length x :
  (String.length (pop_back x) <= String.length x)%nat.
Proof.
  induction x as [|c r IH]; cbn [pop_back String.length]; auto.
  destruct r; cbn [String.length] in *; lia.
Qed.

Lemma length_append_str x y :
  String.length (x ++ y) = (String.length x + String.length y)%nat.
Proof. induction x; cbn; auto. Qed.

Lemma appended_length pending new_notes :
  (String.length (appended pending new_notes)
   <= String.length pending + String.length new_notes + 1)%nat.
Proof.
  unfold appended. rewrite !length_append_str. cbn [String.length].
  destruct (_ && _); [pose proof (pop_back_length pending)|]; lia.
Qed.

Lemma ext_add_notes new_notes s b s' out :
  module_inv s -> module_inv_ext s ->
  add_notes new_notes s = Ok (b, s', out) -> module_inv_ext s'.
Proof.
  intros Hi He. pose proof (add_notes_runs new_notes s) as R. cbv zeta in R.
  rewrite R; clear R.
  assert (H0 : module_inv_ext (if wave_running s then stopped s else s)
               /\ wave_running (if wave_running s then stopped s else s)
                  = false).
  { destruct (wave_running s) eqn:E; [|auto].
    split; [apply ext_stopped; assumption|destruct s; reflexivity]. }
  destruct H0 as [H0 Hw].
  set (s0 := if wave_running s then stopped s else s) in *. clearbody s0.
  destruct (Nat.ltb_spec MAX_NOTES_IN_BUFFER
              (String.length (notes s0) + String.length new_notes))
    as [Hgt|Hle];
    intros E; injection E as <- <- <-; [assumption|].
  pose proof (appended_length (notes s0) new_notes) as Ha.
  destruct s0 as [pf buf fi e ir nr wr nt bpm oc vn np nf nd fl vw].
  unfold module_inv_ext, ring_linked, knobs_ok, wave_depth_ok in *;
    state_simpl; state_simpl_in H0; state_simpl_in Hw; state_simpl_in Ha.
  state_simpl_in Hle. unfold MAX_NOTES_IN_BUFFER in *.
  destruct H0 as (H1 & H2 & H3 & H4). subst wr.
  split; [assumption|]. split; [assumption|]. split; [lia|discriminate].
Qed.

Lemma ext_render P s :
  module_inv s -> module_inv_ext s -> wave_running s = false ->
  module_inv_ext (write_next_note_to_audio_buf P s).
Proof.
  intros Hi (H1 & H2 & H3 & H4) Hw.
  assert (Hc : cursor_ok s) by apply Hi.
  pose proof (write_next_note_linked P s Hc H1) as Hl.
  destruct (write_next_note_spec P s Hc) as [Hdefer Hwrite].
  destruct (Z_le_gt_dec (avail_space s)
              (samples_of (next_note_duration_s s))) as [L|G].
  { rewrite (Hdefer L). exact (conj H1 (conj H2 (conj H3 H4))). }
  destruct (Hwrite ltac:(lia)) as (_ & _ & _ & _ & Fr).
  clear Hdefer Hwrite.
  set (s' := write_next_note_to_audio_buf P s) in *. clearbody s'.
  destruct s as [pf buf fi e ir nr wr nt bpm oc vn np nf nd fl vw].
  destruct s' as [pf' buf' fi' e' ir' nr' wr' nt' bpm' oc' vn' np' nf' nd'
                  fl' vw'].
  unfold ring_write_only, knobs_ok, wave_depth_ok, module_inv_ext in *.
  state_simpl_in Fr. state_simpl_in H2. state_simpl_in H3.
  state_simpl_in Hw. state_simpl.
  destruct Fr as (-> & -> & -> & -> & -> & -> & -> & -> & _ & -> & -> & ->
                  & ->).
  subst wr. split; [assumption|]. split; [assumption|].
  split; [assumption|discriminate].
Qed.

Lemma ext_player_only P s s' :
  parse_next_note P s = Ok s' -> module_inv_ext s -> wave_running s = false ->
  module_inv_ext s' /\ wave_running s' = false.
Proof.
  intros Hp (H1 & H2 & H3 & H4) Hw.
  pose proof (parse_next_note_knobs P s s' Hp H2) as K.
  pose proof (text_consumed_length s s' (parse_next_note_text P s s' Hp)) as T.
  pose proof (parse_next_note_frame P s) as F. rewrite Hp in F.
  destruct F as [F _].
  destruct F as (E1 & _ & E3 & E4 & _ & _ & E7 & _).
  unfold module_inv_ext, ring_linked, wave_depth_ok.
  rewrite E1, E3, E4, E7, Hw.
  split; [|reflexivity].
  split; [exact H1|]. split; [assumption|]. split; [lia|discriminate].
Qed.

Lemma ext_read_wave_frame s :
  module_inv s -> module_inv_ext s ->
  audio_buf_num_populated_frames s < WAVE_FRAMES_TO_BUFFER ->
  module_inv_ext (read_wave_frame s).
Proof.
  intros Hi He Hlt.
  destruct (read_wave_frame_runs s) as (n & b & f1 & _ & ->).
  destruct s as [pf buf fi e ir nr wr nt bpm oc vn np nf nd fl vw].
  unfold module_inv, module_inv_ext, ring_linked, knobs_ok, wave_depth_ok,
    cursor_ok in *.
  state_simpl_in Hi. state_simpl_in He. state_simpl_in Hlt.
  unfold WAVE_FRAMES_TO_BUFFER, AUDIO_BUF_LEN, AUDIO_BUF_NUM_FRAMES,
    FRAME_SIZE in *.
  destruct Hi as (I1 & I2 & I3 & _). destruct He as (H1 & H2 & H3 & H4).
  destruct (n =? _); state_simpl; [|repeat split; tauto].
  rewrite Z.rem_mod_nonneg by lia.
  split; [zmod|]. split; [assumption|]. split; [assumption|].
  intros Hw. destruct (H4 Hw). split; [lia|zmod].
Qed.

Lemma ext_loop P s s' out :
  module_inv s -> module_inv_ext s -> loop P s = Ok (tt, s', out) ->
  module_inv_ext s'.
Proof.
  intros Hi He. destruct (notes_running s) eqn:Hn.
  - assert (Hw : wave_running s = false).
    { destruct Hi as (_ & _ & _ & _ & H5).
      destruct (wave_running s); [|reflexivity].
      destruct (H5 eq_refl). congruence. }
    rewrite (loop_notes_runs P s Hn). unfold loop_parse, loop_render.
    assert (H1 : forall s1,
              module_inv s1 -> module_inv_ext s1 -> wave_running s1 = false ->
              forall s2 o,
                (let s2 := if next_note_parsed s1
                           then write_next_note_to_audio_buf P s1 else s1 in
                 if playback_over s2 then Ok (tt, stopped s2, stop_calls s2)
                 else Ok (tt, s2, [])) = Ok (tt, s2, o) ->
                module_inv_ext s2).
    { intros s1 Hi1 He1 Hw1 s2 o. cbv zeta.
      assert (He2 : module_inv_ext (if next_note_parsed s1
                                    then write_next_note_to_audio_buf P s1
                                    else s1)).
      { destruct (next_note_parsed s1); [apply ext_render|]; auto. }
      destruct (playback_over _); intros H; injection H as <- _;
        [apply ext_stopped|]; assumption. }
    destruct (_ && _).
    + pose proof (parse_next_note_frame P s) as Hf.
      destruct (parse_next_note P s) as [s1| |] eqn:Ep; try discriminate.
      destruct (ext_player_only P s s1 Ep He Hw) as [He1 Hw1].
      apply H1; auto. eapply inv_player_only; [apply Hf|assumption..].
    + apply H1; assumption.
  - rewrite (loop_wave_runs P s Hn).
    destruct (wave_running s); [|intros H; injection H as <- _; assumption].
    destruct (_ && _) eqn:Ea.
    + intros H; injection H as <- _. apply ext_read_wave_frame; auto.
      apply andb_prop in Ea. destruct Ea as [_ Ea]. lia.
    + destruct (_ <=? _); intros H; injection H as <- _;
        [apply ext_stopped|]; assumption.
Qed.

Lemma ext_play_sound_file P filename s b s' out :
  module_inv_ext s -> play_sound_file P filename s = Ok (b, s', out) ->
  module_inv_ext s'.
Proof.
  intros He. pose proof (play_sound_file_runs P filename s) as R.
  destruct (file_read 44 (SD_open P filename)) as [[n h] f1].
  rewrite R; clear R. apply ext_stopped in He.
  destruct (stopped s) as [pf buf fi e ir nr wr nt bpm oc vn np nf nd fl vw]
    eqn:Es.
  assert (pf = 0 /\ e = 0) as [-> ->].
  { destruct s; unfold stopped in Es; injection Es; intros; subst; auto. }
  unfold module_inv_ext, ring_linked, knobs_ok, wave_depth_ok in *.
  state_simpl_in He.
  destruct He as (H1 & H2 & H3 & H4).
  destruct (header_ok n h); intros H; injection H as <- <- <-; state_simpl;
    (split; [assumption|]); (split; [assumption|]); (split; [assumption|]);
    [intros _; split; [unfold WAVE_FRAMES_TO_BUFFER; lia|reflexivity]
    |assumption].
Qed.

Lemma reachable_inv_ext P s : reachable P s -> module_inv_ext s.
Proof.
  induction 1 as [ok|s o s' out Hr IH Hstep]; [apply ext_setup|].
  pose proof (reachable_inv P s Hr) as Hi.
  destruct o; cbn [run_op] in Hstep.
  - unfold ignore, bind, ret in Hstep.
    destruct (add_notes new_notes s) as [[[b s1] o1]| |] eqn:E;
      try discriminate.
    injection Hstep as <- _. eapply ext_add_notes; eassumption.
  - eapply ext_loop; eassumption.
  - unfold modify in Hstep. injection Hstep as <- _.
    apply ext_set_wave_volume; assumption.
  - rewrite stop_runs in Hstep. injection Hstep as <- _.
    apply ext_stopped; assumption.
  - unfold ignore, bind, ret in Hstep.
    destruct (play_sound_file P filename s) as [[[b s1] o1]| |] eqn:E;
      try discriminate.
    injection Hstep as <- _. eapply ext_play_sound_file; eassumption.
  - rewrite I2Sout_TXdone_runs in Hstep.
    destruct (Z.geb_spec (audio_buf_num_populated_frames s) 0);
      injection Hstep as <- _; [apply ext_frame_sent; [| |lia]|];
      assumption.
Qed.

Lemma rest_rendered_reachable : reachable example_platform rest_rendered.
Proof.
  eapply (reach_op example_platform (submitted "R32") Op_loop).
  - eapply (reach_op example_platform ready (Op_add_notes "R32"));
      [apply reach_setup|].
    vm_compute. reflexivity.
  - vm_compute. reflexivity.
Qed.

Lemma brim_full_reachable : reachable example_platform brim_full.
Proof.
  eapply (reach_op example_platform ready
            (Op_add_notes (repeat_char "C" 4000)));
    [apply reach_setup|].
  vm_compute. reflexivity.
Qed.

(** X1.  In every reachable state the write cursor is in the frame that
    comes [audio_buf_num_populated_frames] frames after the frame to send,
    around the ring of [AUDIO_BUF_NUM_FRAMES] frames. *)
Theorem X1_write_cursor_follows_frame_count (P : platform) (s : state) :
  reachable P s ->
  audio_buf_empty_idx s / FRAME_SIZE
  = (audio_buf_frame_idx_to_send s + audio_buf_num_populated_frames s)
    mod AUDIO_BUF_NUM_FRAMES.
Proof.
  intros Hr. pose proof (reachable_inv P s Hr) as (_ & _ & Hc & _).
  pose proof (reachable_inv_ext P s Hr) as (Hl & _).
  unfold ring_linked, cursor_ok, AUDIO_BUF_LEN, AUDIO_BUF_NUM_FRAMES,
    FRAME_SIZE in *. zmod.
Qed.

Lemma X1_witness :
  audio_buf_empty_idx rest_rendered = 1000
  /\ audio_buf_empty_idx rest_rendered / FRAME_SIZE
     = (audio_buf_frame_idx_to_send rest_rendered
        + audio_buf_num_populated_frames rest_rendered)
       mod AUDIO_BUF_NUM_FRAMES.
Proof.
  split; [vm_compute; reflexivity|].
  apply (X1_write_cursor_follows_frame_count example_platform rest_rendered).
  exact rest_rendered_reachable.
Defined.

(** X2.  In every reachable state the tempo is within 40..240, the octave
    within 4..7, the notes volume within 1..10 and the wave volume within
    0..10: no command and no call takes a setting out of its range. *)
Theorem X2_settings_stay_in_range (P : platform) (s : state) :
  reachable P s ->
  40 <= beats_per_minute s <= 240
  /\ 4 <= octave s <= 7
  /\ 1 <= volume_notes s <= 10
  /\ 0 <= volume_wave s <= 10.
Proof. intros Hr. apply (reachable_inv_ext P s Hr). Qed.

Lemma X2_witness :
  40 <= beats_per_minute rest_rendered <= 240
  /\ 4 <= octave rest_rendered <= 7
  /\ 1 <= volume_notes rest_rendered <= 10
  /\ 0 <= volume_wave rest_rendered <= 10.
Proof.
  apply (X2_settings_stay_in_range example_platform rest_rendered).
  exact rest_rendered_reachable.
Defined.

(** X3.  In every reachable state the pending text has at most
    [MAX_NOTES_IN_BUFFER + 1] characters: the final [z] that [add_notes]
    appends comes on top of the 4000 characters it admits. *)
Theorem X3_pending_text_bounded (P : platform) (s : state) :
  reachable P s ->
  (String.length (notes s) <= MAX_NOTES_IN_BUFFER + 1)%nat.
Proof.
  intros Hr. pose proof (reachable_inv_ext P s Hr) as (_ & _ & H & _). lia.
Qed.

(** The bound is reached. *)
Lemma X3_witness :
  String.length (notes brim_full) = 4001%nat
  /\ (String.length (notes brim_full) <= MAX_NOTES_IN_BUFFER + 1)%nat.
Proof.
  split; [vm_compute; reflexivity|].
  apply (X3_pending_text_bounded example_platform brim_full).
  exact brim_full_reachable.
Defined.

(** X4.  While a wave file is played, in every reachable state at most
    [WAVE_FRAMES_TO_BUFFER] frames are buffered, the write cursor is at the
    start of a frame, and neither notes are played nor text is pending. *)
Theorem X4_wave_mode_buffers_five_frames (P : platform) (s : state) :
  reachable P s -> wave_running s = true ->
  audio_buf_num_populated_frames s <= WAVE_FRAMES_TO_BUFFER
  /\ audio_buf_empty_idx s mod FRAME_SIZE = 0
  /\ notes_running s = false
  /\ notes s = EmptyString.
Proof.
  intros Hr Hw.
  pose proof (reachable_inv P s Hr) as (_ & _ & _ & _ & H5).
  pose proof (reachable_inv_ext P s Hr) as (_ & _ & _ & H4).
  destruct (H4 Hw). destruct (H5 Hw). auto.
Qed.

Lemma X4_witness :
  audio_buf_num_populated_frames wave_playing <= WAVE_FRAMES_TO_BUFFER
  /\ audio_buf_empty_idx wave_playing mod FRAME_SIZE = 0
  /\ notes_running wave_playing = false
  /\ notes wave_playing = EmptyString.
Proof.
  apply (X4_wave_mode_buffers_five_frames example_platform wave_playing).
  - exact wave_playing_reachable.
  - reflexivity.
Defined.

(* ------------------------------------------------------------------------ *)
(** ** The driver is started and stopped in turn *)

Lemma put_sample_write_only v s : ring_write_only s (put_sample v s).
Proof.
  destruct s as [pf buf fi e ir nr wr nt bpm oc vn np nf nd fl vw].
  unfold put_sample, ring_write_only. state_simpl.
  destruct (_ =? _); state_simpl; repeat split.
Qed.

Lemma for_loop_write_only n : forall i (val : Z -> Z) s,
  ring_write_only s (for_loop n i (fun k => put_sample (val k)) s).
Proof.
  induction n as [|n IH]; intros i val s; cbn [for_loop].
  - apply ring_write_only_refl.
  - eapply ring_write_only_trans; [apply put_sample_write_only|apply IH].
Qed.

(** The render step touches the ring buffer and the flag only. *)
Lemma write_next_note_touches P s :
  write_next_note_to_audio_buf P s = s
  \/ ring_write_only (set_next_note_parsed false s)
       (write_next_note_to_audio_buf P s).
Proof.
  unfold write_next_note_to_audio_buf.
  destruct (_ >? _); [right|left; reflexivity].
  apply ring_write_only_flag.
  destruct (Qeq_bool _ _); apply for_loop_write_only.
Qed.

Lemma write_next_note_i2s_running P s :
  i2s_running (write_next_note_to_audio_buf P s) = i2s_running s.
Proof.
  destruct (write_next_note_touches P s) as [->|H]; [reflexivity|].
  destruct H as (_ & -> & _). destruct s; reflexivity.
Qed.

Lemma driver_after_app running out1 : forall out2 mid,
  driver_after running out1 = Some mid ->
  driver_after running (out1 ++ out2) = driver_after mid out2.
Proof.
  revert running. induction out1 as [|c r IH]; intros running out2 mid;
    cbn [driver_after app].
  - intros H; injection H as <-. reflexivity.
  - destruct c; try apply IH; destruct running; try discriminate; apply IH.
Qed.

Lemma driver_after_stop s :
  driver_after (i2s_running s) (stop_calls s) = Some false.
Proof. unfold stop_calls. destruct (i2s_running s); reflexivity. Qed.

Lemma run_op_driver P o s s' out :
  run_op P o s = Ok (tt, s', out) ->
  driver_after (i2s_running s) out = Some (i2s_running s').
Proof.
  destruct o; cbn [run_op].
  - unfold ignore, bind, ret.
    pose proof (add_notes_runs new_notes s) as R. cbv zeta in R. rewrite R.
    clear R.
    assert (H0 : driver_after (i2s_running s)
                   (if wave_running s then stop_calls s else [])
                 = Some (i2s_running
                           (if wave_running s then stopped s else s))).
    { destruct (wave_running s); [|reflexivity].
      rewrite driver_after_stop. destruct s; reflexivity. }
    destruct (_ <? _)%nat; intros H; injection H as <- <-;
      rewrite app_nil_r; [assumption|].
    rewrite (driver_after_app _ _ _ _ H0).
    destruct (if wave_running s then stopped s else s)
      as [pf buf fi e ir nr wr nt bpm oc vn np nf nd fl vw].
    state_simpl. destruct ir; reflexivity.
  - destruct (notes_running s) eqn:Hn.
    + rewrite (loop_notes_runs P s Hn). unfold loop_parse, loop_render.
      assert (H1 : forall s1, i2s_running s1 = i2s_running s ->
                forall s2 o,
                  (let s2 := if next_note_parsed s1
                             then write_next_note_to_audio_buf P s1
                             else s1 in
                   if playback_over s2
                   then Ok (tt, stopped s2, stop_calls s2)
                   else Ok (tt, s2, [])) = Ok (tt, s2, o) ->
                  driver_after (i2s_running s) o = Some (i2s_running s2)).
      { intros s1 E1 s2 o. cbv zeta.
        assert (E2 : i2s_running (if next_note_parsed s1
                                  then write_next_note_to_audio_buf P s1
                                  else s1) = i2s_running s).
        { destruct (next_note_parsed s1); [|assumption].
          rewrite write_next_note_i2s_running. assumption. }
        destruct (playback_over _); intros H; injection H as <- <-.
        - rewrite <- E2, driver_after_stop.
          match goal with |- context [stopped ?x] => destruct x end.
          reflexivity.
        - cbn. congruence. }
      destruct (_ && _).
      * pose proof (parse_next_note_frame P s) as Hf.
        destruct (parse_next_note P s) as [s1| |]; try discriminate.
        apply H1. apply Hf.
      * apply H1. reflexivity.
    + rewrite (loop_wave_runs P s Hn).
      destruct (wave_running s);
        [|intros H; injection H as <- <-; reflexivity].
      destruct (_ && _).
      * intros H; injection H as <- <-.
        destruct (read_wave_frame_runs s) as (n & b & f1 & _ & ->).
        destruct (n =? _); destruct s; reflexivity.
      * destruct (_ <=? _); intros H; injection H as <- <-;
          [|reflexivity].
        rewrite driver_after_stop. destruct s; reflexivity.
  - unfold modify. intros H; injection H as <- <-. destruct s; reflexivity.
  - rewrite stop_runs. intros H; injection H as <- <-.
    rewrite driver_after_stop. destruct s; reflexivity.
  - unfold ignore, bind, ret.
    pose proof (play_sound_file_runs P filename s) as R.
    destruct (file_read 44 (SD_open P filename)) as [[n h] f1].
    rewrite R; clear R.
    destruct (header_ok n h); intros H; injection H as <- <-;
      rewrite app_nil_r.
    + rewrite (driver_after_app _ _ _ _ (driver_after_stop s)).
      destruct s; reflexivity.
    + rewrite driver_after_stop. destruct s; reflexivity.
  - rewrite I2Sout_TXdone_runs.
    destruct (_ >=? _); intros H; injection H as <- <-;
      destruct s; reflexivity.
Qed.

Lemma run_ops_driver P ops : forall s s' out,
  run_ops P ops s = Ok (tt, s', out) ->
  driver_after (i2s_running s) out = Some (i2s_running s').
Proof.
  induction ops as [|o r IH]; intros s s' out; cbn [run_ops].
  - unfold ret. intros H; injection H as <- <-. reflexivity.
  - unfold bind.
    destruct (run_op P o s) as [[[[] s1] o1]| |] eqn:E1; try discriminate.
    destruct (run_ops P r s1) as [[[[] s2] o2]| |] eqn:E2; try discriminate.
    intros H; injection H as <- <-.
    rewrite (driver_after_app _ _ _ _ (run_op_driver P o s s1 o1 E1)).
    apply (IH _ _ _ E2).
Qed.

(** X5.  Over any sequence of calls and events, the module starts the I2S
    driver only when it is halted and stops it only when it is started, and
    [i2s_running] tells at the end whether the driver is started. *)
Theorem X5_driver_started_and_stopped_in_turn (P : platform)
    (ops : list op) (s s' : state) (out : list i2s_call) :
  run_ops P ops s = Ok (tt, s', out) ->
  driver_after (i2s_running s) out = Some (i2s_running s').
Proof. exact (run_ops_driver P ops s s' out). Qed.

Lemma X5_witness :
  driver_after (i2s_running ready)
    [I2sStop; I2sZeroDmaBuffer; I2sStart; I2sStop; I2sZeroDmaBuffer;
     I2sStart]
  = Some true.
Proof.
  apply (X5_driver_started_and_stopped_in_turn example_platform
           [Op_play_sound_file "mono.wav"; Op_add_notes "C"] ready
           (submitted "C")).
  vm_compute. reflexivity.
Defined.

(* ------------------------------------------------------------------------ *)
(** ** A notes session that never ends *)

Lemma run_ops_reachable P ops : forall s s' out,
  reachable P s -> run_ops P ops s = Ok (tt, s', out) -> reachable P s'.
Proof.
  induction ops as [|o r IH]; intros s s' out Hr; cbn [run_ops].
  - unfold ret. intros H; injection H as <- _. assumption.
  - unfold bind.
    destruct (run_op P o s) as [[[[] s1] o1]| |] eqn:E1; try discriminate.
    destruct (run_ops P r s1) as [[[[] s2] o2]| |] eqn:E2; try discriminate.
    intros H; injection H as <- _.
    eapply IH; [|exact E2]. eapply reach_op; eassumption.
Qed.

Lemma loop_stalls P s :
  notes_running s = true -> notes s = EmptyString ->
  next_note_parsed s = false -> audio_buf_num_populated_frames s < 0 ->
  loop P s = Ok (tt, s, []) /\ I2Sout_TXdone s = Ok (tt, s, []).
Proof.
  intros Hn Ht Hp Hneg. split.
  - rewrite (loop_notes_runs P s Hn).
    unfold loop_parse, loop_render, playback_over. rewrite Ht, Hp. cbn.
    rewrite Hp, Ht. cbn.
    destruct (Z.eqb_spec (audio_buf_num_populated_frames s) 0); [lia|].
    rewrite ?Hp. reflexivity.
  - rewrite I2Sout_TXdone_runs.
    destruct (Z.geb_spec (audio_buf_num_populated_frames s) 0); [lia|].
    reflexivity.
Qed.

(** X6.  Once the notes are played out with the frame count below zero,
    [loop] and the output task leave every variable as it is: [loop] stops
    the session only at a frame count of exactly 0, so the session stays in
    notes mode and [is_playing] keeps its value. *)
Theorem X6_notes_session_stalls_below_zero (P : platform) (s : state) :
  notes_running s = true -> notes s = EmptyString ->
  next_note_parsed s = false -> audio_buf_num_populated_frames s < 0 ->
  loop P s = Ok (tt, s, []) /\ I2Sout_TXdone s = Ok (tt, s, []).
Proof. exact (loop_stalls P s). Qed.

Lemma drained_below_zero_reachable :
  reachable example_platform drained_below_zero.
Proof.
  eapply (run_ops_reachable example_platform
            [Op_add_notes ""; Op_loop; Op_TXdone; Op_TXdone; Op_TXdone;
             Op_TXdone] ready); [apply reach_setup|].
  vm_compute. reflexivity.
Qed.

(** The stalled state is reached when four transmit-done events follow the
    rendering of the final rest before [loop] runs again; the session then
    reports that it is playing. *)
Lemma X6_witness :
  is_playing drained_below_zero = true
  /\ audio_buf_num_populated_frames drained_below_zero = -1
  /\ loop example_platform drained_below_zero
     = Ok (tt, drained_below_zero, [])
  /\ I2Sout_TXdone drained_below_zero = Ok (tt, drained_below_zero, []).
Proof.
  split; [vm_compute; reflexivity|]. split; [vm_compute; reflexivity|].
  apply (X6_notes_session_stalls_below_zero example_platform
           drained_below_zero); vm_compute; reflexivity.
Defined.

(* ------------------------------------------------------------------------ *)
(** ** Submitting notes twice *)

Lemma append_assoc_str x y z :
  ((x ++ y) ++ z)%string = (x ++ (y ++ z))%string.
Proof. induction x as [|c r IH]; cbn; [reflexivity|rewrite IH; reflexivity]. Qed.

Lemma pop_back_z x : pop_back (x ++ "z") = x.
Proof.
  induction x as [|c r IH]; [reflexivity|].
  cbn [append pop_back]. rewrite IH.
  destruct r; reflexivity.
Qed.

Lemma last_char_z x : last_char (x ++ "z") = "z"%char.
Proof.
  unfold last_char. rewrite length_append_str. cbn [String.length].
  replace (String.length x + 1 - 1)%nat with (String.length x) by lia.
  induction x as [|c r IH]; [reflexivity|exact IH].
Qed.

(** Appending to what [add_notes] stored keeps one final [z]. *)
Lemma appended_twice pending a b :
  appended (appended pending a) b = appended pending (a ++ b).
Proof.
  unfold appended.
  set (q := if (0 <? String.length pending)%nat
               && is_char (last_char pending) "z"
            then pop_back pending else pending).
  rewrite <- (append_assoc_str q a "z").
  rewrite last_char_z, pop_back_z, length_append_str.
  cbn [String.length].
  assert (E : (0 <? String.length (q ++ a) + 1)%nat = true)
    by (apply Nat.ltb_lt; lia).
  rewrite E. cbn [andb is_char]. rewrite Ascii.eqb_refl.
  rewrite !append_assoc_str. reflexivity.
Qed.

Lemma add_notes_twice (s s1 s2 : state) (a b : string) out1 out2 :
  wave_running s = false ->
  add_notes a s = Ok (true, s1, out1) ->
  add_notes b s1 = Ok (true, s2, out2) ->
  s2 = set_notes (appended (notes s) (a ++ b)) s1 /\ out2 = [].
Proof.
  intros Hw.
  pose proof (add_notes_runs a s) as R1. cbv zeta in R1.
  rewrite Hw in R1. rewrite R1; clear R1.
  destruct (_ <? _)%nat; [discriminate|].
  intros H; injection H as <- <-.
  pose proof (add_notes_runs b
                (set_i2s_running true
                   (set_notes_running true
                      (set_notes (appended (notes s) a) s)))) as R2.
  cbv zeta in R2. rewrite R2; clear R2.
  destruct s as [pf buf fi e ir nr wr nt bpm oc vn np nf nd fl vw].
  state_simpl_in Hw. subst wr. state_simpl.
  destruct (_ <? _)%nat; [discriminate|].
  intros H; injection H as <- <-. rewrite appended_twice. auto.
Qed.

(** X7.  With no wave file played, two accepted submissions in a row leave
    the pending text the single submission of the two texts joined would
    leave: the final [z] of the first is removed, the second text is
    appended and one [z] ends the text.  The second call changes no other
    variable and calls no driver function. *)
Theorem X7_add_notes_twice_joins_texts (s s1 s2 : state) (a b : string)
    (out1 out2 : list i2s_call) :
  wave_running s = false ->
  add_notes a s = Ok (true, s1, out1) ->
  add_notes b s1 = Ok (true, s2, out2) ->
  s2 = set_notes (appended (notes s) (a ++ b)) s1 /\ out2 = [].
Proof. exact (add_notes_twice s s1 s2 a b out1 out2). Qed.

Lemma X7_witness :
  set_notes "CDEz" (submitted "CD")
  = set_notes (appended (notes ready) ("CD" ++ "E")) (submitted "CD")
  /\ @nil i2s_call = [].
Proof.
  apply (X7_add_notes_twice_joins_texts ready (submitted "CD")
           (set_notes "CDEz" (submitted "CD")) "CD" "E" [] []);
    [reflexivity|vm_compute; reflexivity|vm_compute; reflexivity].
Defined.

(* ------------------------------------------------------------------------ *)
(** ** Notes submitted while a wave file is played *)

Lemma add_notes_over_wave (s : state) (new_notes : string) :
  wave_running s = true ->
  exists s',
    add_notes new_notes s
    = Ok ((String.length new_notes <=? MAX_NOTES_IN_BUFFER)%nat, s',
          stop_calls s
          ++ (if (String.length new_notes <=? MAX_NOTES_IN_BUFFER)%nat
              then [I2sStart] else []))
    /\ wave_running s' = false
    /\ f_open (file s') = false
    /\ audio_buf_num_populated_frames s' = 0
    /\ audio_buf_frame_idx_to_send s' = 0
    /\ audio_buf_empty_idx s' = 0
    /\ (if (String.length new_notes <=? MAX_NOTES_IN_BUFFER)%nat
        then notes s' = (new_notes ++ "z")%string
             /\ notes_running s' = true /\ i2s_running s' = true
        else notes s' = EmptyString
             /\ notes_running s' = false /\ i2s_running s' = false).
Proof.
  intros Hw. rewrite add_notes_runs. cbv zeta. rewrite Hw.
  destruct s as [pf buf fi e ir nr wr nt bpm oc vn np nf nd fl vw].
  cbn [wave_running] in Hw. subst wr.
  unfold stopped. state_simpl. cbn [String.length Nat.add].
  rewrite Nat.ltb_antisym.
  destruct (String.length new_notes <=? MAX_NOTES_IN_BUFFER)%nat;
    cbn [negb]; rewrite ?app_nil_r;
    eexists; (split; [reflexivity|]); state_simpl;
    unfold file_close; cbn [f_open]; repeat split.
Qed.

(** X8.  [add_notes] called while a wave file is played stops that
    playback first, whether or not the notes are then accepted: the file is
    closed and the buffer is emptied.  Notes of at most
    [MAX_NOTES_IN_BUFFER] characters are accepted and start a session of
    their own, the I2S output being started again; longer ones are refused,
    and nothing is playing afterwards. *)
Theorem X8_notes_interrupt_wave_playback (s : state) (new_notes : string) :
  wave_running s = true ->
  exists s',
    add_notes new_notes s
    = Ok ((String.length new_notes <=? MAX_NOTES_IN_BUFFER)%nat, s',
          stop_calls s
          ++ (if (String.length new_notes <=? MAX_NOTES_IN_BUFFER)%nat
              then [I2sStart] else []))
    /\ wave_running s' = false
    /\ f_open (file s') = false
    /\ audio_buf_num_populated_frames s' = 0
    /\ audio_buf_frame_idx_to_send s' = 0
    /\ audio_buf_empty_idx s' = 0
    /\ (if (String.length new_notes <=? MAX_NOTES_IN_BUFFER)%nat
        then notes s' = (new_notes ++ "z")%string
             /\ notes_running s' = true /\ i2s_running s' = true
        else notes s' = EmptyString
             /\ notes_running s' = false /\ i2s_running s' = false).
Proof. exact (add_notes_over_wave s new_notes). Qed.

(** The notes "CDE" submitted while "mono.wav" is played. *)
Lemma X8_witness :
  exists s',
    add_notes "CDE" wave_playing
    = Ok ((String.length "CDE" <=? MAX_NOTES_IN_BUFFER)%nat, s',
          stop_calls wave_playing
          ++ (if (String.length "CDE" <=? MAX_NOTES_IN_BUFFER)%nat
              then [I2sStart] else []))
    /\ wave_running s' = false
    /\ f_open (file s') = false
    /\ audio_buf_num_populated_frames s' = 0
    /\ audio_buf_frame_idx_to_send s' = 0
    /\ audio_buf_empty_idx s' = 0
    /\ (if (String.length "CDE" <=? MAX_NOTES_IN_BUFFER)%nat
        then notes s' = ("CDE" ++ "z")%string
             /\ notes_running s' = true /\ i2s_running s' = true
        else notes s' = EmptyString
             /\ notes_running s' = false /\ i2s_running s' = false).
Proof.
  apply (X8_notes_interrupt_wave_playback wave_playing "CDE").
  vm_compute. reflexivity.
Defined.

(* ------------------------------------------------------------------------ *)
(** ** What the parser consumes, and syntax errors *)

(** X9.  When [parse_next_note] returns, the pending text is the former
    pending text without some of its first characters, and no variable of
    the ring buffer, of the session or of the wave player has changed. *)
Theorem X9_parser_consumes_a_prefix (P : platform) (s s' : state) :
  parse_next_note P s = Ok s' ->
  (exists k, notes s' = str_drop k (notes s)) /\ player_only s s'.
Proof.
  intros H. split; [exact (parse_next_note_text P s s' H)|].
  pose proof (parse_next_note_frame P s) as F. rewrite H in F. apply F.
Qed.

Lemma X9_witness :
  (exists k,
     notes (parsed example_platform (submitted "T100 O5 C8."))
     = str_drop k (notes (submitted "T100 O5 C8.")))
  /\ player_only (submitted "T100 O5 C8.")
       (parsed example_platform (submitted "T100 O5 C8.")).
Proof.
  apply (X9_parser_consumes_a_prefix example_platform
           (submitted "T100 O5 C8.")).
  vm_compute. reflexivity.
Defined.

(** For every tempo the [T] command accepts, the quarter note held as a
    [float] has the sample count of the exact quotient [60 / tempo]. *)
Lemma quarter_note_samples (bpm : Z) :
  40 <= bpm <= 240 ->
  samples_of (quarter_note bpm)
  = Qtrunc ((60 / Z2Q bpm) * Z2Q SAMPLE_RATE).
Proof.
  intros H.
  assert (A : forallb
                (fun k => samples_of (quarter_note (Z.of_nat k))
                          =? Qtrunc ((60 / Z2Q (Z.of_nat k)) * Z2Q SAMPLE_RATE))
                (seq 40 201) = true) by (vm_compute; reflexivity).
  rewrite forallb_forall in A.
  specialize (A (Z.to_nat bpm)).
  rewrite Z2Nat.id in A by lia.
  apply Z.eqb_eq, A, in_seq. lia.
Qed.

Lemma parse_syntax_error_runs P s c rest :
  notes s = String c rest -> is_token_start c = false ->
  parse_next_note P s = Ok (after_syntax_error s).
Proof.
  intros Hn Hc. unfold is_token_start in Hc.
  repeat match type of Hc with
         | _ || _ = false => apply orb_false_elim in Hc; destruct Hc as [Hc ?]
         end.
  unfold parse_next_note. cbn [parse_tokens]. rewrite Hn.
  unfold parse_token. rewrite Hn. cbn [char_at].
  repeat match goal with H : _ = false |- _ => rewrite H; clear H end.
  reflexivity.
Qed.

(** X10.  A pending text that begins with a character the parser does not
    know is a syntax error: the whole pending text is dropped, the flag is
    set and the duration is set to a quarter note ([60.0 / tempo] as a
    [float]), while the frequency keeps the value of the note before. *)
Theorem X10_syntax_error_drops_the_text (P : platform) (s : state)
    (c : ascii) (rest : string) :
  notes s = String c rest -> is_token_start c = false ->
  exists s',
    parse_next_note P s = Ok s'
    /\ notes s' = EmptyString
    /\ next_note_parsed s' = true
    /\ next_note_freq s' = next_note_freq s
    /\ next_note_duration_s s' = quarter_note (beats_per_minute s)
    /\ player_only s s'.
Proof.
  intros Hn Hc. exists (after_syntax_error s).
  split; [exact (parse_syntax_error_runs P s c rest Hn Hc)|].
  destruct s; unfold after_syntax_error; state_simpl.
  repeat split.
Qed.

Lemma X10_witness :
  exists s',
    parse_next_note example_platform (submitted "?CC") = Ok s'
    /\ notes s' = EmptyString
    /\ next_note_parsed s' = true
    /\ next_note_freq s' = next_note_freq (submitted "?CC")
    /\ next_note_duration_s s'
       = quarter_note (beats_per_minute (submitted "?CC"))
    /\ player_only (submitted "?CC") s'.
Proof.
  apply (X10_syntax_error_drops_the_text example_platform (submitted "?CC")
           "?" "CCz"); reflexivity.
Defined.

(* ------------------------------------------------------------------------ *)
(** ** Commands before a note *)

(** The result of the token loop does not depend on its iteration bound. *)
Lemma parse_tokens_fuel P f1 : forall f2 s,
  (String.length (notes s) < f1)%nat -> (String.length (notes s) < f2)%nat ->
  parse_tokens P f1 s = parse_tokens P f2 s.
Proof.
  induction f1 as [|f1 IH]; intros f2 s H1 H2; [lia|].
  destruct f2 as [|f2]; [lia|]. cbn [parse_tokens].
  destruct (notes s) as [|c r] eqn:En; [reflexivity|].
  pose proof (parse_token_frame P s) as F.
  specialize (F ltac:(rewrite En; discriminate)).
  destruct (parse_token P s) as [[s1|s1]| |]; try reflexivity.
  destruct F as [_ F]. rewrite En in F. cbn [String.length] in *.
  apply IH; lia.
Qed.

(** After a round that continues, the parser goes on as if it were called
    on the variables the round leaves. *)
Lemma parse_next_note_continue P s s1 :
  notes s <> EmptyString -> parse_token P s = Ok (Continue s1) ->
  parse_next_note P s = parse_next_note P s1.
Proof.
  intros Hne Ht. unfold parse_next_note.
  pose proof (parse_token_frame P s Hne) as F. rewrite Ht in F.
  destruct F as [_ F].
  destruct (notes s) as [|c r] eqn:En; [congruence|].
  cbn [String.length] in *.
  assert (E : parse_tokens P (S (S (String.length r))) s
              = parse_tokens P (S (String.length r)) s1).
  { change (parse_tokens P (S (S (String.length r))) s)
      with (match notes s with
            | EmptyString => Ok s
            | String _ _ =>
                match parse_token P s with
                | Ok (Continue s1) => parse_tokens P (S (String.length r)) s1
                | Ok (Break s1) => Ok s1
                | Throw e => Throw e
                | OutOfFuel => OutOfFuel
                end
            end).
    rewrite En, Ht. reflexivity. }
  rewrite E.
  rewrite (parse_tokens_fuel P (S (String.length r))
             (S (String.length (notes s1))) s1) by lia.
  reflexivity.
Qed.

Lemma all_digits_leading x : forall y,
  all_digits x = true -> isdigit (char_at y 0) = false ->
  leading_digits (x ++ y) = leading_digits x ++ leading_digits y
  /\ leading_digits y = []
  /\ List.length (leading_digits x) = String.length x.
Proof.
  induction x as [|c r IH]; intros y Hx Hy; cbn [all_digits] in Hx.
  - cbn. destruct y as [|d y']; cbn in *; [auto|]. rewrite Hy. auto.
  - apply andb_prop in Hx. destruct Hx as [Hc Hr].
    destruct (IH y Hr Hy) as (E1 & E2 & E3).
    cbn [append leading_digits String.length]. rewrite Hc, E1.
    cbn [List.length app]. auto.
Qed.

Lemma isdigit_not_space c : isdigit c = true -> isspace c = false.
Proof.
  unfold isdigit, isspace. intros H. apply andb_prop in H. destruct H.
  destruct (Z.eqb_spec (char_code c) 32); [lia|].
  destruct (Z.leb_spec (char_code c) 13); [lia|].
  rewrite andb_false_r. reflexivity.
Qed.

Lemma isdigit_not_sign c :
  isdigit c = true -> is_char c "-" = false /\ is_char c "+" = false.
Proof.
  destruct c as [[] [] [] [] [] [] [] []]; vm_compute; intros H;
    try discriminate H; split; reflexivity.
Qed.

(** [std::stoi] on a text of digits followed by something else. *)
Lemma stoi_number x y :
  x <> EmptyString -> all_digits x = true ->
  isdigit (char_at y 0) = false -> number_of x <= INT_MAX ->
  stoi (x ++ y) = Value (number_of x, String.length x).
Proof.
  intros Hne Hx Hy Hmax.
  destruct (all_digits_leading x y Hx Hy) as (E1 & E2 & E3).
  destruct x as [|c r]; [congruence|]. clear Hne.
  cbn [all_digits] in Hx. apply andb_prop in Hx. destruct Hx as [Hc Hr].
  unfold stoi. cbn [append skip_space].
  rewrite (isdigit_not_space c Hc).
  destruct (isdigit_not_sign c Hc) as [-> ->].
  rewrite Nat.sub_diag.
  change (String c (r ++ y)) with (String c r ++ y)%string.
  rewrite E1, E2, app_nil_r.
  unfold number_of in *.
  destruct (leading_digits (String c r)) as [|d ds] eqn:El.
  { cbn [leading_digits] in El. rewrite Hc in El. discriminate. }
  assert (Hpos : 0 <= decimal_value (d :: ds)).
  { rewrite <- El. clear. unfold decimal_value.
    assert (G : forall z acc, 0 <= acc ->
              0 <= fold_left (fun a d => 10 * a + d) (leading_digits z) acc).
    { induction z as [|c' r' IH]; intros acc Ha; cbn [leading_digits];
        [exact Ha|].
      destruct (isdigit c') eqn:E; [|exact Ha]. cbn [fold_left].
      apply IH. unfold isdigit in E. apply andb_prop in E. lia. }
    apply G. lia. }
  destruct (Z.ltb_spec (decimal_value (d :: ds)) INT_MIN) as [L|L];
    [unfold INT_MIN in L; lia|].
  destruct (Z.ltb_spec INT_MAX (decimal_value (d :: ds))) as [G|G]; [lia|].
  cbn [orb]. rewrite E3. reflexivity.
Qed.

Lemma str_drop_app x : forall y, str_drop (String.length x) (x ++ y) = y.
Proof. induction x as [|c r IH]; intros y; cbn; auto. Qed.

Lemma tempo_command_runs P s c num rest :
  notes s = String c (num ++ rest) ->
  is_char c "T" || is_char c "t" = true ->
  num <> EmptyString -> all_digits num = true ->
  isdigit (char_at rest 0) = false -> number_of num <= INT_MAX ->
  parse_next_note P s
  = parse_next_note P
      (set_beats_per_minute (tempo_after (number_of num) s)
         (set_notes rest s)).
Proof.
  intros Hn Hc Hne Hd Hr Hmax.
  apply parse_next_note_continue; [rewrite Hn; discriminate|].
  unfold parse_token. rewrite Hn. cbn [char_at].
  assert (Hs : isspace c = false /\ is_char c "O" || is_char c "o" = false).
  { destruct c as [[] [] [] [] [] [] [] []]; vm_compute in Hc;
      try discriminate Hc; split; reflexivity. }
  destruct Hs as [-> ->]. rewrite Hc.
  replace (notes (erase 1 s)) with (num ++ rest)%string
    by (destruct s; cbn in Hn; subst; reflexivity).
  rewrite (stoi_number num rest Hne Hd Hr Hmax).
  unfold tempo_after.
  destruct s as [pf buf fi e ir nr wr nt bpm oc vn np nf nd fl vw].
  cbn in Hn. subst nt. unfold erase; state_simpl.
  cbn [str_drop]. rewrite str_drop_app.
  destruct (_ && _); reflexivity.
Qed.

(** X11.  A tempo command [T] or [t] with a number within 40..240 sets the
    tempo, with any other number it leaves the tempo as it is; either way
    the command and its number are consumed and the parser goes on with
    the rest of the text. *)
Theorem X11_tempo_command (P : platform) (s : state) (c : ascii)
    (num rest : string) :
  notes s = String c (num ++ rest) ->
  is_char c "T" || is_char c "t" = true ->
  num <> EmptyString -> all_digits num = true ->
  isdigit (char_at rest 0) = false -> number_of num <= INT_MAX ->
  parse_next_note P s
  = parse_next_note P
      (set_beats_per_minute (tempo_after (number_of num) s)
         (set_notes rest s)).
Proof. exact (tempo_command_runs P s c num rest). Qed.

(** The tempo 300 is refused: the note that follows lasts a quarter note
    at the tempo 120 in effect. *)
Lemma X11_witness :
  tempo_after (number_of "300") (submitted "T300C") = 120
  /\ parse_next_note example_platform (submitted "T300C")
     = parse_next_note example_platform
         (set_beats_per_minute
            (tempo_after (number_of "300") (submitted "T300C"))
            (set_notes "Cz" (submitted "T300C"))).
Proof.
  split; [vm_compute; reflexivity|].
  apply (X11_tempo_command example_platform (submitted "T300C") "T" "300"
           "Cz"); try reflexivity; [discriminate|vm_compute; discriminate].
Defined.

Lemma volume_command_runs P s c num rest :
  notes s = String c (num ++ rest) ->
  is_char c "V" || is_char c "v" = true ->
  num <> EmptyString -> all_digits num = true ->
  isdigit (char_at rest 0) = false -> number_of num <= INT_MAX ->
  parse_next_note P s
  = parse_next_note P
      (set_volume_notes (volume_after (number_of num) s)
         (set_notes rest s)).
Proof.
  intros Hn Hc Hne Hd Hr Hmax.
  apply parse_next_note_continue; [rewrite Hn; discriminate|].
  unfold parse_token. rewrite Hn. cbn [char_at].
  assert (Hs : isspace c = false /\ is_char c "O" || is_char c "o" = false
               /\ is_char c "T" || is_char c "t" = false
               /\ is_char c "!" = false).
  { destruct c as [[] [] [] [] [] [] [] []]; vm_compute in Hc;
      try discriminate Hc; repeat split; reflexivity. }
  destruct Hs as (-> & -> & -> & ->). rewrite Hc.
  replace (notes (erase 1 s)) with (num ++ rest)%string
    by (destruct s; cbn in Hn; subst; reflexivity).
  rewrite (stoi_number num rest Hne Hd Hr Hmax).
  unfold volume_after.
  destruct s as [pf buf fi e ir nr wr nt bpm oc vn np nf nd fl vw].
  cbn in Hn. subst nt. unfold erase; state_simpl.
  cbn [str_drop]. rewrite str_drop_app.
  destruct (_ && _); reflexivity.
Qed.

(** X12.  A volume command [V] or [v] with a number within 1..10 sets the
    notes volume, with any other number it leaves the volume as it is;
    the command and its number are consumed and the parser goes on with
    the rest of the text. *)
Theorem X12_volume_command (P : platform) (s : state) (c : ascii)
    (num rest : string) :
  notes s = String c (num ++ rest) ->
  is_char c "V" || is_char c "v" = true ->
  num <> EmptyString -> all_digits num = true ->
  isdigit (char_at rest 0) = false -> number_of num <= INT_MAX ->
  parse_next_note P s
  = parse_next_note P
      (set_volume_notes (volume_after (number_of num) s)
         (set_notes rest s)).
Proof. exact (volume_command_runs P s c num rest). Qed.

Lemma X12_witness :
  volume_after (number_of "0") (submitted "v0C") = 5
  /\ parse_next_note example_platform (submitted "v0C")
     = parse_next_note example_platform
         (set_volume_notes
            (volume_after (number_of "0") (submitted "v0C"))
            (set_notes "Cz" (submitted "v0C"))).
Proof.
  split; [vm_compute; reflexivity|].
  apply (X12_volume_command example_platform (submitted "v0C") "v" "0"
           "Cz"); try reflexivity; [discriminate|vm_compute; discriminate].
Defined.

Lemma octave_command_runs P s c d rest :
  notes s = String c (String d rest) ->
  is_char c "O" || is_char c "o" = true ->
  parse_next_note P s
  = parse_next_note P (set_octave (octave_after d s) (set_notes rest s)).
Proof.
  intros Hn Hc.
  apply parse_next_note_continue; [rewrite Hn; discriminate|].
  unfold parse_token. rewrite Hn. cbn [char_at].
  assert (Hs : isspace c = false).
  { destruct c as [[] [] [] [] [] [] [] []]; vm_compute in Hc;
      try discriminate Hc; reflexivity. }
  rewrite Hs, Hc. unfold octave_after.
  destruct s as [pf buf fi e ir nr wr nt bpm oc vn np nf nd fl vw].
  cbn in Hn. subst nt. unfold erase; state_simpl.
  destruct (_ && _); reflexivity.
Qed.

(** X13.  An octave command [O] or [o] consumes the character that follows
    it, whatever it is: a digit within 4..7 sets the octave, any other
    character is dropped with the octave unchanged, and the parser goes on
    with the rest of the text. *)
Theorem X13_octave_command (P : platform) (s : state) (c d : ascii)
    (rest : string) :
  notes s = String c (String d rest) ->
  is_char c "O" || is_char c "o" = true ->
  parse_next_note P s
  = parse_next_note P (set_octave (octave_after d s) (set_notes rest s)).
Proof. exact (octave_command_runs P s c d rest). Qed.

(** In [OC] the note letter is taken for the digit and dropped. *)
Lemma X13_witness :
  octave_after "C" (submitted "OC") = 5
  /\ parse_next_note example_platform (submitted "OC")
     = parse_next_note example_platform
         (set_octave (octave_after "C" (submitted "OC"))
            (set_notes "z" (submitted "OC"))).
Proof.
  split; [vm_compute; reflexivity|].
  apply (X13_octave_command example_platform (submitted "OC") "O" "C" "z");
    reflexivity.
Defined.

(* ------------------------------------------------------------------------ *)
(** ** The modifiers of a note *)

Lemma note_modifiers_stop P fuel dot s :
  is_modifier (char_at (notes s) 0) = false ->
  note_modifiers P (S fuel) dot s = Ok s.
Proof.
  intros Hm. cbn [note_modifiers]. unfold is_modifier in Hm.
  repeat match type of Hm with
         | _ || _ = false => apply orb_false_elim in Hm;
                             destruct Hm as [Hm ?]
         end.
  repeat match goal with H : _ = false |- _ => rewrite H; clear H end.
  reflexivity.
Qed.

Lemma is_modifier_not_digit c : is_modifier c = false -> isdigit c = false.
Proof.
  unfold is_modifier. intros H.
  repeat (apply orb_false_elim in H; destruct H as [H _]). exact H.
Qed.

Lemma note_modifiers_digit P fuel dot s n pos :
  isdigit (char_at (notes s) 0) = true ->
  stoi (notes s) = Value (n, pos) ->
  note_modifiers P (S fuel) dot s
  = note_modifiers P fuel dot
      (let s1 := erase pos s in
       if (n >=? 1) && (n <=? 2000)
       then set_next_note_duration_s
              (f32 (f64 (next_note_duration_s s1 * f64 (4 / Z2Q n)))) s1
       else s1).
Proof. intros Hd Hs. cbn [note_modifiers]. rewrite Hd, Hs. reflexivity. Qed.

Lemma fraction_runs P s c num rest :
  notes s = String c (num ++ rest) ->
  is_note_letter c = true ->
  num <> EmptyString -> all_digits num = true ->
  number_of num <= INT_MAX ->
  is_modifier (char_at rest 0) = false ->
  exists s',
    parse_next_note P s = Ok s'
    /\ notes s' = rest
    /\ next_note_duration_s s'
       = fraction_of (number_of num) (base_duration c (beats_per_minute s))
    /\ next_note_freq s' = next_note_freq (after_letter c s).
Proof.
  intros Hn Hl Hne Hd Hmax Hm.
  rewrite (parse_next_note_letter P s c _ Hn Hl).
  pose proof (after_letter_notes c _ s Hn) as Hn1.
  pose proof (after_letter_duration c s Hl) as Hd1.
  set (b := base_duration c (beats_per_minute s)) in *. clearbody b.
  set (s1 := after_letter c s) in *. clearbody s1.
  assert (Hc : isdigit (char_at (num ++ rest) 0) = true).
  { destruct num as [|d r]; [congruence|]. cbn in *.
    apply andb_prop in Hd. apply Hd. }
  assert (Hlen : exists f, String.length (notes s1) = S f).
  { rewrite Hn1. destruct num as [|d r]; [congruence|].
    cbn [append String.length]. eauto. }
  destruct Hlen as [f Hf]. rewrite Hf.
  pose proof (stoi_number num rest Hne Hd (is_modifier_not_digit _ Hm) Hmax)
    as Hs.
  rewrite <- Hn1 in Hc, Hs.
  rewrite (note_modifiers_digit P (S f) _ s1 _ _ Hc Hs). cbv zeta.
  rewrite note_modifiers_stop.
  - eexists. split; [reflexivity|].
    destruct s1 as [pf buf fi e ir nr wr nt bpm oc vn np nf nd fl vw].
    cbn in Hn1, Hd1. subst nt nd. unfold erase, fraction_of; state_simpl.
    rewrite str_drop_app. destruct (_ && _); state_simpl; auto.
  - destruct s1 as [pf buf fi e ir nr wr nt bpm oc vn np nf nd fl vw].
    cbn in Hn1. subst nt. unfold erase; state_simpl.
    rewrite str_drop_app. destruct (_ && _); state_simpl; exact Hm.
Qed.

(** [std::stoi] on digits that write a number above [INT_MAX]. *)
Lemma stoi_overflow x y :
  all_digits x = true ->
  isdigit (char_at y 0) = false -> INT_MAX < number_of x ->
  stoi (x ++ y) = Raise out_of_range.
Proof.
  intros Hx Hy Hmax.
  destruct (all_digits_leading x y Hx Hy) as (E1 & E2 & E3).
  destruct x as [|c r]; [vm_compute in Hmax; discriminate|].
  cbn [all_digits] in Hx. apply andb_prop in Hx. destruct Hx as [Hc Hr].
  unfold stoi. cbn [append skip_space].
  rewrite (isdigit_not_space c Hc).
  destruct (isdigit_not_sign c Hc) as [-> ->].
  change (String c (r ++ y)) with (String c r ++ y)%string.
  rewrite E1, E2, app_nil_r.
  unfold number_of in *.
  destruct (leading_digits (String c r)) as [|d ds] eqn:El.
  { cbn [leading_digits] in El. rewrite Hc in El. discriminate. }
  destruct (Z.ltb_spec INT_MAX (decimal_value (d :: ds))) as [G|G]; [|lia].
  rewrite orb_true_r. reflexivity.
Qed.

Lemma fraction_overflows P s c num rest :
  notes s = String c (num ++ rest) ->
  is_note_letter c = true ->
  num <> EmptyString -> all_digits num = true ->
  INT_MAX < number_of num ->
  is_modifier (char_at rest 0) = false ->
  parse_next_note P s = Throw out_of_range.
Proof.
  intros Hn Hl Hne Hd Hmax Hm.
  rewrite (parse_next_note_letter P s c _ Hn Hl).
  pose proof (after_letter_notes c _ s Hn) as Hn1.
  set (s1 := after_letter c s) in *. clearbody s1.
  assert (Hc : isdigit (char_at (num ++ rest) 0) = true).
  { destruct num as [|d r]; [congruence|]. cbn in *.
    apply andb_prop in Hd. apply Hd. }
  pose proof (stoi_overflow num rest Hd (is_modifier_not_digit _ Hm) Hmax)
    as Hs.
  rewrite <- Hn1 in Hc, Hs.
  cbn [note_modifiers]. rewrite Hc, Hs. reflexivity.
Qed.

Lemma fraction_parsed P s c num rest :
  notes s = String c (num ++ rest) ->
  is_note_letter c = true ->
  num <> EmptyString -> all_digits num = true ->
  is_modifier (char_at rest 0) = false ->
  (number_of num <= INT_MAX ->
   exists s',
     parse_next_note P s = Ok s'
     /\ notes s' = rest
     /\ next_note_duration_s s'
        = fraction_of (number_of num) (base_duration c (beats_per_minute s))
     /\ next_note_freq s' = next_note_freq (after_letter c s))
  /\ (INT_MAX < number_of num -> parse_next_note P s = Throw out_of_range).
Proof.
  intros Hn Hl Hne Hd Hm. split; intros Hmax.
  - exact (fraction_runs P s c num rest Hn Hl Hne Hd Hmax Hm).
  - exact (fraction_overflows P s c num rest Hn Hl Hne Hd Hmax Hm).
Qed.

(** X14.  A number right after a note letter is a duration fraction.  When
    the number fits an [int]: a number [n] within 1..2000 multiplies the
    duration the letter starts from by [4.0 / n] (the quotient and the
    product in double precision, the result stored as a [float]), any
    other number leaves the duration as it is, and the frequency is not
    touched.  When the number does not fit an [int], [std::stoi] raises
    [out_of_range] and the exception leaves [parse_next_note]. *)
Theorem X14_duration_fraction (P : platform) (s : state) (c : ascii)
    (num rest : string) :
  notes s = String c (num ++ rest) ->
  is_note_letter c = true ->
  num <> EmptyString -> all_digits num = true ->
  is_modifier (char_at rest 0) = false ->
  (number_of num <= INT_MAX ->
   exists s',
     parse_next_note P s = Ok s'
     /\ notes s' = rest
     /\ next_note_duration_s s'
        = fraction_of (number_of num) (base_duration c (beats_per_minute s))
     /\ next_note_freq s' = next_note_freq (after_letter c s))
  /\ (INT_MAX < number_of num -> parse_next_note P s = Throw out_of_range).
Proof. exact (fraction_parsed P s c num rest). Qed.

(** An eighth note at 120 beats per minute lasts a quarter of a second. *)
Lemma X14_witness :
  (fraction_of (number_of "8")
     (base_duration "C" (beats_per_minute (submitted "C8"))) == 1 # 4)%Q
  /\ (number_of "8" <= INT_MAX ->
      exists s',
        parse_next_note example_platform (submitted "C8") = Ok s'
        /\ notes s' = "z"%string
        /\ next_note_duration_s s'
           = fraction_of (number_of "8")
               (base_duration "C" (beats_per_minute (submitted "C8")))
        /\ next_note_freq s'
           = next_note_freq (after_letter "C" (submitted "C8")))
  /\ (INT_MAX < number_of "8" ->
      parse_next_note example_platform (submitted "C8")
      = Throw out_of_range).
Proof.
  split; [vm_compute; reflexivity|].
  apply (X14_duration_fraction example_platform (submitted "C8") "C" "8"
           "z"); try reflexivity; discriminate.
Defined.

(** At 125 beats per minute the fraction 15 leaves a [float] a little
    below 0.128 s, 2047 samples where the exact product has 2048; a number
    of eleven digits raises [out_of_range]. *)
Example fraction_in_single_precision :
  samples_of (fraction_of 15 (quarter_note 125)) = 2047
  /\ Qtrunc ((60 # 125) * (4 # 15) * Z2Q SAMPLE_RATE) = 2048
  /\ parse_next_note example_platform (submitted "C99999999999")
     = Throw out_of_range.
Proof. split; [|split]; vm_compute; reflexivity. Qed.

Lemma note_modifiers_modifier P fuel dot s m r :
  notes s = String (modifier_char m) r ->
  let t := modify_tone (semitone P)
             (mkTone (next_note_freq s) (next_note_duration_s s) dot) m in
  note_modifiers P (S fuel) dot s
  = note_modifiers P fuel (tone_dot t)
      (erase 1 (set_next_note_freq (tone_freq t)
                  (set_next_note_duration_s (tone_duration t) s))).
Proof.
  intros Hn. cbn [note_modifiers]. rewrite Hn. cbn [char_at].
  destruct s as [pf buf fi e ir nr wr nt bpm oc vn np nf nd fl vw].
  destruct m; reflexivity.
Qed.

Lemma note_modifiers_text P rest :
  is_modifier (char_at rest 0) = false ->
  forall ms fuel dot s,
    notes s = (modifiers_text ms ++ rest)%string ->
    (List.length ms < fuel)%nat ->
    exists s',
      note_modifiers P fuel dot s = Ok s'
      /\ notes s' = rest
      /\ let t := fold_left (modify_tone (semitone P)) ms
                    (mkTone (next_note_freq s) (next_note_duration_s s) dot)
         in next_note_freq s' = tone_freq t
            /\ next_note_duration_s s' = tone_duration t.
Proof.
  intros Hm. induction ms as [|m r IH]; intros fuel dot s Hn Hf;
    (destruct fuel as [|fuel]; [cbn in Hf; lia|]).
  - cbn in Hn. rewrite note_modifiers_stop by (rewrite Hn; exact Hm).
    exists s. cbn. auto.
  - cbn [modifiers_text append] in Hn.
    rewrite (note_modifiers_modifier P fuel dot s m _ Hn). cbv zeta.
    cbn [fold_left].
    set (t := modify_tone (semitone P)
                (mkTone (next_note_freq s) (next_note_duration_s s) dot) m).
    destruct (IH fuel (tone_dot t)
                (erase 1 (set_next_note_freq (tone_freq t)
                            (set_next_note_duration_s (tone_duration t) s))))
      as (s' & H1 & H2 & H3).
    + destruct s; cbn in Hn; subst; reflexivity.
    + cbn [List.length] in Hf. lia.
    + exists s'. split; [exact H1|]. split; [exact H2|].
      cbv zeta in H3.
      replace (next_note_freq
                 (erase 1 (set_next_note_freq (tone_freq t)
                             (set_next_note_duration_s (tone_duration t) s))))
        with (tone_freq t) in H3 by (destruct s; reflexivity).
      replace (next_note_duration_s
                 (erase 1 (set_next_note_freq (tone_freq t)
                             (set_next_note_duration_s (tone_duration t) s))))
        with (tone_duration t) in H3 by (destruct s; reflexivity).
      destruct t. exact H3.
Qed.

Lemma modifiers_text_length ms :
  String.length (modifiers_text ms) = List.length ms.
Proof. induction ms; cbn; auto. Qed.

Lemma parse_modifiers P s c ms rest :
  notes s = String c (modifiers_text ms ++ rest) ->
  is_note_letter c = true ->
  is_modifier (char_at rest 0) = false ->
  exists s',
    parse_next_note P s = Ok s'
    /\ notes s' = rest
    /\ next_note_freq s'
       = tone_freq (fold_left (modify_tone (semitone P)) ms
                      (letter_tone c s))
    /\ next_note_duration_s s'
       = tone_duration (fold_left (modify_tone (semitone P)) ms
                          (letter_tone c s)).
Proof.
  intros Hn Hl Hm.
  rewrite (parse_next_note_letter P s c _ Hn Hl).
  pose proof (after_letter_notes c _ s Hn) as Hn1.
  destruct (note_modifiers_text P rest Hm ms
              (S (String.length (notes (after_letter c s))))
              (next_note_duration_s (after_letter c s))
              (after_letter c s) Hn1) as (s' & H1 & H2 & H3 & H4).
  { rewrite Hn1, length_append_str, modifiers_text_length. lia. }
  rewrite H1. exists (set_next_note_parsed true s').
  split; [reflexivity|].
  rewrite (after_letter_duration c s Hl) in H3, H4.
  unfold letter_tone. destruct s'. auto.
Qed.

(** X15.  After a note letter, the dots, octave shifts and semitone shifts
    are read one by one, in the order they are written, up to the first
    character that is no modifier: the note resolves to what the
    modifiers, applied in turn to the note the letter starts from, make
    of it, each of them rounding its result to a [float] ([modify_tone]).
    The statement is for at most 64 modifiers, an octave within 4..7 and a
    semitone ratio between 1 and 2, where no value leaves the exponent
    range of [float] and [double]. *)
Theorem X15_modifiers_apply_in_turn (P : platform) (s : state) (c : ascii)
    (ms : list modifier) (rest : string) :
  (List.length ms <= 64)%nat -> 4 <= octave s <= 7 ->
  (1 <= semitone P)%Q -> (semitone P <= 2)%Q ->
  notes s = String c (modifiers_text ms ++ rest) ->
  is_note_letter c = true ->
  is_modifier (char_at rest 0) = false ->
  exists s',
    parse_next_note P s = Ok s'
    /\ notes s' = rest
    /\ next_note_freq s'
       = tone_freq (fold_left (modify_tone (semitone P)) ms
                      (letter_tone c s))
    /\ next_note_duration_s s'
       = tone_duration (fold_left (modify_tone (semitone P)) ms
                          (letter_tone c s)).
Proof. intros _ _ _ _. exact (parse_modifiers P s c ms rest). Qed.

Lemma X15_witness :
  exists s',
    parse_next_note example_platform (submitted "G>.#") = Ok s'
    /\ notes s' = "z"%string
    /\ next_note_freq s'
       = tone_freq (fold_left (modify_tone (semitone example_platform))
                      [OctaveUp; Dot; Sharp]
                      (letter_tone "G" (submitted "G>.#")))
    /\ next_note_duration_s s'
       = tone_duration (fold_left (modify_tone (semitone example_platform))
                          [OctaveUp; Dot; Sharp]
                          (letter_tone "G" (submitted "G>.#"))).
Proof.
  apply (X15_modifiers_apply_in_turn example_platform (submitted "G>.#")
           "G" [OctaveUp; Dot; Sharp] "z");
    try reflexivity; vm_compute; try lia; try discriminate;
    split; discriminate.
Defined.

(** [G>.#] at 125 beats per minute: the dotted duration is the [float]
    just below the one nearest to 0.72 s, and the frequency the [float]
    nearest to the double-precision product of the frequency of [G], one
    octave up, and the semitone ratio. *)
Example modifiers_in_single_precision :
  next_note_duration_s (parsed example_platform (submitted "T125G>.#"))
  = (12079595 # 16777216)%Q
  /\ next_note_freq (parsed example_platform (submitted "T125G>.#"))
     = f32 (f64 (f32 (f32 (f64 (float_literal (78399 # 100) * 2 ^ 1)) * 2)
                 * semitone example_platform)).
Proof. split; vm_compute; reflexivity. Qed.

(* ------------------------------------------------------------------------ *)
(** ** Dots and shifts do not disturb one another *)

Lemma fold_tone_duration st ms : forall t,
  tone_duration (fold_left (modify_tone st) ms t)
  = dotted (dot_count ms) (tone_duration t) (tone_dot t).
Proof.
  induction ms as [|m r IH]; intros t; [reflexivity|].
  cbn [fold_left]. rewrite IH.
  destruct m; reflexivity.
Qed.

Lemma parse_dots_among_shifts P s c ms rest :
  notes s = String c (modifiers_text ms ++ rest) ->
  is_note_letter c = true ->
  is_modifier (char_at rest 0) = false ->
  let d := base_duration c (beats_per_minute s) in
  let k := dot_count ms in
  exists s',
    parse_next_note P s = Ok s'
    /\ next_note_duration_s s' = dotted k d d
    /\ ((forall i, (1 <= i <= k)%nat ->
           (f32 (d * (2 - Qpower 2 (- Z.of_nat i)))
            == d * (2 - Qpower 2 (- Z.of_nat i)))%Q) ->
        (next_note_duration_s s' == d * (2 - Qpower 2 (- Z.of_nat k)))%Q).
Proof.
  intros Hn Hl Hm d k.
  destruct (parse_modifiers P s c ms rest Hn Hl Hm)
    as (s' & H1 & _ & _ & H4).
  exists s'. split; [exact H1|].
  assert (E : next_note_duration_s s' = dotted k d d).
  { rewrite H4, fold_tone_duration. reflexivity. }
  split; [exact E|]. intros Hx. rewrite E.
  apply dotted_exact_from; [apply base_duration_float|exact Hx].
Qed.

(** X16.  The duration of a note with [k] dots is the same when octave and
    semitone shifts are written before, between or after the dots: the
    shifts do not touch the duration.  It is the duration the letter
    starts from with its half, quarter and so on added in turn, each sum
    rounded to single precision, and it is [d * (2 - 2^(-k))] when the
    durations [d * (2 - 2^(-i))] for 1 to [k] dots are [float]s. *)
Theorem X16_dots_among_shifts (P : platform) (s : state) (c : ascii)
    (ms : list modifier) (rest : string) :
  notes s = String c (modifiers_text ms ++ rest) ->
  is_note_letter c = true ->
  is_modifier (char_at rest 0) = false ->
  let d := base_duration c (beats_per_minute s) in
  let k := dot_count ms in
  exists s',
    parse_next_note P s = Ok s'
    /\ next_note_duration_s s' = dotted k d d
    /\ ((forall i, (1 <= i <= k)%nat ->
           (f32 (d * (2 - Qpower 2 (- Z.of_nat i)))
            == d * (2 - Qpower 2 (- Z.of_nat i)))%Q) ->
        (next_note_duration_s s' == d * (2 - Qpower 2 (- Z.of_nat k)))%Q).
Proof. exact (parse_dots_among_shifts P s c ms rest). Qed.

Lemma X16_witness :
  let d := base_duration "G" (beats_per_minute (submitted "G>.#.")) in
  let k := dot_count [OctaveUp; Dot; Sharp; Dot] in
  exists s',
    parse_next_note example_platform (submitted "G>.#.") = Ok s'
    /\ next_note_duration_s s' = dotted k d d
    /\ ((forall i, (1 <= i <= k)%nat ->
           (f32 (d * (2 - Qpower 2 (- Z.of_nat i)))
            == d * (2 - Qpower 2 (- Z.of_nat i)))%Q) ->
        (next_note_duration_s s' == d * (2 - Qpower 2 (- Z.of_nat k)))%Q).
Proof.
  apply (X16_dots_among_shifts example_platform (submitted "G>.#.") "G"
           [OctaveUp; Dot; Sharp; Dot] "z"); reflexivity.
Defined.

(** With the dots between shifts, the quarter note of 0.5 s lasts
    0.875 s. *)
Example dots_among_shifts_at_120 :
  (next_note_duration_s (parsed example_platform (submitted "G>.#."))
   == 7 # 8)%Q.
Proof. vm_compute. reflexivity. Qed.

Lemma semitones_comp st ms : forall a b,
  (a == b)%Q -> (semitones st ms a == semitones st ms b)%Q.
Proof.
  induction ms as [|m r IH]; intros a b H; [exact H|].
  destruct m; cbn [semitones]; try (apply IH; exact H); unfold f32, f64.
  - rewrite (fround_comp 53 (a * st) (b * st)); [reflexivity|].
    apply Qmult_comp; [exact H|reflexivity].
  - rewrite (fround_comp 53 (a * st) (b * st)); [reflexivity|].
    apply Qmult_comp; [exact H|reflexivity].
  - rewrite (fround_comp 53 (a / st) (b / st)); [reflexivity|].
    apply Qmult_comp; [exact H|reflexivity].
Qed.

(** The semitone shifts commute with the multiplication by a power of
    2. *)
Lemma semitones_scale st ms k : forall f,
  (semitones st ms (f * 2 ^ k) == semitones st ms f * 2 ^ k)%Q.
Proof.
  induction ms as [|m r IH]; intros f; [reflexivity|].
  assert (Up : (f32 (f64 (f * 2 ^ k * st)) == f32 (f64 (f * st)) * 2 ^ k)%Q).
  { unfold f32, f64.
    rewrite (fround_comp 53 (f * 2 ^ k * st) (f * st * 2 ^ k)) by ring.
    rewrite (fround_comp 24 _ _ (fround_scale 53 (f * st) k)).
    apply fround_scale. }
  assert (Dn : (f32 (f64 (f * 2 ^ k / st)) == f32 (f64 (f / st)) * 2 ^ k)%Q).
  { unfold f32, f64.
    rewrite (fround_comp 53 (f * 2 ^ k / st) (f / st * 2 ^ k))
      by (unfold Qdiv; ring).
    rewrite (fround_comp 24 _ _ (fround_scale 53 (f / st) k)).
    apply fround_scale. }
  destruct m; cbn [semitones]; try apply IH.
  - rewrite (semitones_comp st r _ _ Up). apply IH.
  - rewrite (semitones_comp st r _ _ Up). apply IH.
  - rewrite (semitones_comp st r _ _ Dn). apply IH.
Qed.

(** The octave shifts are exact: they come out of the other modifiers as
    a power of 2. *)
Lemma fold_tone_freq st ms : forall t,
  f32 (tone_freq t) = tone_freq t ->
  (tone_freq (fold_left (modify_tone st) ms t)
   == semitones st ms (tone_freq t) * 2 ^ octave_shift ms)%Q.
Proof.
  induction ms as [|m r IH]; intros t Ht.
  - cbn. ring.
  - cbn [fold_left].
    assert (Hf : f32 (tone_freq (modify_tone st t m))
                 = tone_freq (modify_tone st t m)).
    { destruct m; cbn [modify_tone tone_freq]; try exact Ht;
        unfold f32; apply fround_idem; lia. }
    rewrite (IH _ Hf). clear IH Hf.
    destruct m; cbn [modify_tone octave_shift semitones tone_freq];
      try reflexivity.
    + assert (E : (f32 (tone_freq t * 2) == tone_freq t * 2 ^ 1)%Q).
      { unfold f32 in *. rewrite (fround_double 24), Ht. reflexivity. }
      rewrite (semitones_comp st r _ _ E), semitones_scale, Qpow2_plus.
      ring.
    + assert (E : (f32 (tone_freq t / 2) == tone_freq t * 2 ^ (-1))%Q).
      { unfold f32 in *. rewrite (fround_half 24), Ht. reflexivity. }
      rewrite (semitones_comp st r _ _ E), semitones_scale, Qpow2_plus.
      ring.
Qed.

Lemma after_letter_freq_float c s :
  is_note_letter c = true ->
  f32 (next_note_freq (after_letter c s)) = next_note_freq (after_letter c s).
Proof.
  intros _.
  assert (E : exists q, next_note_freq (after_letter c s) = f32 (f64 q)).
  { destruct s; unfold after_letter; state_simpl. eexists. reflexivity. }
  destruct E as [q ->]. unfold f32. apply fround_idem. lia.
Qed.

Lemma parse_shifts_among_dots P s c ms rest :
  notes s = String c (modifiers_text ms ++ rest) ->
  is_note_letter c = true ->
  is_modifier (char_at rest 0) = false ->
  exists s',
    parse_next_note P s = Ok s'
    /\ (next_note_freq s'
        == semitones (semitone P) ms (next_note_freq (after_letter c s))
           * Qpower 2 (octave_shift ms))%Q.
Proof.
  intros Hn Hl Hm.
  destruct (parse_modifiers P s c ms rest Hn Hl Hm)
    as (s' & H1 & _ & H3 & _).
  exists s'. split; [exact H1|]. rewrite H3.
  apply (fold_tone_freq (semitone P) ms (letter_tone c s)).
  apply (after_letter_freq_float c s Hl).
Qed.

(** X17.  The octave shifts of a note are exact and commute with its
    other modifiers: the frequency is 2 to the number of [>] less the
    number of [<], times the frequency the semitone shifts alone give,
    applied in the order written to the frequency of the letter at the
    octave in effect; opposite octave shifts cancel and the dots do not
    touch the frequency.  (The semitone shifts round at each step and need
    not cancel.)  The statement is for at most 64 modifiers, an octave
    within 4..7 and a semitone ratio between 1 and 2, where no value
    leaves the exponent range of [float] and [double]. *)
Theorem X17_shifts_add_up (P : platform) (s : state) (c : ascii)
    (ms : list modifier) (rest : string) :
  (List.length ms <= 64)%nat -> 4 <= octave s <= 7 ->
  (1 <= semitone P)%Q -> (semitone P <= 2)%Q ->
  notes s = String c (modifiers_text ms ++ rest) ->
  is_note_letter c = true ->
  is_modifier (char_at rest 0) = false ->
  exists s',
    parse_next_note P s = Ok s'
    /\ (next_note_freq s'
        == semitones (semitone P) ms (next_note_freq (after_letter c s))
           * Qpower 2 (octave_shift ms))%Q.
Proof.
  intros _ _ _ _. exact (parse_shifts_among_dots P s c ms rest).
Qed.

(** In [A><.>] two of the octave shifts cancel: the note is one octave
    above [A]. *)
Lemma X17_witness :
  octave_shift [OctaveUp; OctaveDown; Dot; OctaveUp] = 1
  /\ exists s',
       parse_next_note example_platform (submitted "A><.>") = Ok s'
       /\ (next_note_freq s'
           == semitones (semitone example_platform)
                [OctaveUp; OctaveDown; Dot; OctaveUp]
                (next_note_freq (after_letter "A" (submitted "A><.>")))
              * Qpower 2
                  (octave_shift [OctaveUp; OctaveDown; Dot; OctaveUp]))%Q.
Proof.
  split; [reflexivity|].
  apply (X17_shifts_add_up example_platform (submitted "A><.>") "A"
           [OctaveUp; OctaveDown; Dot; OctaveUp] "z");
    try reflexivity; vm_compute; try lia; try discriminate;
    split; discriminate.
Defined.

(** A semitone up and a semitone down do not cancel: [B#-] is a [float]
    below [B]. *)
Example semitone_shifts_round :
  next_note_freq (parsed example_platform (submitted "B"))
  = (4045865 # 4096)%Q
  /\ next_note_freq (parsed example_platform (submitted "B#-"))
     = (16183459 # 16384)%Q.
Proof. split; vm_compute; reflexivity. Qed.

(* ------------------------------------------------------------------------ *)
(** ** Notes of an explicit frequency *)

Lemma x_letter_tests c :
  is_char c "X" || is_char c "x" = true ->
  isspace c = false
  /\ is_char c "O" || is_char c "o" = false
  /\ is_char c "T" || is_char c "t" = false
  /\ is_char c "!" = false
  /\ is_char c "V" || is_char c "v" = false
  /\ is_note_letter c = false.
Proof.
  destruct c as [[] [] [] [] [] [] [] []]; vm_compute; intros H;
    try discriminate H; repeat split.
Qed.

Lemma explicit_note_runs P s c text f pos :
  notes s = String c text ->
  is_char c "X" || is_char c "x" = true ->
  stof P text = Value (f, pos) ->
  let rest := str_drop pos text in
  let m := char_at rest 0 in
  (is_char m "M" || is_char m "m" = false ->
   parse_next_note P s
   = Ok (set_next_note_parsed true
           (set_notes rest
              (set_next_note_freq (audible f)
                 (set_next_note_duration_s
                    (quarter_note (beats_per_minute s)) s)))))
  /\ (forall ms mpos,
        is_char m "M" || is_char m "m" = true ->
        stof P (str_drop 1 rest) = Value (ms, mpos) ->
        parse_next_note P s
        = Ok (set_next_note_parsed true
                (set_notes (str_drop mpos (str_drop 1 rest))
                   (set_next_note_freq (audible f)
                      (set_next_note_duration_s
                         (f32 (f64 (ms / 1000))) s))))).
Proof.
  intros Hn Hc Hs rest m.
  destruct (x_letter_tests c Hc) as (T1 & T2 & T3 & T4 & T5 & T6).
  assert (E : parse_next_note P s
              = match parse_token P s with
                | Ok (Continue s1) =>
                    parse_next_note P s1
                | Ok (Break s1) => Ok (set_next_note_parsed true s1)
                | Throw e => Throw e
                | OutOfFuel => OutOfFuel
                end).
  { destruct (parse_token P s) as [[s1|s1]| |] eqn:Et.
    - apply parse_next_note_continue; [rewrite Hn; discriminate|exact Et].
    - unfold parse_next_note. cbn [parse_tokens]. rewrite Hn, Et.
      reflexivity.
    - unfold parse_next_note. cbn [parse_tokens]. rewrite Hn, Et.
      reflexivity.
    - unfold parse_next_note. cbn [parse_tokens]. rewrite Hn, Et.
      reflexivity. }
  rewrite E. clear E. unfold parse_token. rewrite Hn. cbn [char_at].
  rewrite T1, T2, T3, T4, T5, T6, Hc.
  replace (notes (erase 1 (set_next_note_duration_s
                             (quarter_note (beats_per_minute s)) s)))
    with text by (destruct s; cbn in Hn; subst; reflexivity).
  rewrite Hs. cbv zeta.
  destruct s as [pf buf fi e ir nr wr nt bpm oc vn np nf nd fl vw].
  cbn in Hn. subst nt. unfold erase, audible. state_simpl.
  cbn [str_drop]. fold rest.
  assert (Hr : forall x, notes (if negb (Qle_bool 20 f && Qle_bool f 20000)
                                then set_next_note_freq 0 x else x)
                         = notes x)
    by (intros x; destruct (negb _); destruct x; reflexivity).
  split.
  - intros Hm.
    destruct (negb (Qle_bool 20 f && Qle_bool f 20000)); state_simpl;
      fold m; rewrite Hm; reflexivity.
  - intros ms mpos Hm Hs2.
    destruct (negb (Qle_bool 20 f && Qle_bool f 20000)); state_simpl;
      fold m; rewrite Hm; rewrite Hs2; reflexivity.
Qed.

(** X18.  A note written [X] or [x] with a frequency takes that frequency
    when it is within 20..20000 Hz and is silent (frequency 0) otherwise;
    without an [M] part it lasts a quarter note at the tempo in effect
    ([60.0 / tempo] as a [float]), and the octave in effect plays no
    part. *)
Theorem X18_explicit_frequency (P : platform) (s : state) (c : ascii)
    (text : string) (f : Q) (pos : nat) :
  notes s = String c text ->
  is_char c "X" || is_char c "x" = true ->
  stof P text = Value (f, pos) ->
  is_char (char_at (str_drop pos text) 0) "M"
  || is_char (char_at (str_drop pos text) 0) "m" = false ->
  exists s',
    parse_next_note P s = Ok s'
    /\ notes s' = str_drop pos text
    /\ next_note_freq s' = audible f
    /\ next_note_duration_s s' = quarter_note (beats_per_minute s).
Proof.
  intros Hn Hc Hs Hm.
  destruct (explicit_note_runs P s c text f pos Hn Hc Hs) as [H _].
  rewrite (H Hm). eexists. split; [reflexivity|].
  destruct s; state_simpl; repeat split.
Qed.

(** 15 Hz is below the range: the note is a silence of a quarter note. *)
Lemma X18_witness :
  audible 15 = 0%Q
  /\ exists s',
       parse_next_note example_platform (submitted "X15") = Ok s'
       /\ notes s' = str_drop 2 "15z"
       /\ next_note_freq s' = audible 15
       /\ next_note_duration_s s'
          = quarter_note (beats_per_minute (submitted "X15")).
Proof.
  split; [reflexivity|].
  apply (X18_explicit_frequency example_platform (submitted "X15") "X"
           "15z" 15 2); reflexivity.
Defined.

(** X19.  With an [M] part the note lasts the given number of
    milliseconds, whatever the tempo: the number divided by [1000.0] in
    double precision, stored as a [float].  The statement is for a
    quotient that is 0 or within the normal range of [float]. *)
Theorem X19_explicit_duration (P : platform) (s : state) (c : ascii)
    (text : string) (f ms : Q) (pos mpos : nat) :
  notes s = String c text ->
  is_char c "X" || is_char c "x" = true ->
  stof P text = Value (f, pos) ->
  is_char (char_at (str_drop pos text) 0) "M"
  || is_char (char_at (str_drop pos text) 0) "m" = true ->
  stof P (str_drop 1 (str_drop pos text)) = Value (ms, mpos) ->
  float_normal (ms / 1000) ->
  exists s',
    parse_next_note P s = Ok s'
    /\ notes s' = str_drop mpos (str_drop 1 (str_drop pos text))
    /\ next_note_freq s' = audible f
    /\ next_note_duration_s s' = f32 (f64 (ms / 1000)).
Proof.
  intros Hn Hc Hs Hm Hs2 _.
  destruct (explicit_note_runs P s c text f pos Hn Hc Hs) as [_ H].
  rewrite (H ms mpos Hm Hs2). eexists. split; [reflexivity|].
  destruct s; state_simpl; repeat split.
Qed.

Lemma X19_witness :
  exists s',
    parse_next_note example_platform (submitted "x440m251") = Ok s'
    /\ notes s' = str_drop 3 (str_drop 1 (str_drop 3 "440m251z"))
    /\ next_note_freq s' = audible 440
    /\ next_note_duration_s s' = f32 (f64 (251 / 1000)).
Proof.
  apply (X19_explicit_duration example_platform (submitted "x440m251") "x"
           "440m251z" 440 251 3 3); try reflexivity.
  right. split; vm_compute; discriminate.
Defined.

(** 251 ms are the [float] 4211081 / 16777216 s, a little less than
    0.251 s, and 4015 samples. *)
Example explicit_duration_in_single_precision :
  f32 (f64 (251 / 1000)) = (4211081 # 16777216)%Q
  /\ samples_of (f32 (f64 (251 / 1000))) = 4015
  /\ Qtrunc ((251 # 1000) * Z2Q SAMPLE_RATE) = 4016.
Proof. split; [|split]; vm_compute; reflexivity. Qed.

(* ------------------------------------------------------------------------ *)
(** ** What a render leaves in the ring buffer *)

Lemma render_frames P s :
  cursor_ok s ->
  0 <= samples_of (next_note_duration_s s) < avail_space s ->
  let n := samples_of (next_note_duration_s s) in
  let s' := write_next_note_to_audio_buf P s in
  audio_buf_num_populated_frames s'
  = audio_buf_num_populated_frames s
    + (audio_buf_empty_idx s mod FRAME_SIZE + n) / FRAME_SIZE
  /\ audio_buf_empty_idx s' mod FRAME_SIZE
     = (audio_buf_empty_idx s mod FRAME_SIZE + n) mod FRAME_SIZE.
Proof.
  intros Hc [H0 Hlt]. cbv zeta.
  destruct (write_next_note_spec P s Hc) as [_ Hw].
  destruct (Hw Hlt) as (Hc' & _ & Hf & He & _).
  set (n := samples_of (next_note_duration_s s)) in *.
  set (s' := write_next_note_to_audio_buf P s) in *.
  clearbody s' n.
  rewrite Z.max_r in Hf, He by lia.
  unfold fill, cursor_ok, AUDIO_BUF_LEN, AUDIO_BUF_NUM_FRAMES, FRAME_SIZE
    in *.
  zmod.
Qed.

(** X20.  A render that is not deferred counts one frame each time the
    write cursor reaches a frame boundary.  With the frame count at least
    -1 and [n] the sample count of the note (the single-precision product
    of duration and sample rate, truncated), a note of [n] samples written
    from offset [r] of a frame adds [(r + n) / FRAME_SIZE] to the frame
    count and leaves the cursor at offset [(r + n) mod FRAME_SIZE]. *)
Theorem X20_render_counts_completed_frames (P : platform) (s : state) :
  cursor_ok s -> -1 <= audio_buf_num_populated_frames s ->
  0 <= samples_of (next_note_duration_s s) < avail_space s ->
  let n := samples_of (next_note_duration_s s) in
  let s' := write_next_note_to_audio_buf P s in
  audio_buf_num_populated_frames s'
  = audio_buf_num_populated_frames s
    + (audio_buf_empty_idx s mod FRAME_SIZE + n) / FRAME_SIZE
  /\ audio_buf_empty_idx s' mod FRAME_SIZE
     = (audio_buf_empty_idx s mod FRAME_SIZE + n) mod FRAME_SIZE.
Proof. intros Hc _. exact (render_frames P s Hc). Qed.

(** After the rest of 1000 samples, the final rest of 3200 samples
    completes four frames and leaves the cursor at offset 104. *)
Lemma X20_witness :
  let s := set_next_note_parsed true
             (set_next_note_duration_s (float_literal (2 # 10))
                rest_rendered) in
  let s' := write_next_note_to_audio_buf example_platform s in
  audio_buf_num_populated_frames s'
  = audio_buf_num_populated_frames s + (1000 mod FRAME_SIZE + 3200) / FRAME_SIZE
  /\ audio_buf_empty_idx s' mod FRAME_SIZE
     = (1000 mod FRAME_SIZE + 3200) mod FRAME_SIZE.
Proof.
  apply (X20_render_counts_completed_frames example_platform
           (set_next_note_parsed true
              (set_next_note_duration_s (float_literal (2 # 10))
                 rest_rendered)));
    vm_compute; first [reflexivity | split; congruence | congruence].
Defined.

Lemma for_loop_zero_or_old n : forall i s j,
  let s' := for_loop n i (fun _ => put_sample 0) s in
  audio_buf s' j = 0 \/ audio_buf s' j = audio_buf s j.
Proof.
  induction n as [|n IH]; intros i s j; cbn [for_loop]; [right; reflexivity|].
  destruct (IH (i + 1) (put_sample 0 s) j) as [H|H]; [left; exact H|].
  cbv zeta. rewrite H.
  destruct s as [pf buf fi e ir nr wr nt bpm oc vn np nf nd fl vw].
  unfold put_sample. state_simpl.
  destruct (_ =? 0); state_simpl; unfold buf_set;
    destruct (j =? _); auto.
Qed.

Lemma for_loop_zero n : forall i s k,
  cursor_ok s -> 0 <= k < Z.of_nat n ->
  audio_buf (for_loop n i (fun _ => put_sample 0) s)
    (Z.lxor ((audio_buf_empty_idx s + k) mod AUDIO_BUF_LEN) 1) = 0.
Proof.
  induction n as [|n IH]; intros i s k Hc Hk; [lia|]. cbn [for_loop].
  destruct (put_sample_spec 0 s Hc) as (Hc1 & _ & He1 & _).
  destruct (Z.eq_dec k 0) as [->|Hk0].
  - destruct (for_loop_zero_or_old n (i + 1) (put_sample 0 s)
                (Z.lxor ((audio_buf_empty_idx s + 0) mod AUDIO_BUF_LEN) 1))
      as [H|H]; [exact H|].
    cbv zeta in H. rewrite H. rewrite Z.add_0_r.
    rewrite Z.mod_small by exact Hc.
    destruct s as [pf buf fi e ir nr wr nt bpm oc vn np nf nd fl vw].
    unfold put_sample. state_simpl.
    destruct (_ =? 0); state_simpl; unfold buf_set;
      rewrite Z.eqb_refl; reflexivity.
  - specialize (IH (i + 1) (put_sample 0 s) (k - 1) Hc1 ltac:(lia)).
    rewrite He1 in IH. rewrite Zplus_mod_idemp_l in IH.
    replace (audio_buf_empty_idx s + 1 + (k - 1))
      with (audio_buf_empty_idx s + k) in IH by lia.
    exact IH.
Qed.

Lemma rest_renders_zeros P s k :
  cursor_ok s -> Qeq_bool (next_note_freq s) 0 = true ->
  samples_of (next_note_duration_s s) < avail_space s ->
  0 <= k < samples_of (next_note_duration_s s) ->
  audio_buf (write_next_note_to_audio_buf P s)
    (Z.lxor ((audio_buf_empty_idx s + k) mod AUDIO_BUF_LEN) 1) = 0.
Proof.
  intros Hc Hf Hlt Hk. unfold write_next_note_to_audio_buf.
  destruct (Z.gtb_spec (avail_space s)
              (samples_of (next_note_duration_s s))); [|lia].
  rewrite Hf. unfold generate_silence. cbv zeta.
  match goal with |- context [set_next_note_parsed false ?y] =>
    replace (audio_buf (set_next_note_parsed false y)) with (audio_buf y)
      by (destruct y; reflexivity)
  end.
  apply for_loop_zero; [assumption|lia].
Qed.

(** X21.  A rest (frequency 0) that is not deferred is rendered as
    silence.  With the frame count at least -1 and [n] the sample count of
    the rest (the single-precision product of duration and sample rate,
    truncated), each of its [n] samples is stored as 0, the sample written
    at cursor position [p] being stored at index [p xor 1]. *)
Theorem X21_rest_renders_zeros (P : platform) (s : state) (k : Z) :
  cursor_ok s -> -1 <= audio_buf_num_populated_frames s ->
  Qeq_bool (next_note_freq s) 0 = true ->
  samples_of (next_note_duration_s s) < avail_space s ->
  0 <= k < samples_of (next_note_duration_s s) ->
  audio_buf (write_next_note_to_audio_buf P s)
    (Z.lxor ((audio_buf_empty_idx s + k) mod AUDIO_BUF_LEN) 1) = 0.
Proof. intros Hc _. exact (rest_renders_zeros P s k Hc). Qed.

Lemma X21_witness :
  audio_buf (write_next_note_to_audio_buf example_platform rest_pending)
    (Z.lxor ((audio_buf_empty_idx rest_pending + 999) mod AUDIO_BUF_LEN) 1)
  = 0.
Proof.
  apply (X21_rest_renders_zeros example_platform rest_pending 999);
    vm_compute; first [reflexivity | split; congruence | congruence].
Defined.

(* ------------------------------------------------------------------------ *)
(** ** The samples of a rendered note *)

Lemma Qscale_unit (a t : Q) :
  (0 <= a)%Q -> (0 <= t)%Q -> (t <= 1)%Q -> (0 <= a * t)%Q /\ (a * t <= a)%Q.
Proof. intros. split; nra. Qed.

Lemma Qscale_sin (a m x : Q) :
  (0 <= m)%Q -> (m <= a)%Q -> (-1 <= x)%Q -> (x <= 1)%Q ->
  (- a <= m * x)%Q /\ (m * x <= a)%Q.
Proof. intros. split; nra. Qed.

Lemma Qtrunc_within (q : Q) (a : Z) :
  (- Z2Q a <= q)%Q -> (q <= Z2Q a)%Q -> - a <= Qtrunc q <= a.
Proof.
  unfold Qtrunc, Z2Q, inject_Z, Qle, Qopp. destruct q as [n d]. cbn [Qnum Qden].
  intros H1 H2.
  pose proof (Z.quot_rem' n (Z.pos d)) as E.
  assert (Hr : Z.abs (Z.rem n (Z.pos d)) < Z.pos d).
  { pose proof (Z.rem_bound_abs n (Z.pos d) ltac:(lia)). lia. }
  assert (Hs : 0 <= Z.rem n (Z.pos d) * n) by (apply Z.rem_sign_mul; lia).
  nia.
Qed.

Lemma to_int16_small z : -32768 <= z <= 32767 -> to_int16 z = z.
Proof. unfold to_int16. intros H. rewrite Z.mod_small; lia. Qed.

Lemma frac_unit (i n : Z) :
  0 <= i < n -> (0 <= Z2Q i / Z2Q n)%Q /\ (Z2Q i / Z2Q n < 1)%Q.
Proof.
  intros H. unfold Z2Q.
  assert (Hn : (0 < inject_Z n)%Q).
  { change (inject_Z 0 < inject_Z n)%Q. rewrite <- Zlt_Qlt. lia. }
  split.
  - apply Qle_shift_div_l; [exact Hn|]. rewrite Qmult_0_l.
    change (inject_Z 0 <= inject_Z i)%Q. rewrite <- Zle_Qle. lia.
  - apply Qlt_shift_div_r; [exact Hn|]. rewrite Qmult_1_l.
    rewrite <- Zlt_Qlt. lia.
Qed.

(** Rounding keeps a value of the unit interval in the unit interval. *)
Lemma fround_unit prec x :
  1 <= prec -> (0 <= x)%Q -> (x <= 1)%Q ->
  (0 <= fround prec x)%Q /\ (fround prec x <= 1)%Q.
Proof.
  intros Hp H0 H1. split; [apply fround_nonneg; assumption|].
  apply (fround_le_int prec Hp x 1); [|exact H1].
  assert (2 <= 2 ^ prec); [|lia].
  change 2 with (2 ^ 1) at 1. apply Z.pow_le_mono_r; lia.
Qed.

(** The two constants of the fades. *)
Lemma fade_constants :
  FADE_IN_FRAC = (5368709 # 268435456)%Q
  /\ FADE_OUT_FRAC = (5368709 # 268435456)%Q
  /\ f32 (1 - FADE_OUT_FRAC) = (2055209 # 2097152)%Q.
Proof. split; [|split]; vm_compute; reflexivity. Qed.

Lemma scaled_amplitude (a : Z) (t : Q) :
  0 <= a <= 32767 -> (0 <= t)%Q -> (t <= 1)%Q ->
  (0 <= fround 53 (Z2Q a * t))%Q /\ (fround 53 (Z2Q a * t) <= Z2Q a)%Q.
Proof.
  intros Ha T0 T1.
  assert (HA : (0 <= Z2Q a)%Q).
  { change (inject_Z 0 <= inject_Z a)%Q. rewrite <- Zle_Qle. lia. }
  assert (A53 : - 2 ^ 53 < a < 2 ^ 53).
  { change (2 ^ 53) with 9007199254740992. lia. }
  destruct (Qscale_unit _ _ HA T0 T1) as [S0 S1].
  split; [apply fround_nonneg; [lia|exact S0]|].
  apply (fround_le_int 53 ltac:(lia) _ a A53 S1).
Qed.

(** The envelope [_amp] lies between 0 and the amplitude. *)
Lemma sine_envelope_range (a n i : Z) :
  0 <= a <= 32767 -> 0 <= i < n ->
  (0 <= sine_envelope (Z2Q a) n i)%Q /\ (sine_envelope (Z2Q a) n i <= Z2Q a)%Q.
Proof.
  intros Ha Hi. unfold sine_envelope. cbv zeta.
  destruct fade_constants as (-> & -> & ->). unfold f32, f64.
  assert (HA : (0 <= Z2Q a)%Q).
  { change (inject_Z 0 <= inject_Z a)%Q. rewrite <- Zle_Qle. lia. }
  destruct (frac_unit i n Hi) as [F0 F1].
  destruct (fround_unit 53 _ ltac:(lia) F0 (Qlt_le_weak _ _ F1)) as [G0 G1].
  destruct (fround_unit 24 _ ltac:(lia) G0 G1) as [R0 R1].
  set (frac := fround 24 (fround 53 (Z2Q i / Z2Q n))) in *. clearbody frac.
  clear F0 F1 G0 G1.
  destruct (Qltb frac (5368709 # 268435456)) eqn:E1.
  - apply Qltb_lt in E1. apply (scaled_amplitude a _ Ha).
    + apply fround_nonneg; [lia|].
      apply Qle_shift_div_l; [reflexivity|]. lra.
    + apply (fround_le_int 24 ltac:(lia) _ 1);
        [change (2 ^ 24) with 16777216; lia|].
      apply Qle_shift_div_r; [reflexivity|].
      change (inject_Z 1) with 1%Q. lra.
  - destruct (Qltb (2055209 # 2097152) frac) eqn:E2; [|split; [exact HA|lra]].
    apply Qltb_lt in E2.
    assert (U : (0 <= fround 24 (frac - (2055209 # 2097152)))%Q
                /\ (fround 24 (frac - (2055209 # 2097152))
                    <= inject_Z 41943 * 2 ^ (-21))%Q).
    { split; [apply fround_nonneg; [lia|lra]|].
      apply (fround_le 24 ltac:(lia));
        [change (2 ^ 24) with 16777216; lia|].
      change (inject_Z 41943 * 2 ^ (-21))%Q with (41943 # 2097152)%Q.
      lra. }
    destruct U as [U0 U1].
    change (inject_Z 41943 * 2 ^ (-21))%Q with (41943 # 2097152)%Q in U1.
    set (u := fround 24 (frac - (2055209 # 2097152))) in *. clearbody u.
    assert (W : (0 <= fround 24 (u / (5368709 # 268435456)))%Q
                /\ (fround 24 (u / (5368709 # 268435456)) <= 1)%Q).
    { apply fround_unit; [lia| |].
      - apply Qle_shift_div_l; [reflexivity|]. lra.
      - apply Qle_shift_div_r; [reflexivity|]. lra. }
    destruct W as [W0 W1].
    set (w := fround 24 (u / (5368709 # 268435456))) in *. clearbody w.
    apply (scaled_amplitude a _ Ha); apply fround_unit; try lia; lra.
Qed.

(** A sample of a tone stays within the amplitude, so that the conversion
    to [int16_t] does not wrap. *)
Lemma sine_sample_bound P (f : Q) (a n i : Z) :
  (forall x, -1 <= sin P x /\ sin P x <= 1)%Q ->
  0 <= a <= 32767 -> 0 <= i < n ->
  - a <= sine_sample P f (Z2Q a) n i <= a.
Proof.
  intros Hsin Ha Hi. unfold sine_sample.
  destruct (sine_envelope_range a n i Ha Hi) as [M0 M1].
  destruct (Hsin (sine_phase f i)) as [S0 S1].
  destruct (Qscale_sin (Z2Q a) _ _ M0 M1 S0 S1) as [B0 B1].
  assert (A53 : - 2 ^ 53 < a < 2 ^ 53).
  { change (2 ^ 53) with 9007199254740992. lia. }
  assert (C0 : (- Z2Q a
                <= f64 (sine_envelope (Z2Q a) n i * sin P (sine_phase f i)))%Q).
  { unfold Z2Q. rewrite <- inject_Z_opp.
    apply (fround_ge_int 53 ltac:(lia)); [lia|].
    rewrite inject_Z_opp. exact B0. }
  assert (C1 : (f64 (sine_envelope (Z2Q a) n i * sin P (sine_phase f i))
                <= Z2Q a)%Q).
  { apply (fround_le_int 53 ltac:(lia) _ a A53 B1). }
  pose proof (Qtrunc_within _ a C0 C1) as B.
  rewrite to_int16_small; lia.
Qed.

Lemma note_amplitude_range (v : Z) (f : Q) :
  0 <= v <= 10 -> 0 <= note_amplitude v f <= 32000.
Proof.
  intros Hv.
  destruct (note_amplitude_bands v f Hv) as (B1 & B2 & B3).
  destruct (Qlt_le_dec f 800) as [L|L]; [rewrite (B1 L); lia|].
  destruct (Qlt_le_dec f 1100) as [L'|L']; [|rewrite (B3 L'); lia].
  destruct (B2 L L') as [E _]. rewrite E. clear B1 B2 B3 E.
  destruct (middle_band_error (1600 * v) f ltac:(lia) L L')
    as (R0 & X0 & R1 & R2).
  cbv zeta in R0, X0, R1, R2.
  rewrite (Qtrunc_floor _ R0).
  set (r := f32 (f32 (f32 (Z2Q (1600 * v)) * f32 (f - 800)) / 300)) in *.
  clearbody r.
  assert (Xu : (Z2Q (1600 * v) * (f - 800) / 300 <= 16000)%Q).
  { assert (HA : (0 <= Z2Q (1600 * v))%Q /\ (Z2Q (1600 * v) <= 16000)%Q).
    { unfold Z2Q. split.
      - change 0%Q with (inject_Z 0). rewrite <- Zle_Qle. lia.
      - change 16000%Q with (inject_Z 16000). rewrite <- Zle_Qle. lia. }
    apply Qle_shift_div_r; [reflexivity|]. nra. }
  destruct (Qfloor_bounds r) as [F1 F2].
  assert (L0 : (inject_Z 0 <= inject_Z (Qfloor r + 1))%Q).
  { rewrite inject_Z_plus. change (inject_Z 0) with 0%Q.
    change (inject_Z 1) with 1%Q. lra. }
  assert (L1 : (inject_Z (Qfloor r) <= inject_Z 16001)%Q).
  { change (inject_Z 16001) with 16001%Q. lra. }
  rewrite <- Zle_Qle in L0, L1.
  assert (N0 : 0 <= Qfloor r).
  { assert (Hq : (inject_Z 0 < inject_Z (Qfloor r + 1))%Q).
    { rewrite inject_Z_plus. change (inject_Z 0) with 0%Q.
      change (inject_Z 1) with 1%Q. lra. }
    rewrite <- Zlt_Qlt in Hq. lia. }
  lia.
Qed.

Lemma tone_render_samples P s k :
  (forall x, -1 <= sin P x /\ sin P x <= 1)%Q ->
  cursor_ok s -> -1 <= audio_buf_num_populated_frames s ->
  0 <= volume_notes s <= 10 ->
  Qeq_bool (next_note_freq s) 0 = false ->
  samples_of (next_note_duration_s s) < avail_space s ->
  0 <= k < samples_of (next_note_duration_s s) ->
  let a := note_amplitude (volume_notes s) (next_note_freq s) in
  let v := audio_buf (write_next_note_to_audio_buf P s)
             (Z.lxor ((audio_buf_empty_idx s + k) mod AUDIO_BUF_LEN) 1) in
  v = sine_sample P (next_note_freq s) (Z2Q a)
        (samples_of (next_note_duration_s s)) k
  /\ - a <= v <= a /\ a <= 32000.
Proof.
  intros Hsin Hc Hp Hv Hf Hlt Hk a v.
  pose proof (note_amplitude_range (volume_notes s) (next_note_freq s) Hv)
    as Ha. fold a in Ha.
  assert (E : v = sine_sample P (next_note_freq s) (Z2Q a)
                    (samples_of (next_note_duration_s s)) k).
  { unfold v, write_next_note_to_audio_buf.
    destruct (Z.gtb_spec (avail_space s)
                (samples_of (next_note_duration_s s))); [|lia].
    rewrite Hf. unfold generate_sine_wave. cbv zeta.
    match goal with |- context [set_next_note_parsed false ?y] =>
      replace (audio_buf (set_next_note_parsed false y)) with (audio_buf y)
        by (destruct y; reflexivity)
    end.
    rewrite for_loop_put_at; [reflexivity|exact Hc| |lia].
    unfold avail_space, AUDIO_BUF_LEN, AUDIO_BUF_NUM_FRAMES, FRAME_SIZE
      in *. lia. }
  split; [exact E|]. split; [|lia].
  rewrite E. apply sine_sample_bound; [exact Hsin|lia|lia].
Qed.

Lemma clamped_sin_bounded x :
  (-1 <= clamped_sin x /\ clamped_sin x <= 1)%Q.
Proof.
  unfold clamped_sin. cbv zeta.
  destruct (Qle_bool 1 _) eqn:E1; [split; discriminate|].
  destruct (Qle_bool _ (-1)) eqn:E2; [split; discriminate|].
  split; apply Qlt_le_weak; apply Qnot_le_lt; intros L;
    apply Qle_bool_iff in L; congruence.
Qed.

(** X22.  A tone (frequency other than 0) that is not deferred is stored
    sample by sample, sample [k] at the index of cursor position [k] with
    its lowest bit flipped.  With a volume from 0 to 10 and a sine within
    [-1, 1], each stored sample lies within the amplitude of the note,
    which is at most 32000: the conversion to [int16_t] never wraps. *)
Theorem X22_tone_samples_within_amplitude (P : platform) (s : state)
    (k : Z) :
  (forall x, -1 <= sin P x /\ sin P x <= 1)%Q ->
  cursor_ok s -> -1 <= audio_buf_num_populated_frames s ->
  0 <= volume_notes s <= 10 ->
  Qeq_bool (next_note_freq s) 0 = false ->
  samples_of (next_note_duration_s s) < avail_space s ->
  0 <= k < samples_of (next_note_duration_s s) ->
  let a := note_amplitude (volume_notes s) (next_note_freq s) in
  let v := audio_buf (write_next_note_to_audio_buf P s)
             (Z.lxor ((audio_buf_empty_idx s + k) mod AUDIO_BUF_LEN) 1) in
  v = sine_sample P (next_note_freq s) (Z2Q a)
        (samples_of (next_note_duration_s s)) k
  /\ - a <= v <= a /\ a <= 32000.
Proof. exact (tone_render_samples P s k). Qed.

Lemma X22_witness :
  let a := note_amplitude (volume_notes tone_pending)
             (next_note_freq tone_pending) in
  let v := audio_buf (write_next_note_to_audio_buf bounded_platform
                        tone_pending)
             (Z.lxor ((audio_buf_empty_idx tone_pending + 500)
                      mod AUDIO_BUF_LEN) 1) in
  v = sine_sample bounded_platform (next_note_freq tone_pending) (Z2Q a)
        (samples_of (next_note_duration_s tone_pending)) 500
  /\ - a <= v <= a /\ a <= 32000.
Proof.
  apply (X22_tone_samples_within_amplitude bounded_platform tone_pending
           500);
    [exact clamped_sin_bounded|..]; vm_compute;
    first [reflexivity | split; congruence | congruence].
Defined.

(* ------------------------------------------------------------------------ *)
(** ** Opening a wave file *)

Lemma play_sound_file_accepts (P : platform) (s : state)
    (filename : string) (data : list byte) :
  sd_card P filename = Some data ->
  (44 <= List.length data)%nat ->
  le16 data 22 = 1 -> le32 data 24 = SAMPLE_RATE ->
  exists s',
    play_sound_file P filename s = Ok (true, s', stop_calls s ++ [I2sStart])
    /\ file s' = mkFile true data 44
    /\ wave_running s' = true /\ notes_running s' = false
    /\ i2s_running s' = true
    /\ notes s' = EmptyString /\ next_note_parsed s' = false
    /\ audio_buf_num_populated_frames s' = 0
    /\ audio_buf_frame_idx_to_send s' = 0
    /\ audio_buf_empty_idx s' = 0.
Proof.
  intros Hsd Hlen Hc Hr.
  pose proof (play_sound_file_runs P filename s) as R.
  unfold SD_open in R. rewrite Hsd in R.
  unfold file_read, file_remaining in R. cbn [f_open f_pos f_data skipn] in R.
  rewrite R; clear R.
  assert (Hl : List.length (firstn 44 data) = 44%nat)
    by (rewrite length_firstn; lia).
  assert (Hh : header_ok (Z.of_nat (List.length (firstn 44 data)))
                 (firstn 44 data) = true).
  { unfold header_ok. rewrite le16_firstn, le32_firstn by lia.
    rewrite Hl, Hc, Hr. reflexivity. }
  rewrite Hh, Hl. eexists. split; [reflexivity|].
  destruct s as [pf buf fi e ir nr wr nt bpm oc vn np nf nd fl vw].
  unfold stopped; state_simpl. repeat split.
Qed.

(** X23.  [play_sound_file] accepts a file of at least 44 bytes whose bytes
    22-23 read 1 and whose bytes 24-27 read 16000, whatever the rest of the
    header holds: it returns true, whatever was playing is stopped first, no
    notes are pending, the buffer is empty with both cursors at 0, the file
    stays open just after the header, wave playback is on, and the last
    driver call starts the I2S output. *)
Theorem X23_mono_16k_file_accepted (P : platform) (s : state)
    (filename : string) (data : list byte) :
  sd_card P filename = Some data ->
  (44 <= List.length data)%nat ->
  le16 data 22 = 1 -> le32 data 24 = SAMPLE_RATE ->
  exists s',
    play_sound_file P filename s = Ok (true, s', stop_calls s ++ [I2sStart])
    /\ file s' = mkFile true data 44
    /\ wave_running s' = true /\ notes_running s' = false
    /\ i2s_running s' = true
    /\ notes s' = EmptyString /\ next_note_parsed s' = false
    /\ audio_buf_num_populated_frames s' = 0
    /\ audio_buf_frame_idx_to_send s' = 0
    /\ audio_buf_empty_idx s' = 0.
Proof. exact (play_sound_file_accepts P s filename data). Qed.

(** The file "mono.wav" is accepted while the notes "CDE" are playing. *)
Lemma X23_witness :
  exists s',
    play_sound_file example_platform "mono.wav" (submitted "CDE")
    = Ok (true, s', stop_calls (submitted "CDE") ++ [I2sStart])
    /\ file s' = mkFile true (wave_header 1 16000 ++ repeat x01 4096) 44
    /\ wave_running s' = true /\ notes_running s' = false
    /\ i2s_running s' = true
    /\ notes s' = EmptyString /\ next_note_parsed s' = false
    /\ audio_buf_num_populated_frames s' = 0
    /\ audio_buf_frame_idx_to_send s' = 0
    /\ audio_buf_empty_idx s' = 0.
Proof.
  apply (X23_mono_16k_file_accepted example_platform (submitted "CDE")
           "mono.wav" (wave_header 1 16000 ++ repeat x01 4096)).
  - reflexivity.
  - vm_compute. lia.
  - vm_compute. reflexivity.
  - vm_compute. reflexivity.
Defined.

Lemma play_sound_file_unreadable (P : platform) (s : state)
    (filename : string) :
  match sd_card P filename with
  | None => True
  | Some data => (List.length data < 44)%nat
  end ->
  exists s',
    play_sound_file P filename s = Ok (false, s', stop_calls s)
    /\ f_open (file s') = false
    /\ idle s'
    /\ i2s_running s' = false
    /\ audio_buf_num_populated_frames s' = 0
    /\ notes s' = EmptyString.
Proof.
  intros Hsd.
  pose proof (play_sound_file_runs P filename s) as R.
  unfold SD_open in R.
  destruct (sd_card P filename) as [data|].
  - unfold file_read, file_remaining in R.
    cbn [f_open f_pos f_data skipn] in R. rewrite R; clear R.
    assert (Hh : header_ok (Z.of_nat (List.length (firstn 44 data)))
                   (firstn 44 data) = false).
    { unfold header_ok. rewrite length_firstn.
      destruct (Z.eqb_spec (Z.of_nat (Nat.min 44 (List.length data))) 44);
        [lia|reflexivity]. }
    rewrite Hh. eexists. split; [reflexivity|].
    destruct s as [pf buf fi e ir nr wr nt bpm oc vn np nf nd fl vw].
    unfold idle, stopped; state_simpl. repeat split.
  - unfold file_read, invalid_file in R. cbn [f_open] in R.
    rewrite R; clear R. unfold header_ok. cbn [Z.eqb andb].
    eexists. split; [reflexivity|].
    destruct s as [pf buf fi e ir nr wr nt bpm oc vn np nf nd fl vw].
    unfold idle, stopped; state_simpl. repeat split.
Qed.

(** X24.  When the file cannot be opened, or holds fewer than 44 bytes,
    [play_sound_file] returns false; what was playing before has been
    stopped all the same: the session is idle, the I2S output is off, the
    buffer is empty and the pending notes are dropped. *)
Theorem X24_unreadable_file_stops_playback (P : platform) (s : state)
    (filename : string) :
  match sd_card P filename with
  | None => True
  | Some data => (List.length data < 44)%nat
  end ->
  exists s',
    play_sound_file P filename s = Ok (false, s', stop_calls s)
    /\ f_open (file s') = false
    /\ idle s'
    /\ i2s_running s' = false
    /\ audio_buf_num_populated_frames s' = 0
    /\ notes s' = EmptyString.
Proof. exact (play_sound_file_unreadable P s filename). Qed.

(** A file that is not on the card, asked for while notes are playing. *)
Lemma X24_witness :
  exists s',
    play_sound_file example_platform "none.wav" (submitted "CDE")
    = Ok (false, s', stop_calls (submitted "CDE"))
    /\ f_open (file s') = false
    /\ idle s'
    /\ i2s_running s' = false
    /\ audio_buf_num_populated_frames s' = 0
    /\ notes s' = EmptyString.
Proof.
  apply (X24_unreadable_file_stops_playback example_platform
           (submitted "CDE") "none.wav").
  vm_compute. exact I.
Defined.

(* ------------------------------------------------------------------------ *)
(** ** The frames of a wave file *)

Lemma Qtrunc_unit_up (q : Q) (z : Z) :
  0 <= z -> (inject_Z z <= q)%Q -> (q < inject_Z z + 1)%Q -> Qtrunc q = z.
Proof.
  intros Hz H1 H2.
  assert (H0 : (0 <= q)%Q).
  { eapply Qle_trans; [|exact H1]. change 0%Q with (inject_Z 0).
    rewrite <- Zle_Qle. exact Hz. }
  rewrite (Qtrunc_floor q H0).
  destruct (Qfloor_bounds q) as [F1 F2].
  assert (A : (inject_Z (Qfloor q) < inject_Z (z + 1))%Q).
  { rewrite inject_Z_plus. change (inject_Z 1) with 1%Q. lra. }
  assert (B : (inject_Z z < inject_Z (Qfloor q + 1))%Q).
  { rewrite inject_Z_plus. change (inject_Z 1) with 1%Q. lra. }
  rewrite <- Zlt_Qlt in A, B. lia.
Qed.

Lemma Qtrunc_opp (q : Q) : Qtrunc (- q) = - Qtrunc q.
Proof.
  destruct q as [n d]. unfold Qtrunc, Qopp. cbn [Qnum Qden].
  apply Z.quot_opp_l. lia.
Qed.

Lemma Qtrunc_unit_down (q : Q) (z : Z) :
  z <= 0 -> (inject_Z z - 1 < q)%Q -> (q <= inject_Z z)%Q -> Qtrunc q = z.
Proof.
  intros Hz H1 H2.
  assert (E : Qtrunc (- q) = - z).
  { apply Qtrunc_unit_up; [lia| |]; rewrite inject_Z_opp; lra. }
  rewrite Qtrunc_opp in E. lia.
Qed.

(** The division by [10.0] is done in [double]; its rounding does not
    carry the quotient of an integer across an integer. *)
Lemma trunc_tenth_double (n : Z) :
  - 2 ^ 48 < n < 2 ^ 48 -> Qtrunc (f64 (Z2Q n / 10)) = Z.quot n 10.
Proof.
  intros Hn. change (2 ^ 48) with 281474976710656 in Hn.
  pose proof (Z.quot_rem' n 10) as E.
  set (q := Z.quot n 10) in *. set (r := Z.rem n 10) in *.
  assert (X : (Z2Q n / 10 == inject_Z q + inject_Z r * (1 # 10))%Q).
  { unfold Z2Q. rewrite E, inject_Z_plus, inject_Z_mult.
    change (inject_Z 10) with 10%Q. field. }
  unfold f64.
  destruct (Z_le_gt_dec 0 n) as [P|N].
  - assert (Hr : 0 <= r < 10) by (apply Z.rem_bound_pos; lia).
    assert (Hq : 0 <= q) by (apply Z.quot_pos; lia).
    assert (R : (0 <= inject_Z r)%Q /\ (inject_Z r <= 9)%Q).
    { split; [change 0%Q with (inject_Z 0)|change 9%Q with (inject_Z 9)];
        rewrite <- Zle_Qle; lia. }
    apply Qtrunc_unit_up; [exact Hq| |].
    + apply (fround_ge_int 53 ltac:(lia));
        [change (2 ^ 53) with 9007199254740992; lia|].
      rewrite X. set (a := inject_Z q). set (b := inject_Z r) in *.
      clearbody a b. lra.
    + apply Qle_lt_trans with (inject_Z (16 * q + 15) * 2 ^ (-4))%Q.
      * apply (fround_le 53 ltac:(lia));
          [change (2 ^ 53) with 9007199254740992; lia|].
        rewrite X, inject_Z_plus, inject_Z_mult.
        change (2 ^ (-4))%Q with (1 # 16)%Q.
        change (inject_Z 16) with 16%Q. change (inject_Z 15) with 15%Q.
        set (a := inject_Z q). set (b := inject_Z r) in *.
        clearbody a b. lra.
      * rewrite inject_Z_plus, inject_Z_mult.
        change (2 ^ (-4))%Q with (1 # 16)%Q.
        change (inject_Z 16) with 16%Q. change (inject_Z 15) with 15%Q.
        set (a := inject_Z q). clearbody a. lra.
  - assert (Hr : -10 < r <= 0).
    { pose proof (Z.rem_bound_abs n 10 ltac:(lia)) as A.
      pose proof (Z.rem_sign_mul n 10 ltac:(lia)) as S.
      fold r in A, S. lia. }
    assert (Hq : q <= 0) by lia.
    assert (R : (-9 <= inject_Z r)%Q /\ (inject_Z r <= 0)%Q).
    { split; [change (-9)%Q with (inject_Z (-9))|change 0%Q with (inject_Z 0)];
        rewrite <- Zle_Qle; lia. }
    apply Qtrunc_unit_down; [exact Hq| |].
    + apply Qlt_le_trans with (inject_Z (16 * q + (-15)) * 2 ^ (-4))%Q.
      * rewrite inject_Z_plus, inject_Z_mult.
        change (2 ^ (-4))%Q with (1 # 16)%Q.
        change (inject_Z 16) with 16%Q. change (inject_Z (-15)) with (-15)%Q.
        set (a := inject_Z q). clearbody a. lra.
      * apply (fround_ge 53 ltac:(lia));
          [change (2 ^ 53) with 9007199254740992; lia|].
        rewrite X. rewrite inject_Z_plus, inject_Z_mult.
        change (2 ^ (-4))%Q with (1 # 16)%Q.
        change (inject_Z 16) with 16%Q. change (inject_Z (-15)) with (-15)%Q.
        set (a := inject_Z q). set (b := inject_Z r) in *.
        clearbody a b. lra.
    + apply (fround_le_int 53 ltac:(lia));
        [change (2 ^ 53) with 9007199254740992; lia|].
      rewrite X. set (a := inject_Z q). set (b := inject_Z r) in *.
      clearbody a b. lra.
Qed.

Lemma scale_sample_quot x v :
  - 2 ^ 48 < x * v < 2 ^ 48 ->
  scale_sample x v = to_int16 (Z.quot (x * v) 10).
Proof.
  intros H. unfold scale_sample. rewrite (trunc_tenth_double _ H).
  reflexivity.
Qed.

Lemma scale_sample_props x v :
  -32768 <= x <= 32767 -> 0 <= v <= 10 ->
  Z.abs (scale_sample x v) <= Z.abs x
  /\ 0 <= x * scale_sample x v
  /\ (v = 10 -> scale_sample x v = x)
  /\ (v = 0 -> scale_sample x v = 0).
Proof.
  intros Hx Hv.
  rewrite scale_sample_quot by (change (2 ^ 48) with 281474976710656; nia).
  assert (Q : Z.abs (Z.quot (x * v) 10) <= Z.abs x
              /\ 0 <= x * Z.quot (x * v) 10).
  { destruct (Z_le_gt_dec 0 x) as [Hp|Hn].
    - rewrite Z.quot_div_nonneg by nia.
      assert (0 <= x * v / 10 <= x); [|split; nia].
      split; [apply Z.div_pos; nia|].
      apply Z.div_le_upper_bound; nia.
    - replace (x * v) with (- ((- x) * v)) by lia.
      rewrite Z.quot_opp_l by lia.
      rewrite Z.quot_div_nonneg by nia.
      assert (0 <= - x * v / 10 <= - x); [|split; nia].
      split; [apply Z.div_pos; nia|].
      apply Z.div_le_upper_bound; nia. }
  destruct Q as [Q1 Q2].
  rewrite to_int16_small by lia.
  repeat split; try assumption.
  - intros ->. apply Z.quot_mul. lia.
  - intros ->. rewrite Z.mul_0_r. reflexivity.
Qed.

Lemma byte_val_range b : 0 <= byte_val b < 256.
Proof.
  unfold byte_val. pose proof (Byte.to_N_bounded b). lia.
Qed.

Lemma to_int16_mod z : to_int16 z mod 65536 = z mod 65536.
Proof. unfold to_int16. zmod. Qed.

(** Storing the two bytes of a sample, low byte first. *)
Lemma set_bytes_of_sample old b0 b1 :
  0 <= b0 < 256 ->
  set_byte_of_sample (set_byte_of_sample old false b0) true b1
  = to_int16 (b0 + 256 * b1).
Proof.
  intros H0. unfold set_byte_of_sample. cbv zeta. rewrite to_int16_mod.
  f_equal. f_equal. generalize (old mod 65536). intros u. zmod.
Qed.

Lemma store_bytes_pairs (n : nat) : forall bs k base buf j,
  List.length bs = (2 * n)%nat -> 0 <= k -> Z.even k = true ->
  store_bytes bs k base buf j
  = if (base + k / 2 <=? j) && (j <? base + k / 2 + Z.of_nat n)
    then to_int16 (le16 bs (Z.to_nat (2 * (j - (base + k / 2)))))
    else buf j.
Proof.
  induction n as [|n IH]; intros bs k base buf j Hl Hk He.
  - destruct bs; [|discriminate]. cbn [store_bytes].
    destruct (Z.leb_spec (base + k / 2) j), (Z.ltb_spec j (base + k / 2 + Z.of_nat 0));
      cbn [andb]; try reflexivity; lia.
  - destruct bs as [|b0 [|b1 r]]; try (cbn in Hl; lia).
    cbn [store_bytes].
    assert (Ek : k = 2 * (k / 2)).
    { apply Z.even_spec in He. destruct He as [m ->].
      rewrite (Z.mul_comm 2 m), Z.div_mul by lia. lia. }
    assert (E1 : (k + 1) / 2 = k / 2) by zmod.
    assert (E2 : (k + 1 + 1) / 2 = k / 2 + 1) by zmod.
    assert (O1 : Z.odd k = false) by (rewrite <- Z.negb_even, He; reflexivity).
    assert (O2 : Z.odd (k + 1) = true).
    { rewrite Z.odd_add, O1. reflexivity. }
    rewrite IH; [| cbn in Hl; lia | lia
                 | rewrite <- Z.add_assoc, Z.even_add, He; reflexivity ].
    rewrite E1, E2, O1, O2.
    destruct (Z.eq_dec j (base + k / 2)) as [->|Hj].
    + destruct (Z.leb_spec (base + (k / 2 + 1)) (base + k / 2)); [lia|].
      destruct (Z.leb_spec (base + k / 2) (base + k / 2)); [|lia].
      destruct (Z.ltb_spec (base + k / 2) (base + k / 2 + Z.of_nat (S n)));
        [|lia].
      cbn [andb]. unfold buf_set at 1. rewrite Z.eqb_refl.
      unfold buf_set at 1. rewrite Z.eqb_refl.
      rewrite set_bytes_of_sample by apply byte_val_range.
      rewrite Z.sub_diag. reflexivity.
    + unfold buf_set. apply Z.eqb_neq in Hj as Hj'. rewrite !Hj'.
      destruct (Z.leb_spec (base + (k / 2 + 1)) j),
               (Z.ltb_spec j (base + (k / 2 + 1) + Z.of_nat n)),
               (Z.leb_spec (base + k / 2) j),
               (Z.ltb_spec j (base + k / 2 + Z.of_nat (S n)));
        cbn [andb]; try reflexivity; try lia.
      f_equal. unfold le16.
      replace (Z.to_nat (2 * (j - (base + k / 2))))
        with (S (S (Z.to_nat (2 * (j - (base + (k / 2 + 1))))))) by lia.
      reflexivity.
Qed.

Lemma swap_pair_frame j s :
  audio_buf_empty_idx (swap_pair j s) = audio_buf_empty_idx s
  /\ volume_wave (swap_pair j s) = volume_wave s.
Proof.
  destruct s as [pf buf fi e ir nr wr nt bpm oc vn np nf nd fl vw].
  unfold swap_pair. state_simpl. split; reflexivity.
Qed.

Lemma swap_pair_buf j s x :
  audio_buf (swap_pair j s) x
  = let e := audio_buf_empty_idx s in
    if x =? e + 2 * j + 1
    then scale_sample (audio_buf s (e + 2 * j)) (volume_wave s)
    else if x =? e + 2 * j
    then scale_sample (audio_buf s (e + 2 * j + 1)) (volume_wave s)
    else audio_buf s x.
Proof.
  destruct s as [pf buf fi e ir nr wr nt bpm oc vn np nf nd fl vw].
  unfold swap_pair. state_simpl. unfold buf_set. reflexivity.
Qed.

Lemma pair_mate_even e j : pair_mate e (e + 2 * j) = e + 2 * j + 1.
Proof.
  unfold pair_mate. replace (e + 2 * j - e) with (2 * j) by lia.
  rewrite Z.even_mul. reflexivity.
Qed.

Lemma pair_mate_odd e j : pair_mate e (e + 2 * j + 1) = e + 2 * j.
Proof.
  unfold pair_mate. replace (e + 2 * j + 1 - e) with (2 * j + 1) by lia.
  rewrite Z.even_add, Z.even_mul. cbn. lia.
Qed.

Lemma pair_mate_range e x lo hi :
  e + 2 * lo <= x < e + 2 * hi ->
  e + 2 * lo <= pair_mate e x < e + 2 * hi.
Proof.
  intros H. unfold pair_mate.
  destruct (Z.even (x - e)) eqn:E.
  - apply Z.even_spec in E. destruct E as [m E]. lia.
  - rewrite <- Z.negb_odd in E. apply negb_false_iff in E.
    apply Z.odd_spec in E. destruct E as [m E]. lia.
Qed.

Lemma for_loop_swap_at n : forall i s x,
  audio_buf (for_loop n i swap_pair s) x
  = let e := audio_buf_empty_idx s in
    if (e + 2 * i <=? x) && (x <? e + 2 * (i + Z.of_nat n))
    then scale_sample (audio_buf s (pair_mate e x)) (volume_wave s)
    else audio_buf s x.
Proof.
  induction n as [|n IH]; intros i s x; cbn [for_loop]; cbv zeta.
  - destruct (Z.leb_spec (audio_buf_empty_idx s + 2 * i) x),
             (Z.ltb_spec x (audio_buf_empty_idx s + 2 * (i + Z.of_nat 0)));
      cbn [andb]; try reflexivity; lia.
  - rewrite IH. cbv zeta.
    destruct (swap_pair_frame i s) as [-> ->].
    set (e := audio_buf_empty_idx s).
    destruct (Z.leb_spec (e + 2 * (i + 1)) x) as [L1|L1],
             (Z.ltb_spec x (e + 2 * (i + 1 + Z.of_nat n))) as [L2|L2];
      cbn [andb].
    + destruct (Z.leb_spec (e + 2 * i) x); [|lia].
      destruct (Z.ltb_spec x (e + 2 * (i + Z.of_nat (S n)))); [|lia].
      cbn [andb]. f_equal. rewrite swap_pair_buf. cbv zeta. fold e.
      pose proof (pair_mate_range e x (i + 1) (i + 1 + Z.of_nat n)
                    ltac:(lia)) as R.
      destruct (Z.eqb_spec (pair_mate e x) (e + 2 * i + 1)); [lia|].
      destruct (Z.eqb_spec (pair_mate e x) (e + 2 * i)); [lia|].
      reflexivity.
    + destruct (Z.ltb_spec x (e + 2 * (i + Z.of_nat (S n)))); [lia|].
      rewrite andb_false_r. rewrite swap_pair_buf. cbv zeta. fold e.
      destruct (Z.eqb_spec x (e + 2 * i + 1)); [lia|].
      destruct (Z.eqb_spec x (e + 2 * i)); [lia|]. reflexivity.
    + rewrite swap_pair_buf. cbv zeta. fold e.
      destruct (Z.eqb_spec x (e + 2 * i + 1)) as [->|N1].
      * destruct (Z.leb_spec (e + 2 * i) (e + 2 * i + 1)); [|lia].
        destruct (Z.ltb_spec (e + 2 * i + 1) (e + 2 * (i + Z.of_nat (S n))));
          [|lia].
        cbn [andb]. rewrite pair_mate_odd. reflexivity.
      * destruct (Z.eqb_spec x (e + 2 * i)) as [->|N2].
        -- destruct (Z.leb_spec (e + 2 * i) (e + 2 * i)); [|lia].
           destruct (Z.ltb_spec (e + 2 * i) (e + 2 * (i + Z.of_nat (S n))));
             [|lia].
           cbn [andb]. rewrite pair_mate_even. reflexivity.
        -- destruct (Z.leb_spec (e + 2 * i) x); [lia|]. reflexivity.
    + lia.
Qed.

Lemma le16_firstn_sample n bs (m : Z) :
  0 <= m -> (Z.to_nat (2 * m) + 1 < n)%nat ->
  to_int16 (le16 (firstn n bs) (Z.to_nat (2 * m))) = file_sample bs m.
Proof.
  intros H0 H. unfold file_sample. rewrite le16_firstn by exact H. reflexivity.
Qed.

Lemma read_wave_frame_samples s :
  f_open (file s) = true ->
  (2048 <= List.length (file_remaining (file s)))%nat ->
  let data := file_remaining (file s) in
  let e := audio_buf_empty_idx s in
  let s' := read_wave_frame s in
  (forall j, 0 <= j < FRAME_SIZE / 2 ->
     audio_buf s' (e + 2 * j)
     = scale_sample (file_sample data (2 * j + 1)) (volume_wave s)
     /\ audio_buf s' (e + 2 * j + 1)
        = scale_sample (file_sample data (2 * j)) (volume_wave s))
  /\ audio_buf_num_populated_frames s'
     = audio_buf_num_populated_frames s + 1
  /\ audio_buf_empty_idx s' = Z.rem (e + FRAME_SIZE) AUDIO_BUF_LEN
  /\ file_remaining (file s') = skipn 2048 data.
Proof.
  intros Ho Hl data e s'.
  assert (Hs : s' =
    set_audio_buf_num_populated_frames (audio_buf_num_populated_frames s + 1)
      (set_audio_buf_empty_idx (Z.rem (e + FRAME_SIZE) AUDIO_BUF_LEN)
         (for_loop 512 0 swap_pair
            (set_audio_buf
               (store_bytes (firstn 2048 data) 0 e (audio_buf s))
               (set_file (mkFile true (f_data (file s))
                            (f_pos (file s) + 2048)) s))))).
  { unfold s', read_wave_frame, file_read. rewrite Ho. fold data.
    change (Z.to_nat (FRAME_SIZE * BYTES_PER_SAMPLE)) with 2048%nat.
    change (Z.to_nat (FRAME_SIZE / 2)) with 512%nat.
    change (FRAME_SIZE * BYTES_PER_SAMPLE) with 2048.
    assert (Hf : List.length (firstn 2048 data) = 2048%nat)
      by (rewrite length_firstn; fold data in Hl; lia).
    rewrite Hf. change (Z.of_nat 2048 =? 2048) with true. cbv iota zeta.
    destruct s as [pf buf fi e0 ir nr wr nt bpm oc vn np nf nd fl vw].
    state_simpl.
    destruct (for_loop_swap_pair 512 0
      (mkState pf (store_bytes (firstn 2048 data) 0 e0 buf) fi e0 ir nr wr
         nt bpm oc vn np nf nd
         (mkFile true (f_data fl) (f_pos fl + 2048)) vw)) as [b Hb].
    unfold e. state_simpl. rewrite Hb. state_simpl. reflexivity. }
  assert (Hbuf : forall x, audio_buf s' x =
    if (e + 2 * 0 <=? x) && (x <? e + 2 * (0 + Z.of_nat 512))
    then scale_sample
           (store_bytes (firstn 2048 data) 0 e (audio_buf s)
              (pair_mate e x)) (volume_wave s)
    else store_bytes (firstn 2048 data) 0 e (audio_buf s) x).
  { intros x. rewrite Hs.
    pose proof (for_loop_swap_at 512 0
      (set_audio_buf (store_bytes (firstn 2048 data) 0 e (audio_buf s))
         (set_file (mkFile true (f_data (file s)) (f_pos (file s) + 2048)) s))
      x) as H.
    cbv zeta in H.
    destruct s as [pf buf fi e0 ir nr wr nt bpm oc vn np nf nd fl vw].
    unfold e in *. state_simpl. state_simpl_in H.
    destruct (for_loop_swap_pair 512 0
      (mkState pf (store_bytes (firstn 2048 data) 0 e0 buf) fi e0 ir nr wr
         nt bpm oc vn np nf nd
         (mkFile true (f_data fl) (f_pos fl + 2048)) vw)) as [b Hb].
    rewrite Hb in *. state_simpl. state_simpl_in H. exact H. }
  assert (Hst : forall m, 0 <= m < 1024 ->
    store_bytes (firstn 2048 data) 0 e (audio_buf s) (e + m)
    = file_sample data m).
  { intros m Hm.
    rewrite (store_bytes_pairs 1024); [| | lia | reflexivity].
    - change (0 / 2) with 0. rewrite Z.add_0_r.
      destruct (Z.leb_spec e (e + m)); [|lia].
      destruct (Z.ltb_spec (e + m) (e + Z.of_nat 1024)); [|lia].
      cbn [andb]. replace (e + m - e) with m by lia.
      apply le16_firstn_sample; lia.
    - rewrite length_firstn. fold data in Hl. lia. }
  split; [|split; [|split]].
  - intros j Hj. change (FRAME_SIZE / 2) with 512 in Hj. split.
    + rewrite Hbuf.
      destruct (Z.leb_spec (e + 2 * 0) (e + 2 * j)); [|lia].
      destruct (Z.ltb_spec (e + 2 * j) (e + 2 * (0 + Z.of_nat 512))); [|lia].
      cbn [andb]. rewrite pair_mate_even.
      replace (e + 2 * j + 1) with (e + (2 * j + 1)) by lia.
      rewrite Hst by lia. reflexivity.
    + rewrite Hbuf.
      destruct (Z.leb_spec (e + 2 * 0) (e + 2 * j + 1)); [|lia].
      destruct (Z.ltb_spec (e + 2 * j + 1) (e + 2 * (0 + Z.of_nat 512)));
        [|lia].
      cbn [andb]. rewrite pair_mate_odd. rewrite Hst by lia. reflexivity.
  - rewrite Hs. destruct s; reflexivity.
  - rewrite Hs. destruct s; reflexivity.
  - rewrite Hs. unfold data.
    destruct s as [pf buf fi e0 ir nr wr nt bpm oc vn np nf nd fl vw].
    state_simpl.
    destruct (for_loop_swap_pair 512 0
      (mkState pf (store_bytes (firstn 2048 (file_remaining fl)) 0 e0 buf)
         fi e0 ir nr wr nt bpm oc vn np nf nd
         (mkFile true (f_data fl) (f_pos fl + 2048)) vw)) as [b Hb].
    unfold e. state_simpl. rewrite Hb. state_simpl.
    unfold file_remaining. cbn [f_open f_pos f_data]. cbn [file] in Ho.
    rewrite Ho. rewrite skipn_skipn. f_equal. lia.
Qed.

(** X25.  A full frame read from a wave file: the 2048 bytes are 1024
    samples, 16 bits little-endian; the two samples of each pair are stored
    in exchanged places (file sample [n] at offset [n xor 1] from the write
    cursor, the layout the tone generator uses too), each multiplied by
    [volume_wave / 10]; the frame is counted, the cursor moves on by one
    frame, and the file by 2048 bytes. *)
Theorem X25_wave_frame_swapped_and_scaled (s : state) :
  f_open (file s) = true ->
  (2048 <= List.length (file_remaining (file s)))%nat ->
  let data := file_remaining (file s) in
  let e := audio_buf_empty_idx s in
  let s' := read_wave_frame s in
  (forall j, 0 <= j < FRAME_SIZE / 2 ->
     audio_buf s' (e + 2 * j)
     = scale_sample (file_sample data (2 * j + 1)) (volume_wave s)
     /\ audio_buf s' (e + 2 * j + 1)
        = scale_sample (file_sample data (2 * j)) (volume_wave s))
  /\ audio_buf_num_populated_frames s'
     = audio_buf_num_populated_frames s + 1
  /\ audio_buf_empty_idx s' = Z.rem (e + FRAME_SIZE) AUDIO_BUF_LEN
  /\ file_remaining (file s') = skipn 2048 data.
Proof. exact (read_wave_frame_samples s). Qed.

(** The first frame of "mono.wav". *)
Lemma X25_witness :
  let data := file_remaining (file wave_playing) in
  let e := audio_buf_empty_idx wave_playing in
  let s' := read_wave_frame wave_playing in
  (forall j, 0 <= j < FRAME_SIZE / 2 ->
     audio_buf s' (e + 2 * j)
     = scale_sample (file_sample data (2 * j + 1)) (volume_wave wave_playing)
     /\ audio_buf s' (e + 2 * j + 1)
        = scale_sample (file_sample data (2 * j)) (volume_wave wave_playing))
  /\ audio_buf_num_populated_frames s'
     = audio_buf_num_populated_frames wave_playing + 1
  /\ audio_buf_empty_idx s' = Z.rem (e + FRAME_SIZE) AUDIO_BUF_LEN
  /\ file_remaining (file s') = skipn 2048 data.
Proof.
  apply (X25_wave_frame_swapped_and_scaled wave_playing).
  - vm_compute. reflexivity.
  - vm_compute. lia.
Defined.

(** X26.  The wave volume scales a sample by [volume / 10], truncated
    toward zero.  For a volume from 0 to 10 the result is never larger in
    magnitude than the sample and never of the opposite sign; volume 10
    leaves the sample as it is and volume 0 gives silence. *)
Theorem X26_wave_volume_attenuates (x v : Z) :
  -32768 <= x <= 32767 -> 0 <= v <= 10 ->
  Z.abs (scale_sample x v) <= Z.abs x
  /\ 0 <= x * scale_sample x v
  /\ (v = 10 -> scale_sample x v = x)
  /\ (v = 0 -> scale_sample x v = 0).
Proof. exact (scale_sample_props x v). Qed.

Lemma X26_witness :
  Z.abs (scale_sample (-20001) 5) <= Z.abs (-20001)
  /\ 0 <= -20001 * scale_sample (-20001) 5
  /\ (5 = 10 -> scale_sample (-20001) 5 = -20001)
  /\ (5 = 0 -> scale_sample (-20001) 5 = 0).
Proof. apply (X26_wave_volume_attenuates (-20001) 5); lia. Defined.

(* ------------------------------------------------------------------------ *)
(** ** The end of a wave file *)






(* ------------------------------------------------------------------------ *)
(** ** The order of the frames sent *)

Lemma tx_events_in_order P n : forall s,
  0 <= audio_buf_frame_idx_to_send s < AUDIO_BUF_NUM_FRAMES ->
  Z.of_nat n - 1 <= audio_buf_num_populated_frames s ->
  run_ops P (repeat Op_TXdone n) s
  = Ok (tt,
        set_audio_buf_num_populated_frames
          (audio_buf_num_populated_frames s - Z.of_nat n)
          (set_audio_buf_frame_idx_to_send
             ((audio_buf_frame_idx_to_send s + Z.of_nat n)
              mod AUDIO_BUF_NUM_FRAMES) s),
        map (fun j => I2sWrite
                        (frame_at (audio_buf s)
                           ((audio_buf_frame_idx_to_send s + Z.of_nat j)
                            mod AUDIO_BUF_NUM_FRAMES)))
            (seq 0 n)).
Proof.
  induction n as [|n IH]; intros s Hf Hp.
  - cbn [repeat run_ops seq map]. unfold ret.
    rewrite Z.sub_0_r, Z.add_0_r, Z.mod_small by exact Hf.
    destruct s; reflexivity.
  - destruct s as [pf buf fi e ir nr wr nt bpm oc vn np nf nd fl vw].
    cbn [audio_buf_frame_idx_to_send audio_buf_num_populated_frames]
      in Hf, Hp.
    cbn [repeat run_ops run_op]. unfold bind.
    rewrite I2Sout_TXdone_runs. unfold frame_sent. state_simpl.
    destruct (Z.geb_spec pf 0); [|lia].
    assert (Hr : Z.rem (fi + 1) AUDIO_BUF_NUM_FRAMES
                 = (fi + 1) mod AUDIO_BUF_NUM_FRAMES).
    { apply Z.rem_mod_nonneg; unfold AUDIO_BUF_NUM_FRAMES in *; lia. }
    rewrite Hr. rewrite IH; state_simpl.
    + cbn [seq map app]. rewrite <- seq_shift, map_map.
      rewrite Z.add_0_r, (Z.mod_small fi) by exact Hf.
      rewrite Zplus_mod_idemp_l.
      replace (fi + 1 + Z.of_nat n) with (fi + Z.of_nat (S n)) by lia.
      replace (pf - 1 - Z.of_nat n) with (pf - Z.of_nat (S n)) by lia.
      f_equal. f_equal. f_equal.
      apply map_ext. intros j. rewrite Zplus_mod_idemp_l.
      f_equal. f_equal. f_equal. lia.
    + apply Z.mod_pos_bound. reflexivity.
    + lia.
Qed.

(** X28.  Transmit-done events send the frames of the buffer in ring
    order, each once: from a frame count of at least [n - 1], [n] events
    send the frames [k], [k + 1], ... [k + n - 1] (modulo
    [AUDIO_BUF_NUM_FRAMES]) that follow the frame to send, advance the frame
    to send by [n] around the ring and lower the frame count by [n]. *)
Theorem X28_frames_sent_in_ring_order (P : platform) (n : nat) (s : state) :
  0 <= audio_buf_frame_idx_to_send s < AUDIO_BUF_NUM_FRAMES ->
  Z.of_nat n - 1 <= audio_buf_num_populated_frames s ->
  run_ops P (repeat Op_TXdone n) s
  = Ok (tt,
        set_audio_buf_num_populated_frames
          (audio_buf_num_populated_frames s - Z.of_nat n)
          (set_audio_buf_frame_idx_to_send
             ((audio_buf_frame_idx_to_send s + Z.of_nat n)
              mod AUDIO_BUF_NUM_FRAMES) s),
        map (fun j => I2sWrite
                        (frame_at (audio_buf s)
                           ((audio_buf_frame_idx_to_send s + Z.of_nat j)
                            mod AUDIO_BUF_NUM_FRAMES)))
            (seq 0 n)).
Proof. exact (tx_events_in_order P n s). Qed.

(** The three frames of the final rest. *)
Lemma X28_witness :
  run_ops example_platform (repeat Op_TXdone 3) final_rest_rendered
  = Ok (tt,
        set_audio_buf_num_populated_frames
          (audio_buf_num_populated_frames final_rest_rendered - Z.of_nat 3)
          (set_audio_buf_frame_idx_to_send
             ((audio_buf_frame_idx_to_send final_rest_rendered + Z.of_nat 3)
              mod AUDIO_BUF_NUM_FRAMES) final_rest_rendered),
        map (fun j => I2sWrite
                        (frame_at (audio_buf final_rest_rendered)
                           ((audio_buf_frame_idx_to_send final_rest_rendered
                             + Z.of_nat j)
                            mod AUDIO_BUF_NUM_FRAMES)))
            (seq 0 3)).
Proof.
  apply (X28_frames_sent_in_ring_order example_platform 3
           final_rest_rendered).
  - vm_compute. split; congruence.
  - vm_compute. congruence.
Defined.
